(** * Legal-Tool: the retrieval-and-ranking pipeline

    A shallow embedding of the Python sources under [app/] and the
    properties of the chunker, the vector store, the JSON recovery parser,
    the reconciler/ranker and the orchestrator.

    Conventions of the embedding:
    - a Python [str] is a list of characters ([str]); only code points
      below 256 are represented;
    - a Python [int] is a [Z]; a Python [float] that carries a score is an
      exact rational ([Q]), so the arithmetic of the scores is the real
      arithmetic the source formulas denote;
    - a call that can raise returns in the monad [res]; a [while] loop runs
      on fuel and reports [OutOfFuel] when the fuel does not suffice. *)

From Stdlib Require Import String Ascii DecimalString.
From Stdlib Require DecimalZ.
From Stdlib Require Import ZArith QArith Lia Lqa Bool.
From Stdlib Require Import List Sorted Permutation.
Import ListNotations.

Open Scope Z_scope.

(* ================================================================== *)
(** ** Python primitives *)

Module Py.

Definition str := list ascii.

Definition lit (s : string) : str := list_ascii_of_string s.

Arguments lit s%_string.

Definition len {A : Type} (l : list A) : Z := Z.of_nat (length l).

(** [str.isspace] on one character, for the code points below 256:
    TAB..CR, FS..US, SPACE, NEL and NBSP. *)
Definition isspace (c : ascii) : bool :=
  let n := Z.of_N (N_of_ascii c) in
  ((9 <=? n) && (n <=? 13)) || ((28 <=? n) && (n <=? 32))
  || (n =? 133) || (n =? 160).

Fixpoint lstrip (s : str) : str :=
  match s with
  | [] => []
  | c :: s' => if isspace c then lstrip s' else s
  end.

Definition rstrip (s : str) : str := rev (lstrip (rev s)).

(** [s.strip()] *)
Definition strip (s : str) : str := rstrip (lstrip s).

(** Truth value of a string or a list: non-empty. *)
Definition truthy {A : Type} (l : list A) : bool :=
  match l with [] => false | _ :: _ => true end.

(** [c.lower()] for one character: A..Z and the Latin-1 capitals. *)
Definition lower_char (c : ascii) : ascii :=
  let n := Z.of_N (N_of_ascii c) in
  if ((65 <=? n) && (n <=? 90))
     || ((192 <=? n) && (n <=? 222) && negb (n =? 215))
  then ascii_of_N (Z.to_N (n + 32)) else c.

Definition lower (s : str) : str := map lower_char s.

(** Normalisation of one slice bound against a sequence of length [n]:
    a negative bound counts from the end, and the result is clipped to
    [0..n]. *)
Definition slice_bound (n i : Z) : Z :=
  if i <? 0 then Z.max (i + n) 0 else Z.min i n.

(** [l[start:stop]] *)
Definition slice {A : Type} (l : list A) (start stop : Z) : list A :=
  let a := slice_bound (len l) start in
  let b := slice_bound (len l) stop in
  firstn (Z.to_nat (b - a)) (skipn (Z.to_nat a) l).

(** [str(i)] for an integer. *)
Definition str_of_int (i : Z) : str :=
  list_ascii_of_string (NilZero.string_of_int (Z.to_int i)).

(** [s.startswith(p)] *)
Fixpoint startswith (s p : str) : bool :=
  match p, s with
  | [], _ => true
  | _ :: _, [] => false
  | a :: p', b :: s' => Ascii.eqb a b && startswith s' p'
  end.

(** [a == b] on strings. *)
Fixpoint str_eqb (a b : str) : bool :=
  match a, b with
  | [], [] => true
  | x :: a', y :: b' => Ascii.eqb x y && str_eqb a' b'
  | _, _ => false
  end.

(** [x or d] for an optional float: [None] and [0.0] are both false. *)
Definition float_or (x : option Q) (d : Q) : Q :=
  match x with
  | None => d
  | Some v => if Qeq_bool v 0%Q then d else v
  end.

End Py.

(* ================================================================== *)
(** ** Outcomes of a call *)

Module Res.

Import Py.

(** The exceptions the sources raise or let through. [Wrapped msg e] is
    [RuntimeError(f"msg: {e}")] raised [from e]; [External] stands for any
    exception raised inside a library call. *)
Inductive PyErr : Type :=
| FileNotFoundError (msg : string)
| ValueError (msg : string)
| RuntimeError (msg : string)
| Wrapped (msg : string) (cause : PyErr)
| External (what : string).

Arguments FileNotFoundError msg%_string.
Arguments ValueError msg%_string.
Arguments RuntimeError msg%_string.
Arguments Wrapped msg%_string cause.
Arguments External what%_string.

Inductive res (A : Type) : Type :=
| Ok (a : A)
| Raise (e : PyErr)
| OutOfFuel.

Arguments Ok {A} a.
Arguments Raise {A} e.
Arguments OutOfFuel {A}.

Definition bind {A B : Type} (c : res A) (k : A -> res B) : res B :=
  match c with
  | Ok a => k a
  | Raise e => Raise e
  | OutOfFuel => OutOfFuel
  end.

(** [try: c  except Exception as e: h e] *)
Definition try_except {A : Type} (c : res A) (h : PyErr -> res A) : res A :=
  match c with
  | Raise e => h e
  | _ => c
  end.

End Res.

Notation "x <- c ;; k" := (Res.bind c (fun x => k))
  (at level 61, c at next level, right associativity).

(* ================================================================== *)
(** ** app/services/pdf_processor.py *)

Module PDFProcessor.

Import Py Res.

Record Metadata : Type := {
  chunk_id : str;
  page_number : Z;
  document_id : str;
  total_pages : Z;
  chunk_index : Z
}.

(** The chunk dict [{'text': ..., 'metadata': {...}}]. *)
Record Chunk : Type := {
  text : str;
  metadata : Metadata
}.

Section Splitter.

(** The fields of the [PDFProcessor] instance. *)
Variables (chunk_size chunk_overlap : Z).

(** f"{doc_id}_page{page_number}_chunk{chunk_index}" *)
Definition make_chunk_id (doc_id : str) (page_number chunk_index : Z) : str :=
  doc_id ++ lit "_page" ++ str_of_int page_number
         ++ lit "_chunk" ++ str_of_int chunk_index.

Definition make_chunk (chunk_text : str) (page_number : Z) (doc_id : str)
           (total_pages chunk_index : Z) : Chunk :=
  {| text := strip chunk_text;
     metadata := {| chunk_id := make_chunk_id doc_id page_number chunk_index;
                    page_number := page_number;
                    document_id := doc_id;
                    total_pages := total_pages;
                    chunk_index := chunk_index |} |}.

(** The [while start < len(text)] loop of [_split_text_with_page], with
    its three loop variables [start], [chunk_index] and [chunks]. *)
Fixpoint split_loop (fuel : nat) (text : str) (page_number : Z)
         (doc_id : str) (total_pages : Z)
         (start chunk_index : Z) (chunks : list Chunk)
  : res (list Chunk) :=
  match fuel with
  | O => OutOfFuel
  | S fuel' =>
      if start <? len text then
        let end_ := start + chunk_size in
        let chunk_text := slice text start end_ in
        let '(chunks', chunk_index') :=
          if truthy (strip chunk_text)
          then (chunks ++ [make_chunk chunk_text page_number doc_id
                                      total_pages chunk_index],
                chunk_index + 1)
          else (chunks, chunk_index) in
        let start' :=
          if end_ <? len text then end_ - chunk_overlap else end_ in
        split_loop fuel' text page_number doc_id total_pages
                   start' chunk_index' chunks'
      else Ok chunks
  end.

Definition _split_text_with_page (fuel : nat) (text : str) (page_number : Z)
           (doc_id : str) (total_pages : Z) : res (list Chunk) :=
  split_loop fuel text page_number doc_id total_pages 0 0 [].

(** The loop over [enumerate(pdf.pages, start=1)] of [process_pdf]; a page
    is the result of [page.extract_text()], [None] included. *)
Fixpoint pages_loop (fuel : nat) (pages : list (option str)) (page_num : Z)
         (doc_id : str) (total_pages : Z) (chunks : list Chunk)
  : res (list Chunk) :=
  match pages with
  | [] => Ok chunks
  | page :: rest =>
      match page with
      | Some text =>
          if truthy text && truthy (strip text) then
            page_chunks <- _split_text_with_page fuel text page_num
                                                 doc_id total_pages ;;
            pages_loop fuel rest (page_num + 1) doc_id total_pages
                       (chunks ++ page_chunks)
          else pages_loop fuel rest (page_num + 1) doc_id total_pages chunks
      | None => pages_loop fuel rest (page_num + 1) doc_id total_pages chunks
      end
  end.

(** [process_pdf]; [opened] is what [pdfplumber.open(pdf_path)] gives: the
    extracted text of each page, or an exception. *)
Definition process_pdf (fuel : nat) (opened : res (list (option str)))
           (doc_id : str) : res (list Chunk * Z) :=
  try_except
    (pages <- opened ;;
     let total_pages := len pages in
     chunks <- pages_loop fuel pages 1 doc_id total_pages [] ;;
     Ok (chunks, total_pages))
    (fun e => Raise (Wrapped "Failed to process PDF" e)).

(** *** The sliding window of the specification

    The windows as the specification words them, over the length [n] of
    the page only: a window is [(start, start + chunk_size)]; the next one
    starts at the previous end minus the overlap, and a window whose end
    reaches the end of the page is the last. *)
Fixpoint sliding_windows (fuel : nat) (n start : Z) : res (list (Z * Z)) :=
  match fuel with
  | O => OutOfFuel
  | S fuel' =>
      if start <? n then
        let stop := start + chunk_size in
        if stop <? n then
          ws <- sliding_windows fuel' n (stop - chunk_overlap) ;;
          Ok ((start, stop) :: ws)
        else Ok [(start, stop)]
      else Ok []
  end.

Definition window_text (text : str) (w : Z * Z) : str :=
  slice text (fst w) (snd w).

Definition nonblank (s : str) : bool := truthy (strip s).

(** The chunks built from a list of non-blank window texts, numbered from
    [chunk_index]. *)
Fixpoint number_chunks (texts : list str) (page_number : Z) (doc_id : str)
         (total_pages chunk_index : Z) : list Chunk :=
  match texts with
  | [] => []
  | t :: rest =>
      make_chunk t page_number doc_id total_pages chunk_index
      :: number_chunks rest page_number doc_id total_pages (chunk_index + 1)
  end.

End Splitter.

End PDFProcessor.

(* ================================================================== *)
(** ** app/models/schemas.py *)

Module Schemas.

Import Py Res.

Inductive Stance : Type :=
| PLAINTIFF | DEFENDANT | AMICUS | FOR | AGAINST | NEUTRAL | UNKNOWN.

Inductive ArgumentCategory : Type :=
| STATUTORY | REGULATORY | CONSTITUTIONAL | CASE_LAW | PROCEDURAL | POLICY
| OTHER.

(** [class ExtractedPoint(BaseModel)]; an [Optional] field is an [option]. *)
Record ExtractedPoint : Type := {
  summary : str;
  importance : option str;
  importance_score : Q;
  stance : Stance;
  supporting_quote : option str;
  legal_concepts : list str;
  page_start : option Z;
  page_end : option Z;
  line_start : option Z;
  line_end : option Z;
  category : option ArgumentCategory;
  retrieval_score : option Q;
  combined_score : option Q
}.

(** [class FinalKeyPoint(ExtractedPoint)]: the inherited fields and
    [final_rank]. *)
Record FinalKeyPoint : Type := {
  point : ExtractedPoint;
  final_rank : Z
}.

Record LLMAnalysisOutput : Type := {
  extracted_points : list ExtractedPoint;
  confidence : Q
}.

Definition opt_holds {A : Type} (f : A -> bool) (x : option A) : bool :=
  match x with None => true | Some a => f a end.

(** The [Field] constraints of [ExtractedPoint], checked when an instance is
    built: [min_length=5], [ge=0.0, le=1.0], [ge=1], [ge=0.0]. *)
Definition valid_point (p : ExtractedPoint) : bool :=
  (5 <=? len (summary p))
  && Qle_bool 0 (importance_score p) && Qle_bool (importance_score p) 1
  && opt_holds (fun n => 1 <=? n) (page_start p)
  && opt_holds (fun n => 1 <=? n) (page_end p)
  && opt_holds (fun q => Qle_bool 0 q) (retrieval_score p)
  && opt_holds (fun q => Qle_bool 0 q) (combined_score p).

(** The constraints of [FinalKeyPoint]: those it inherits and
    [final_rank: int = Field(..., ge=1)]. *)
Definition valid_final (fp : FinalKeyPoint) : bool :=
  valid_point (point fp) && (1 <=? final_rank fp).

(** [FinalKeyPoint(...)]: the instance, or the validation error. *)
Definition new_FinalKeyPoint (p : ExtractedPoint) (rank : Z)
  : res FinalKeyPoint :=
  let fp := {| point := p; final_rank := rank |} in
  if valid_final fp then Ok fp else Raise (External "ValidationError").

End Schemas.

(* ================================================================== *)
(** ** app/services/post_processor.py *)

Module PostProcessor.

Import Py Res PDFProcessor Schemas.

(** [a < b] on scores. *)
Definition Qltb (a b : Q) : bool :=
  match (a ?= b)%Q with Lt => true | _ => false end.

Section Ranker.

(** [rapidfuzz.fuzz.token_set_ratio], a score between 0 and 100. *)
Variable token_set_ratio : str -> str -> Q.

(** [self.top_k] *)
Variable top_k : Z.

(** The [for chunk in candidate_chunks] loop: the running best chunk and
    best score. *)
Definition best_step (quote : str) (acc : option Chunk * Q) (chunk : Chunk)
  : option Chunk * Q :=
  let score := (token_set_ratio (lower quote) (lower (text chunk)) / 100)%Q in
  if Qltb (snd acc) score then (Some chunk, score) else acc.

Definition _find_best_matching_chunk (quote : str) (chunks : list Chunk)
           (expected_page : option Z) : option Chunk * Q :=
  if negb (truthy quote) || negb (truthy chunks) then (None, 0%Q)
  else
    let candidate_chunks :=
      match expected_page with
      | Some p =>
          if p =? 0 then chunks
          else
            let on_page :=
              filter (fun c => page_number (metadata c) =? p) chunks in
            if truthy on_page then on_page else chunks
      | None => chunks
      end in
    fold_left (best_step quote) candidate_chunks (None, 0%Q).

(** [a or b] on an optional string. *)
Definition str_or (a : option str) (b : str) : str :=
  match a with
  | Some s => if truthy s then s else b
  | None => b
  end.

Definition set_page_start (p : ExtractedPoint) (v : option Z)
  : ExtractedPoint :=
  {| summary := summary p; importance := importance p;
     importance_score := importance_score p; stance := stance p;
     supporting_quote := supporting_quote p;
     legal_concepts := legal_concepts p;
     page_start := v; page_end := page_end p;
     line_start := line_start p; line_end := line_end p;
     category := category p; retrieval_score := retrieval_score p;
     combined_score := combined_score p |}.

(** [quote = point.supporting_quote or point.summary] *)
Definition quote_of (p : ExtractedPoint) : str :=
  str_or (supporting_quote p) (summary p).

(** [self._find_best_matching_chunk(quote, chunks, point.page_start)] *)
Definition match_of (p : ExtractedPoint) (chunks : list Chunk)
  : option Chunk * Q :=
  _find_best_matching_chunk (quote_of p) chunks (page_start p).

(** One round of the [for point in extracted_points] loop: the point as
    the round leaves it (its [page_start] may have been overwritten) and
    the final point the round appends. A chunk dict is never empty, so
    [if best_chunk:] asks whether a chunk was found.

    The scores are rationals and the sum of products is exact, where the
    code computes in binary floating point and rounds each product and each
    sum: a combined score here is the score of the code up to that
    rounding. *)
Definition process_point (p : ExtractedPoint) (chunks : list Chunk)
  : res (ExtractedPoint * FinalKeyPoint) :=
  let retrieval_score := float_or (retrieval_score p) (1 # 2) in
  let importance_score := float_or (Some (importance_score p)) (1 # 2) in
  let quote := quote_of p in
  let '(best_chunk, match_confidence) := match_of p chunks in
  let p' :=
    match best_chunk with
    | Some c => set_page_start p (Some (page_number (metadata c)))
    | None => p
    end in
  let combined_score :=
    ((1 # 2) * importance_score + (3 # 10) * retrieval_score
     + (2 # 10) * match_confidence)%Q in
  final_point <-
    new_FinalKeyPoint
      {| summary := summary p'; importance := importance p';
         importance_score := importance_score; stance := stance p';
         supporting_quote := Some quote;
         legal_concepts := legal_concepts p';
         page_start := page_start p'; page_end := page_end p';
         line_start := line_start p'; line_end := line_end p';
         category := category p';
         retrieval_score := Some retrieval_score;
         combined_score := Some combined_score |} 1 ;;
  Ok (p', final_point).

(** The loop itself. The points of the list are distinct objects, as the
    analyzer builds them, so what a round writes into its point is not seen
    by another round. *)
Fixpoint process_points (points : list ExtractedPoint) (chunks : list Chunk)
  : res (list ExtractedPoint * list FinalKeyPoint) :=
  match points with
  | [] => Ok ([], [])
  | p :: rest =>
      r <- process_point p chunks ;;
      rs <- process_points rest chunks ;;
      Ok (fst r :: fst rs, snd r :: snd rs)
  end.

(** The sort key [lambda x: x.combined_score]; every final point built
    above carries a score. *)
Definition sort_key (fp : FinalKeyPoint) : Q :=
  match combined_score (point fp) with Some s => s | None => 0%Q end.

(** [list.sort(key=..., reverse=True)]: the stable sort, by descending
    key; elements with equal keys keep their order. [insert_desc x l] puts
    [x], which comes before the elements of [l], in front of the first
    element whose key is not greater. *)
Fixpoint insert_desc (x : FinalKeyPoint) (l : list FinalKeyPoint)
  : list FinalKeyPoint :=
  match l with
  | [] => [x]
  | y :: l' =>
      if Qltb (sort_key x) (sort_key y) then y :: insert_desc x l'
      else x :: l
  end.

Fixpoint sort_desc (l : list FinalKeyPoint) : list FinalKeyPoint :=
  match l with
  | [] => []
  | x :: l' => insert_desc x (sort_desc l')
  end.

Definition set_final_rank (fp : FinalKeyPoint) (i : Z) : FinalKeyPoint :=
  {| point := point fp; final_rank := i |}.

(** [for i, point in enumerate(final_points, i0): point.final_rank = i] *)
Fixpoint assign_ranks (i : Z) (l : list FinalKeyPoint) : list FinalKeyPoint :=
  match l with
  | [] => []
  | fp :: l' => set_final_rank fp i :: assign_ranks (i + 1) l'
  end.

(** [process_and_rank]: the extracted points as the call leaves them, and
    the list it returns. *)
Definition process_and_rank (extracted_points : list ExtractedPoint)
           (chunks : list Chunk)
  : res (list ExtractedPoint * list FinalKeyPoint) :=
  r <- process_points extracted_points chunks ;;
  let final_points := sort_desc (snd r) in
  let final_points := slice final_points 0 top_k in
  Ok (fst r, assign_ranks 1 final_points).

End Ranker.

End PostProcessor.

(* ================================================================== *)
(** ** app/utils/embeddings.py *)

Module Embeddings.

Import Py Res.

(** One row of the embedding matrix. *)
Definition Vector : Type := list Q.

(** The sentence-transformer behind [EmbeddingService]: its dimension and
    its [encode], which gives one row per text or raises ([None]). *)
Class EmbeddingModel : Type := {
  get_sentence_embedding_dimension : Z;
  model_encode : list str -> option (list Vector)
}.

(** [lift what o]: the result of a library call that raises when [o] is
    [None]. *)
Definition lift {A : Type} (what : string) (o : option A) : res A :=
  match o with
  | Some a => Ok a
  | None => Raise (External what)
  end.

Arguments lift {A} what%_string o.

(** [EmbeddingService.encode] *)
Definition encode `{EmbeddingModel} (texts : list str) : res (list Vector) :=
  if negb (truthy texts)
  then Raise (ValueError "No texts provided for encoding")
  else
    try_except
      (lift "SentenceTransformer.encode" (model_encode texts))
      (fun e => Raise (Wrapped "Failed to generate embeddings" e)).

End Embeddings.

(* ================================================================== *)
(** ** app/services/vector_store.py *)

Module VectorStore.

Import Py Res PDFProcessor Embeddings.

(** A distance as the engine returns it: a number, NaN or an infinity. *)
Inductive float : Type :=
| Finite (q : Q)
| NaN
| PosInf
| NegInf.

(** The FAISS engine behind the store. A call that raises gives [None].
    [index_add index xs] stands for [index.add(xs)] and
    [index_search index q k] for [index.search(q, k)] followed by the
    selection of row 0 of both arrays: the distances and the labels found
    for the one query; FAISS pads with the label -1 where it finds no
    neighbour. *)
Class AnnEngine : Type := {
  Index : Type;
  IndexHNSWFlat : Z -> Z -> option Index;
  set_efConstruction : Index -> Z -> Index;
  set_efSearch : Index -> Z -> Index;
  index_add : Index -> list Vector -> option Index;
  index_search : Index -> list Vector -> Z -> option (list float * list Z)
}.

Section Store.

Context `{EmbeddingModel} `{AnnEngine}.

(** The fields of a [VectorStore] instance. *)
Record Store : Type := {
  dimension : Z;
  m : Z;
  ef_construction : Z;
  index : option Index;
  chunks : list Chunk;
  doc_id : option str
}.

(** [VectorStore(embedding_service, m, ef_construction)] *)
Definition new_store (m ef_construction : Z) : Store :=
  {| dimension := get_sentence_embedding_dimension;
     m := m; ef_construction := ef_construction;
     index := None; chunks := []; doc_id := None |}.

Definition is_some {A : Type} (o : option A) : bool :=
  match o with Some _ => true | None => false end.

(** [initialize_index(doc_id, force_new)]: the store after the call. *)
Definition initialize_index (self : Store) (doc : str) (force_new : bool)
  : res Store :=
  if is_some (index self) && negb force_new then Ok self
  else
    try_except
      (idx <- lift "faiss.IndexHNSWFlat"
                   (IndexHNSWFlat (dimension self) (m self)) ;;
       Ok {| dimension := dimension self; m := m self;
             ef_construction := ef_construction self;
             index := Some (set_efConstruction idx (ef_construction self));
             chunks := [];
             doc_id := Some doc |})
      (fun e => Raise (Wrapped "FAISS initialization failed" e)).

(** [add_chunks(chunks)]: the store after the call. *)
Definition add_chunks (self : Store) (new_chunks : list Chunk) : res Store :=
  match index self with
  | None =>
      Raise (RuntimeError
               "Index not initialized. Call initialize_index() first.")
  | Some idx =>
      let texts := map text new_chunks in
      try_except
        (embeddings <- encode texts ;;
         idx' <- lift "faiss.Index.add" (index_add idx embeddings) ;;
         Ok {| dimension := dimension self; m := m self;
               ef_construction := ef_construction self;
               index := Some idx';
               chunks := chunks self ++ new_chunks;
               doc_id := doc_id self |})
        (fun e => Raise e)
  end.

(** [max(a, b)] and [min(a, b)] of Python: the first argument unless the
    second is strictly beyond it. *)
Definition py_max (a b : Q) : Q := if Qle_bool b a then a else b.
Definition py_min (a b : Q) : Q := if Qle_bool a b then a else b.

(** The body of the loop of [search] on one distance: sanitise, clamp,
    convert to a similarity, clamp to [0, 1]. *)
Definition similarity (d : float) : Q :=
  let dist := match d with Finite q => q | _ => 1000000%Q end in
  let dist := py_max dist 0 in
  let retrieval_score := (1 / (1 + dist))%Q in
  py_max 0 (py_min retrieval_score 1).

(** [for dist, idx in zip(distances[0], indices[0])] *)
Fixpoint search_loop (pairs : list (float * Z)) (chunks : list Chunk)
         (results : list (Chunk * Q)) : list (Chunk * Q) :=
  match pairs with
  | [] => results
  | (dist, idx) :: rest =>
      if (0 <=? idx) && (idx <? len chunks) then
        match nth_error chunks (Z.to_nat idx) with
        | Some chunk =>
            search_loop rest chunks (results ++ [(chunk, similarity dist)])
        | None => search_loop rest chunks results
        end
      else search_loop rest chunks results
  end.

(** [search(query, top_k, ef_search)]: the store after the call and the
    list returned. *)
Definition search (self : Store) (query : str) (top_k ef_search : Z)
  : res (Store * list (Chunk * Q)) :=
  match index self with
  | None => Ok (self, [])
  | Some idx =>
      if negb (truthy (chunks self)) then Ok (self, [])
      else
        try_except
          (let idx := set_efSearch idx ef_search in
           query_embedding <- encode [query] ;;
           found <- lift "faiss.Index.search"
                         (index_search idx query_embedding
                                       (Z.min top_k (len (chunks self)))) ;;
           let results :=
             search_loop (combine (fst found) (snd found)) (chunks self) [] in
           Ok ({| dimension := dimension self; m := m self;
                  ef_construction := ef_construction self;
                  index := Some idx;
                  chunks := chunks self;
                  doc_id := doc_id self |}, results))
          (fun e => Raise (Wrapped "Vector search failed" e))
  end.

End Store.

End VectorStore.

(* ================================================================== *)
(** ** app/utils/helpers.py *)

Module Helpers.

Import Py Res Embeddings.

(** A value that [json.loads] returns; [JNull] is Python's [None]. *)
#[local] Set Warnings "-register-all".
Inductive Json : Type :=
| JNull
| JBool (b : bool)
| JNum (q : Q)
| JStr (s : str)
| JArr (items : list Json)
| JObj (fields : list (str * Json)).
#[local] Set Warnings "register-all".

(** [v is None] *)
Definition is_none (v : Json) : bool :=
  match v with JNull => true | _ => false end.

(** [s.find(c)] and [s.rfind(c)] for one character: the index of its first
    and of its last occurrence, or -1. *)
Fixpoint find_from (c : ascii) (s : str) (i : Z) : Z :=
  match s with
  | [] => -1
  | x :: s' => if Ascii.eqb x c then i else find_from c s' (i + 1)
  end.

Definition find (s : str) (c : ascii) : Z := find_from c s 0.

Fixpoint rfind_from (c : ascii) (s : str) (i last : Z) : Z :=
  match s with
  | [] => last
  | x :: s' => rfind_from c s' (i + 1) (if Ascii.eqb x c then i else last)
  end.

Definition rfind (s : str) (c : ascii) : Z := rfind_from c s 0 (-1).

Section Parser.

(** [json.loads]: the value, or [None] when it raises. *)
Variable json_loads : str -> option Json.

(** [re.findall(pattern, text, re.DOTALL)] for a pattern with one group:
    the texts the group captured, match after match. *)
Variable re_findall : string -> str -> list str.

(** [try: return json.loads(text)  except Exception: return None] *)
Definition _try_direct_parse (text : str) : res Json :=
  try_except (lift "json.loads" (json_loads text)) (fun _ => Ok JNull).

Definition patterns : list string :=
  [ "```json\s*(\{.*?\})\s*```";
    "```\s*(\{.*?\})\s*```";
    "```json\s*(\[.*?\])\s*```";
    "```\s*(\[.*?\])\s*```" ]%string.

(** [try: return json.loads(s)  except Exception: <go on>]: the value
    returned, or [None] when the body raised and the code goes on. *)
Definition attempt_loads (s : str) : res (option Json) :=
  try_except
    (v <- lift "json.loads" (json_loads s) ;; Ok (Some v))
    (fun _ => Ok None).

(** [for match in matches]: the value of the first match that loads; a
    match that raises is passed over. *)
Fixpoint first_loadable (matches : list str) : res (option Json) :=
  match matches with
  | [] => Ok None
  | mtch :: rest =>
      r <- attempt_loads mtch ;;
      match r with
      | Some v => Ok (Some v)
      | None => first_loadable rest
      end
  end.

(** [for pattern in patterns] *)
Fixpoint code_block_loop (pats : list string) (text : str) : res Json :=
  match pats with
  | [] => Ok JNull
  | pattern :: rest =>
      r <- first_loadable (re_findall pattern text) ;;
      match r with
      | Some v => Ok v
      | None => code_block_loop rest text
      end
  end.

Definition _try_code_block (text : str) : res Json :=
  code_block_loop patterns text.

(** One of the two attempts of [_try_bracket_extract]: the slice from the
    first [opening] to the last [closing], loaded; [None] when the attempt
    falls through to what follows. *)
Definition bracket_attempt (text : str) (opening closing : ascii)
  : res (option Json) :=
  let start_idx := find text opening in
  let end_idx := rfind text closing in
  if negb (start_idx =? -1) && negb (end_idx =? -1) && (start_idx <? end_idx)
  then
    let json_str := slice text start_idx (end_idx + 1) in
    attempt_loads json_str
  else Ok None.

Definition _try_bracket_extract (text : str) : res Json :=
  r <- bracket_attempt text "{"%char "}"%char ;;
  match r with
  | Some v => Ok v
  | None =>
      r <- bracket_attempt text "["%char "]"%char ;;
      match r with
      | Some v => Ok v
      | None => Ok JNull
      end
  end.

Definition prefixes_to_remove : list str :=
  [ lit "Here is the JSON:"; lit "Here's the JSON:"; lit "JSON response:";
    lit "Response:"; lit "Output:"; lit "Result:" ].

(** [for prefix in prefixes_to_remove] *)
Fixpoint prefix_loop (prefixes : list str) (text : str) : res Json :=
  match prefixes with
  | [] => Ok JNull
  | prefix :: rest =>
      if startswith (lower text) (lower prefix) then
        let cleaned := strip (slice text (len prefix) (len text)) in
        r <- attempt_loads cleaned ;;
        match r with
        | Some v => Ok v
        | None => prefix_loop rest text
        end
      else prefix_loop rest text
  end.

Definition _try_remove_prefix (text : str) : res Json :=
  prefix_loop prefixes_to_remove text.

(** [for parser in (...)]: the first result that is not [None]. *)
Fixpoint try_parsers (parsers : list (str -> res Json)) (text : str)
  : res Json :=
  match parsers with
  | [] => Ok JNull
  | parser :: rest =>
      result <- parser text ;;
      if negb (is_none result) then Ok result else try_parsers rest text
  end.

Definition parse_json_response (response_text : str) : res Json :=
  if negb (truthy response_text) then Ok JNull
  else
    let response_text := strip response_text in
    try_parsers [_try_direct_parse; _try_code_block; _try_bracket_extract;
                 _try_remove_prefix] response_text.

End Parser.

End Helpers.

(* ================================================================== *)
(** ** app/services/metadata_extractor.py *)

Module MetadataExtractor.

Import Py Res PDFProcessor.

Record DocMetadata : Type := {
  document_name : str;
  total_pages : Z;
  total_chunks : Z;
  document_id : str
}.

(** [extract_metadata]; [None] is the empty dict. *)
Definition extract_metadata (chunks : list Chunk) (doc_name : str)
  : option DocMetadata :=
  match chunks with
  | [] => None
  | first :: _ =>
      let first_chunk_meta := metadata first in
      Some {| document_name := doc_name;
              total_pages := PDFProcessor.total_pages first_chunk_meta;
              total_chunks := len chunks;
              document_id := PDFProcessor.document_id first_chunk_meta |}
  end.

End MetadataExtractor.

(* ================================================================== *)
(** ** app/services/llm_analyzer.py *)

Module LLMAnalyzer.

Import Py Res PDFProcessor Embeddings Schemas Helpers.

(** Truth value of a parsed JSON value: [None], [False], 0, the empty
    string, the empty list and the empty dict are false. *)
Definition json_truthy (v : Json) : bool :=
  match v with
  | JNull => false
  | JBool b => b
  | JNum q => negb (Qeq_bool q 0)
  | JStr s => truthy s
  | JArr items => truthy items
  | JObj fields => truthy fields
  end.

Definition newline : ascii := "010"%char.

(** [sep.join(parts)] *)
Fixpoint join (sep : str) (parts : list str) : str :=
  match parts with
  | [] => []
  | [part] => part
  | part :: rest => part ++ sep ++ join sep rest
  end.

(** [for i, (chunk, _) in enumerate(chunks_with_scores, i0)] *)
Fixpoint context_parts (i : Z) (chunks_with_scores : list (Chunk * Q))
  : list str :=
  match chunks_with_scores with
  | [] => []
  | (chunk, _) :: rest =>
      (lit "[Chunk " ++ str_of_int i ++ lit ", Page "
           ++ str_of_int (page_number (metadata chunk)) ++ lit "]:"
           ++ [newline] ++ text chunk ++ [newline])
      :: context_parts (i + 1) rest
  end.

Definition _prepare_context (chunks_with_scores : list (Chunk * Q)) : str :=
  join [newline] (context_parts 1 chunks_with_scores).

Definition fallback : LLMAnalysisOutput :=
  {| extracted_points := []; confidence := 0%Q |}.

Section Analyzer.

Variable json_loads : str -> option Json.
Variable re_findall : string -> str -> list str.

(** [self.llm]: absent, or the [invoke] of the client, which gives the text
    of the response or raises ([None]). *)
Variable llm : option (str -> option str).

(** The fixed text of the extraction prompt before and after the
    context. *)
Variables (prompt_head prompt_tail : str).

(** The reading of the parsed response into validated points and a
    confidence (the dict accesses, the coercion of the enumerations and the
    construction of each [ExtractedPoint], with the records that fail left
    out); [None] when it raises. *)
Variable read_points :
  Json -> list (Chunk * Q) -> option LLMAnalysisOutput.

Definition _create_extraction_prompt (context : str) : str :=
  prompt_head ++ context ++ prompt_tail.

Definition analyze_chunks (chunks_with_scores : list (Chunk * Q))
           (max_chunks : Z) : res LLMAnalysisOutput :=
  match llm with
  | None => Ok fallback
  | Some invoke =>
      let chunks_to_analyze := slice chunks_with_scores 0 max_chunks in
      let context := _prepare_context chunks_to_analyze in
      let prompt := _create_extraction_prompt context in
      try_except
        (response_text <- lift "ChatGroq.invoke" (invoke prompt) ;;
         parsed_data <- parse_json_response json_loads re_findall
                                            response_text ;;
         if negb (json_truthy parsed_data) then Ok fallback
         else lift "reading the points"
                   (read_points parsed_data chunks_to_analyze))
        (fun _ => Ok fallback)
  end.

End Analyzer.

End LLMAnalyzer.

(* ================================================================== *)
(** ** app/services/pipeline.py *)

Module Pipeline.

Import Py Res PDFProcessor Embeddings Schemas Helpers.

(** The settings the pipeline reads. *)
Record Settings : Type := {
  CHUNK_SIZE : Z;
  CHUNK_OVERLAP : Z;
  TOP_K_RETRIEVAL : Z;
  FINAL_OUTPUT_COUNT : Z;
  FAISS_M : Z;
  FAISS_EF_CONSTRUCTION : Z;
  FAISS_EF_SEARCH : Z
}.

(** The dict [analyze_document] returns. *)
Record Analysis : Type := {
  document_id : str;
  document_name : str;
  total_pages : Z;
  total_chunks : Z;
  key_points : list FinalKeyPoint;
  processing_time : Q;
  metadata : option MetadataExtractor.DocMetadata
}.

Definition query : str :=
  lit "Extract key legal arguments from this document".

Section Run.

Context `{EmbeddingModel} `{VectorStore.AnnEngine}.

Variable settings : Settings.

(** The world around one run: the file system, the hash, the PDF reader
    and the clock. [read_bytes] and [pdf_pages] give [None] when they
    raise. *)
Variable isfile : str -> bool.
Variable read_bytes : str -> option (list Byte.byte).
Variable sha256_hexdigest : list Byte.byte -> str.
Variable pdf_pages : str -> option (list (option str)).
Variable elapsed : Q.

(** The collaborators of the extraction and of the matching. *)
Variable json_loads : str -> option Json.
Variable re_findall : string -> str -> list str.
Variable llm : option (str -> option str).
Variables (prompt_head prompt_tail : str).
Variable read_points :
  Json -> list (Chunk * Q) -> option LLMAnalysisOutput.
Variable token_set_ratio : str -> str -> Q.

(** [calculate_content_hash] of app/utils/helpers.py *)
Definition calculate_content_hash (content : list Byte.byte) : str :=
  sha256_hexdigest content.

(** [analyze_document]: the vector store after the run and the result.
    [fuel] bounds the loop of the chunker on each page. *)
Definition analyze_document (fuel : nat) (vector_store : VectorStore.Store)
           (pdf_path filename : str) : res (VectorStore.Store * Analysis) :=
  try_except
    (if negb (isfile pdf_path)
     then Raise (FileNotFoundError "Uploaded PDF not found on server.")
     else
       content <- lift "open" (read_bytes pdf_path) ;;
       if negb (truthy content) then Raise (ValueError "Empty PDF file.")
       else
         let doc_id := calculate_content_hash content in
         processed <- process_pdf (CHUNK_SIZE settings)
                                  (CHUNK_OVERLAP settings) fuel
                                  (lift "pdfplumber" (pdf_pages pdf_path))
                                  doc_id ;;
         let chunks := fst processed in
         let total_pages := snd processed in
         if negb (truthy chunks)
         then Raise (ValueError "No text extracted from PDF.")
         else
           let metadata :=
             MetadataExtractor.extract_metadata chunks filename in
           vector_store <- VectorStore.initialize_index vector_store
                                                        doc_id true ;;
           vector_store <- VectorStore.add_chunks vector_store chunks ;;
           found <- VectorStore.search vector_store query
                                       (TOP_K_RETRIEVAL settings)
                                       (FAISS_EF_SEARCH settings) ;;
           let retrieved_chunks := snd found in
           llm_output <- LLMAnalyzer.analyze_chunks
                           json_loads re_findall llm prompt_head prompt_tail
                           read_points retrieved_chunks 30 ;;
           ranked <- PostProcessor.process_and_rank
                       token_set_ratio (FINAL_OUTPUT_COUNT settings)
                       (extracted_points llm_output) chunks ;;
           let final_points := snd ranked in
           Ok (fst found,
               {| document_id := doc_id;
                  document_name := filename;
                  total_pages := total_pages;
                  total_chunks := len chunks;
                  key_points := final_points;
                  processing_time := elapsed;
                  metadata := metadata |}))
    (fun e => Raise e).

End Run.

End Pipeline.

(* ================================================================== *)
(** ** app/config.py *)

Module Config.

Import Pipeline.

(** The bounds ([ge], [le]) that the fields of [Settings] put on the
    processing parameters the pipeline reads. *)
Definition in_bounds (settings : Settings) : bool :=
  (500 <=? CHUNK_SIZE settings) && (CHUNK_SIZE settings <=? 3000)
  && (0 <=? CHUNK_OVERLAP settings) && (CHUNK_OVERLAP settings <=? 500)
  && (10 <=? TOP_K_RETRIEVAL settings) && (TOP_K_RETRIEVAL settings <=? 100)
  && (5 <=? FINAL_OUTPUT_COUNT settings)
  && (FINAL_OUTPUT_COUNT settings <=? 20).

End Config.

(* ================================================================== *)
(** ** Concrete inputs *)

Module Examples.

Import Py Res PDFProcessor Schemas PostProcessor.

(** A matcher that scores 100 on equal strings and 0 otherwise. *)
Definition exact_ratio (a b : str) : Q := if str_eqb a b then 100%Q else 0%Q.

(** Pages for the chunker: 3000 and 500 characters without a blank, and a
    short page with a run of blanks in the middle. *)
Definition page_3000 : str := repeat "x"%char 3000.
Definition page_500 : str := repeat "y"%char 500.
Definition gappy : str := lit "ab         cd e".

Definition chunk_on (page index : Z) (t : string) : Chunk :=
  make_chunk (lit t) page (lit "d0c") 2 index.

Arguments chunk_on page index t%_string.

Definition chunk_a : Chunk := chunk_on 1 0 "the court dismissed the appeal".
Definition chunk_b : Chunk := chunk_on 1 1 "costs were awarded".
Definition chunk_c : Chunk := chunk_on 2 0 "the statute bars recovery".

Definition two_pages : list Chunk := [chunk_a; chunk_b; chunk_c].

Definition mk_point (s : str) (imp : Q) (quote : option str)
           (page : option Z) (retr : option Q) : ExtractedPoint :=
  {| summary := s; importance := None; importance_score := imp;
     stance := NEUTRAL; supporting_quote := quote; legal_concepts := [];
     page_start := page; page_end := None; line_start := None;
     line_end := None; category := None; retrieval_score := retr;
     combined_score := None |}.

(** A point that quotes [chunk_c] (page 2) but reports page 1. *)
Definition misplaced : ExtractedPoint :=
  mk_point (lit "recovery is barred") (9 # 10) (Some (text chunk_c))
           (Some 1) (Some (4 # 5)).

(** The same quote, reported on a page that holds no chunk. *)
Definition misplaced_off : ExtractedPoint :=
  mk_point (lit "recovery is barred") (9 # 10) (Some (text chunk_c))
           (Some 7) (Some (4 # 5)).

(** A point the extractor gave an importance of 0.0. *)
Definition unimportant : ExtractedPoint :=
  mk_point (lit "a remark in passing") 0 None None (Some (4 # 5)).

(** Points without a quote: [None] and the empty string. *)
Definition unquoted : ExtractedPoint :=
  mk_point (lit "the appeal fails") (7 # 10) None (Some 1) (Some (3 # 5)).

Definition empty_quote : ExtractedPoint :=
  mk_point (lit "costs follow the event") (7 # 10) (Some []) (Some 1)
           (Some (3 # 5)).

(** An embedding model of dimension 1: the length of the text. *)
#[export] Instance length_model : Embeddings.EmbeddingModel := {|
  Embeddings.get_sentence_embedding_dimension := 1;
  Embeddings.model_encode texts :=
    Some (map (fun t => [inject_Z (len t)]) texts)
|}.

(** A small engine with the interface of FAISS, exact as FAISS is on the
    few vectors of the examples. It keeps the vectors in the order they
    were added. A search reports the [k] vectors nearest to the query,
    nearest first, each with its squared distance and the position it was
    added at; only when the index holds fewer than [k] vectors is the
    answer filled up to [k] entries, with the label -1 and the largest
    float32 for a distance. It refuses a request for fewer than 1
    neighbour and vectors of another dimension than its own. *)
Record ToyIndex : Type := {
  toy_dimension : Z;
  toy_m : Z;
  toy_efConstruction : Z;
  toy_efSearch : Z;
  toy_vectors : list Embeddings.Vector
}.

Fixpoint sqdist (a b : Embeddings.Vector) : Q :=
  match a, b with
  | x :: a', y :: b' => ((x - y) * (x - y) + sqdist a' b')%Q
  | _, _ => 0%Q
  end.

Definition of_dimension (d : Z) (xs : list Embeddings.Vector) : bool :=
  forallb (fun v => len v =? d) xs.

(** The distances to the query with their labels, in ascending order of
    distance. *)
Fixpoint insert_near (x : Q * Z) (l : list (Q * Z)) : list (Q * Z) :=
  match l with
  | [] => [x]
  | y :: l' =>
      if Qle_bool (fst x) (fst y) then x :: l else y :: insert_near x l'
  end.

Fixpoint nearest_first (l : list (Q * Z)) : list (Q * Z) :=
  match l with
  | [] => []
  | x :: l' => insert_near x (nearest_first l')
  end.

Definition float32_max : Q := 340282346638528859811704183484516925440.

Definition toy_search (idx : ToyIndex) (q : list Embeddings.Vector) (k : Z)
  : option (list VectorStore.float * list Z) :=
  match q with
  | [qv] =>
      if (k <=? 0) || negb (of_dimension (toy_dimension idx) q) then None
      else
        let labelled :=
          combine (map (sqdist qv) (toy_vectors idx))
                  (map Z.of_nat (seq 0 (length (toy_vectors idx)))) in
        let found := firstn (Z.to_nat k) (nearest_first labelled) in
        let pad := (Z.to_nat k - length found)%nat in
        Some (map (fun r => VectorStore.Finite (fst r)) found
                ++ repeat (VectorStore.Finite float32_max) pad,
              map snd found ++ repeat (-1) pad)
  | _ => None
  end.

#[export] Instance toy_engine : VectorStore.AnnEngine := {|
  VectorStore.Index := ToyIndex;
  VectorStore.IndexHNSWFlat d m :=
    Some {| toy_dimension := d; toy_m := m; toy_efConstruction := 40;
            toy_efSearch := 16; toy_vectors := [] |};
  VectorStore.set_efConstruction idx v :=
    {| toy_dimension := toy_dimension idx; toy_m := toy_m idx;
       toy_efConstruction := v; toy_efSearch := toy_efSearch idx;
       toy_vectors := toy_vectors idx |};
  VectorStore.set_efSearch idx v :=
    {| toy_dimension := toy_dimension idx; toy_m := toy_m idx;
       toy_efConstruction := toy_efConstruction idx; toy_efSearch := v;
       toy_vectors := toy_vectors idx |};
  VectorStore.index_add idx xs :=
    if of_dimension (toy_dimension idx) xs
    then Some {| toy_dimension := toy_dimension idx; toy_m := toy_m idx;
                 toy_efConstruction := toy_efConstruction idx;
                 toy_efSearch := toy_efSearch idx;
                 toy_vectors := toy_vectors idx ++ xs |}
    else None;
  VectorStore.index_search := toy_search
|}.

(** A store that holds the three chunks of [two_pages]. *)
Definition loaded_store : VectorStore.Store :=
  {| VectorStore.dimension := 1; VectorStore.m := 32;
     VectorStore.ef_construction := 64;
     VectorStore.index :=
       Some {| toy_dimension := 1; toy_m := 32; toy_efConstruction := 64;
               toy_efSearch := 16;
               toy_vectors := [[30%Q]; [18%Q]; [25%Q]] |};
     VectorStore.chunks := two_pages;
     VectorStore.doc_id := Some (lit "d0c") |}.

(** The world of a run on a two-page document, without an extraction
    backend: pages of 3000 and 500 characters, the default settings. *)
Definition default_settings : Pipeline.Settings :=
  {| Pipeline.CHUNK_SIZE := 1500; Pipeline.CHUNK_OVERLAP := 200;
     Pipeline.TOP_K_RETRIEVAL := 60; Pipeline.FINAL_OUTPUT_COUNT := 10;
     Pipeline.FAISS_M := 32; Pipeline.FAISS_EF_CONSTRUCTION := 64;
     Pipeline.FAISS_EF_SEARCH := 64 |}.

Definition pdf_bytes : list Byte.byte :=
  [Byte.x25; Byte.x50; Byte.x44; Byte.x46].

Definition two_page_pdf (path : str) : option (list (option str)) :=
  Some [Some page_3000; Some page_500].

(** A stand-in for the hash: the length of the content, in decimal. *)
Definition toy_digest (content : list Byte.byte) : str :=
  str_of_int (len content).

(** A [json.loads] that knows the empty object, the empty array, [true]
    and [null], and a [re.findall] that finds nothing. *)
Definition toy_loads (s : str) : option Helpers.Json :=
  if str_eqb s (lit "{}") then Some (Helpers.JObj [])
  else if str_eqb s (lit "[]") then Some (Helpers.JArr [])
  else if str_eqb s (lit "true") then Some (Helpers.JBool true)
  else if str_eqb s (lit "null") then Some Helpers.JNull
  else None.

Definition no_match (pattern : string) (s : str) : list str := [].

(** A reading of the points that raises. The runs of the examples do not
    get to it: they have no client, or a response that is parsed to a false
    value. *)
Definition no_points (parsed : Helpers.Json) (cs : list (Chunk * Q))
  : option LLMAnalysisOutput := None.

End Examples.

(* ================================================================== *)
(** ** app/utils/helpers.py: [clean_text] *)

Module CleanText.

Import Py.

(** [re.sub(r'\s+', ' ', text)]: every run of blanks becomes one space.
    [in_run] tells that the character before was a blank, for which the
    space has been written already. *)
Fixpoint squeeze (in_run : bool) (text : str) : str :=
  match text with
  | [] => []
  | c :: rest =>
      if isspace c
      then if in_run then squeeze true rest else " "%char :: squeeze true rest
      else c :: squeeze false rest
  end.

Definition clean_text (text : str) : str :=
  if negb (truthy text) then []
  else strip (squeeze false text).

End CleanText.

(* ================================================================== *)
(** ** app/services/llm_analyzer.py: the coercion of the enumerations *)

Module Coercion.

Import Py Res Schemas Helpers.

(** The values of the members of [Stance] and [ArgumentCategory]. *)
Definition stance_value (s : Stance) : str :=
  match s with
  | PLAINTIFF => lit "plaintiff"
  | DEFENDANT => lit "defendant"
  | AMICUS => lit "amicus"
  | FOR => lit "for"
  | AGAINST => lit "against"
  | NEUTRAL => lit "neutral"
  | UNKNOWN => lit "unknown"
  end.

Definition category_value (c : ArgumentCategory) : str :=
  match c with
  | STATUTORY => lit "statutory"
  | REGULATORY => lit "regulatory"
  | CONSTITUTIONAL => lit "constitutional"
  | CASE_LAW => lit "case_law"
  | PROCEDURAL => lit "procedural"
  | POLICY => lit "policy"
  | OTHER => lit "other"
  end.

Definition stances : list Stance :=
  [PLAINTIFF; DEFENDANT; AMICUS; FOR; AGAINST; NEUTRAL; UNKNOWN].

Definition categories : list ArgumentCategory :=
  [STATUTORY; REGULATORY; CONSTITUTIONAL; CASE_LAW; PROCEDURAL; POLICY; OTHER].

(** [Stance(value)] and [ArgumentCategory(value)]: the member that has the
    value, or [ValueError]. *)
Definition member_of {E : Type} (members : list E) (value_of : E -> str)
           (value : str) : res E :=
  match List.find (fun e => str_eqb (value_of e) value) members with
  | Some e => Ok e
  | None => Raise (ValueError "not a valid member")
  end.

(** [d.get(key, default)] on the fields of a parsed object. *)
Fixpoint dict_get (fields : list (str * Json)) (key : str) (default : Json)
  : Json :=
  match fields with
  | [] => default
  | (k, v) :: rest => if str_eqb k key then v else dict_get rest key default
  end.

(** [try: c  except ValueError: h] *)
Definition except_ValueError {A : Type} (c : res A) (h : res A) : res A :=
  match c with
  | Raise (ValueError _) => h
  | _ => c
  end.

(** [x.get(key, default)] followed by
    [try: E(x_str.lower())  except ValueError: fallback]; a value that is
    no string has no [lower], which raises [AttributeError]. *)
Definition coerce {E : Type} (members : list E) (value_of : E -> str)
           (fallback : E) (point_data : list (str * Json))
           (key default : str) : res E :=
  match dict_get point_data key (JStr default) with
  | JStr text =>
      except_ValueError (member_of members value_of (lower text)) (Ok fallback)
  | _ => Raise (External "AttributeError")
  end.

Definition coerce_stance (point_data : list (str * Json)) : res Stance :=
  coerce stances stance_value UNKNOWN point_data (lit "stance") (lit "unknown").

Definition coerce_category (point_data : list (str * Json))
  : res ArgumentCategory :=
  coerce categories category_value OTHER point_data
         (lit "category") (lit "other").

End Coercion.

(* ================================================================== *)
(** ** app/utils/validators.py *)

Module Validators.

Import Py Res Embeddings.

(** What the validators read of the uploaded file: its truth value, its
    name (which may be absent), its MIME type and its bytes, [None] when
    the stream cannot be read. *)
Record FileStorage : Type := {
  truth : bool;
  filename : option str;
  mimetype : str;
  stream : option (list Byte.byte)
}.

(** [s.endswith(suffix)] *)
Definition endswith (s suffix : str) : bool :=
  startswith (rev s) (rev suffix).

(** [s.split(sep)] for a separator of one character. *)
Fixpoint split_on (sep : ascii) (s : str) : list str :=
  match s with
  | [] => [[]]
  | c :: rest =>
      if Ascii.eqb c sep then [] :: split_on sep rest
      else
        match split_on sep rest with
        | [] => [[c]]
        | word :: words => (c :: word) :: words
        end
  end.

(** [needle in hay] on bytes. *)
Fixpoint bytes_prefix (needle hay : list Byte.byte) : bool :=
  match needle, hay with
  | [], _ => true
  | _ :: _, [] => false
  | a :: needle', b :: hay' => Byte.eqb a b && bytes_prefix needle' hay'
  end.

Fixpoint bytes_in (needle hay : list Byte.byte) : bool :=
  match hay with
  | [] => bytes_prefix needle []
  | _ :: hay' => bytes_prefix needle hay || bytes_in needle hay'
  end.

(** [b"%PDF"] *)
Definition pdf_magic : list Byte.byte :=
  [Byte.x25; Byte.x50; Byte.x44; Byte.x46].

Definition pdf_mimetypes : list str :=
  [lit "application/pdf"; lit "application/x-pdf"].

(** [validate_pdf]: the verdict and the message, or the exception. *)
Definition validate_pdf (file : FileStorage) : res (bool * str) :=
  if negb (truth file) then Ok (false, lit "No file provided")
  else
    match filename file with
    | None => Raise (External "AttributeError")
    | Some name =>
        if str_eqb name [] then Ok (false, lit "No filename provided")
        else
          let filename := strip (lower name) in
          if negb (endswith filename (lit ".pdf"))
          then Ok (false,
                   lit "Invalid file type. Only PDF files are allowed")
          else if negb (str_eqb (last (split_on "."%char filename) [])
                                (lit "pdf"))
          then Ok (false, lit "Invalid PDF file type")
          else if negb (existsb (str_eqb (mimetype file)) pdf_mimetypes)
          then Ok (false,
                   lit "Invalid MIME type. File does not appear to be a PDF")
          else
            try_except
              (content <- lift "read" (stream file) ;;
               let header := firstn 1024 content in
               if negb (bytes_in pdf_magic header)
               then Ok (false,
                        lit "Invalid PDF file format (missing PDF header)")
               else Ok (true, []))
              (fun _ => Ok (false, lit "Error validating file"))
    end.

Section Size.

(** The text of [f"{max_size / (1024 * 1024):.1f}"]. *)
Variable megabytes : Z -> str.

(** [validate_file_size] *)
Definition validate_file_size (file : FileStorage) (max_size : Z)
  : res (bool * str) :=
  try_except
    (content <- lift "seek" (stream file) ;;
     let size := len content in
     if max_size <? size
     then Ok (false, lit "File size exceeds " ++ megabytes max_size
                         ++ lit "MB limit")
     else if size =? 0 then Ok (false, lit "File is empty")
     else Ok (true, []))
    (fun _ => Ok (false, lit "Error validating file size")).

End Size.

End Validators.

(* ================================================================== *)
(** ** app/blueprints/api/routes.py *)

Module Routes.

Import Py Res Embeddings Validators.

(** What the route answers: [jsonify(result), 200] or
    [jsonify({'error': msg}), status]. *)
Inductive Response (A : Type) : Type :=
| Result (result : A)
| Error (msg : str) (status : Z).

Arguments Result {A} result.
Arguments Error {A} msg status.

Section Analyze.

(** The dict that the pipeline returns. *)
Variable A : Type.

Variable megabytes : Z -> str.

(** [settings.MAX_CONTENT_LENGTH] *)
Variable MAX_CONTENT_LENGTH : Z.

(** [secure_filename] of werkzeug, and the path of the temporary file,
    [os.path.join(settings.UPLOAD_FOLDER, f"{timestamp}_{name}")]. *)
Variable secure_filename : str -> str.
Variable temp_path : str -> str.

(** [file.save(filepath)], [None] when it raises, and
    [AnalysisPipeline(settings).analyze_document(filepath, name)] on the
    file system that the save leaves. *)
Variable save : FileStorage -> str -> option unit.
Variable analyze_document : str -> str -> res A.

(** [str(e)] *)
Variable str_of_exception : PyErr -> str.

(** [analyze]; [files] is [request.files.get('file')]. The removal of the
    temporary file, on both ways out, changes the file system only. *)
Definition analyze (files : option FileStorage) : res (Response A) :=
  match files with
  | None => Ok (Error (lit "No file provided") 400)
  | Some file =>
      checked <- validate_pdf file ;;
      let '(is_valid, error_msg) := checked in
      if negb is_valid then Ok (Error error_msg 400)
      else
        checked <- validate_file_size megabytes file MAX_CONTENT_LENGTH ;;
        let '(is_valid, error_msg) := checked in
        if negb is_valid then Ok (Error error_msg 400)
        else
          name <- lift "secure_filename" (filename file) ;;
          let original_filename := secure_filename name in
          let filepath := temp_path original_filename in
          try_except
            (_ <- lift "FileStorage.save" (save file filepath) ;;
             result <- analyze_document filepath original_filename ;;
             Ok (Result result))
            (fun e => Ok (Error (str_of_exception e) 500))
  end.

End Analyze.

End Routes.

(* ================================================================== *)
(** ** More concrete inputs *)

Module MoreExamples.

Import Py Res PDFProcessor Schemas PostProcessor Examples.

(** A document of four pages: text, a page without a text layer, a blank
    page and text again. *)
Definition mixed_pages : list (option str) :=
  [Some gappy; None; Some (lit "   "); Some (lit "last page")].

(** An upload that passes the checks, and one whose name hides another
    extension. *)
Definition good_upload : Validators.FileStorage :=
  {| Validators.truth := true;
     Validators.filename := Some (lit " Brief.v2.PDF ");
     Validators.mimetype := lit "application/pdf";
     Validators.stream := Some pdf_bytes |}.

Definition disguised_upload : Validators.FileStorage :=
  {| Validators.truth := true;
     Validators.filename := Some (lit "brief.pdf.exe");
     Validators.mimetype := lit "application/pdf";
     Validators.stream := Some pdf_bytes |}.

(** A stand-in for the rendering of the size limit: whole megabytes. *)
Definition whole_megabytes (max_size : Z) : str :=
  str_of_int (max_size / 1048576).

(** The store [loaded_store] after it was initialised anew for the
    document "next", and after two chunks were added. *)
Definition next_empty : VectorStore.Store :=
  {| VectorStore.dimension := 1; VectorStore.m := 32;
     VectorStore.ef_construction := 64;
     VectorStore.index :=
       Some {| toy_dimension := 1; toy_m := 32; toy_efConstruction := 64;
               toy_efSearch := 16; toy_vectors := [] |};
     VectorStore.chunks := [];
     VectorStore.doc_id := Some (lit "next") |}.

Definition next_filled : VectorStore.Store :=
  {| VectorStore.dimension := 1; VectorStore.m := 32;
     VectorStore.ef_construction := 64;
     VectorStore.index :=
       Some {| toy_dimension := 1; toy_m := 32; toy_efConstruction := 64;
               toy_efSearch := 16; toy_vectors := [[25%Q]; [30%Q]] |};
     VectorStore.chunks := [chunk_c; chunk_a];
     VectorStore.doc_id := Some (lit "next") |}.

(** A client that answers with the empty object, which is parsed to a
    value that is false: the points are not read from it. *)
Definition answering (prompt : str) : option str := Some (lit "{}").

(** An upload of no bytes, and a pipeline that counts the characters of
    the name it is given. *)
Definition empty_upload : Validators.FileStorage :=
  {| Validators.truth := true;
     Validators.filename := Some (lit "brief.pdf");
     Validators.mimetype := lit "application/pdf";
     Validators.stream := Some [] |}.

Definition counting_pipeline (filepath name : str) : res Z := Ok (len name).

Definition failing_pipeline (filepath name : str) : res Z :=
  Raise (ValueError "No text extracted from PDF.").

Definition uploads_path (name : str) : str := lit "uploads/1_" ++ name.

Definition saved (file : Validators.FileStorage) (filepath : str)
  : option unit := Some tt.

Definition error_text (e : PyErr) : str :=
  match e with
  | ValueError msg | FileNotFoundError msg | RuntimeError msg
  | Wrapped msg _ | External msg => lit msg
  end.

(** Settings inside the bounds of the configuration whose overlap is the
    chunk size, and a page of 501 characters. *)
Definition tight_settings : Pipeline.Settings :=
  {| Pipeline.CHUNK_SIZE := 500; Pipeline.CHUNK_OVERLAP := 500;
     Pipeline.TOP_K_RETRIEVAL := 60; Pipeline.FINAL_OUTPUT_COUNT := 10;
     Pipeline.FAISS_M := 32; Pipeline.FAISS_EF_CONSTRUCTION := 64;
     Pipeline.FAISS_EF_SEARCH := 64 |}.

Definition page_501 : str := repeat "z"%char 501.

(** Documents without text. *)
Definition blank_pdf (path : str) : option (list (option str)) :=
  Some [None; Some (lit "  ")].

End MoreExamples.

(* ================================================================== *)
(** * Properties *)

(** ** Slices *)

Section SliceFacts.

Import Py.

Context {A : Type}.

Lemma len_nonneg (l : list A) : 0 <= len l.
Proof. unfold len. lia. Qed.

Lemma slice_plain (l : list A) (a b : Z) :
  0 <= a -> a <= b ->
  slice l a b = firstn (Z.to_nat (Z.min b (len l) - Z.min a (len l)))
                       (skipn (Z.to_nat (Z.min a (len l))) l).
Proof.
  intros Ha Hb. unfold slice, slice_bound.
  destruct (Z.ltb_spec a 0); [lia|].
  destruct (Z.ltb_spec b 0); [lia|]. reflexivity.
Qed.

Lemma slice_length (l : list A) (a b : Z) :
  0 <= a -> a <= b ->
  len (slice l a b) = Z.min b (len l) - Z.min a (len l).
Proof.
  intros Ha Hb. rewrite slice_plain by assumption.
  unfold len. rewrite length_firstn, length_skipn.
  pose proof (len_nonneg l) as Hl. unfold len in *. lia.
Qed.

Lemma slice_all (l : list A) (b : Z) : len l <= b -> slice l 0 b = l.
Proof.
  intros Hb. pose proof (len_nonneg l) as Hl.
  rewrite slice_plain by lia.
  replace (Z.min 0 (len l)) with 0 by lia.
  replace (Z.min b (len l)) with (len l) by lia.
  simpl. unfold len. rewrite Z.sub_0_r, Nat2Z.id. apply firstn_all.
Qed.

Lemma slice_prefix (l : list A) (k : Z) :
  0 <= k -> slice l 0 k = firstn (Z.to_nat k) l.
Proof.
  intros Hk. pose proof (len_nonneg l) as Hl.
  rewrite slice_plain by lia.
  replace (Z.min 0 (len l)) with 0 by lia. simpl. rewrite Z.sub_0_r.
  destruct (Z.le_ge_cases k (len l)) as [H|H].
  - now replace (Z.min k (len l)) with k by lia.
  - replace (Z.min k (len l)) with (len l) by lia.
    unfold len in *. rewrite Nat2Z.id.
    rewrite firstn_all. symmetry. apply firstn_all2. lia.
Qed.

End SliceFacts.

(** ** The chunker *)

Module ChunkerFacts.

Import Py Res PDFProcessor.

(** The integers [i, i+1, ..., i+k-1]. *)
Fixpoint count_from (i : Z) (k : nat) : list Z :=
  match k with
  | O => []
  | S k' => i :: count_from (i + 1) k'
  end.

Lemma count_from_app (i : Z) (k : nat) :
  count_from i (S k) = count_from i k ++ [i + Z.of_nat k].
Proof.
  revert i. induction k as [|k IH]; intros i.
  - simpl. now rewrite Z.add_0_r.
  - change (count_from i (S (S k))) with (i :: count_from (i + 1) (S k)).
    rewrite IH. simpl. do 3 f_equal. lia.
Qed.

Lemma count_from_seq (k : nat) : count_from 0 k = map Z.of_nat (seq 0 k).
Proof.
  induction k as [|k IH]; [reflexivity|].
  rewrite count_from_app, seq_S, map_app, IH. reflexivity.
Qed.

Section Chunker.

Variables (chunk_size chunk_overlap : Z).

Let split := split_loop chunk_size chunk_overlap.
Let windows := sliding_windows chunk_size chunk_overlap.

Lemma number_chunks_index ts pn d tp i :
  map (fun c => chunk_index (metadata c)) (number_chunks ts pn d tp i)
  = count_from i (length ts).
Proof.
  revert i. induction ts as [|t ts IH]; intros i; simpl; [reflexivity|].
  now rewrite IH.
Qed.

Lemma number_chunks_text ts pn d tp i :
  map text (number_chunks ts pn d tp i) = map strip ts.
Proof.
  revert i. induction ts as [|t ts IH]; intros i; simpl; [reflexivity|].
  now rewrite IH.
Qed.

Lemma number_chunks_page ts pn d tp i :
  Forall (fun c => page_number (metadata c) = pn) (number_chunks ts pn d tp i).
Proof.
  revert i. induction ts as [|t ts IH]; intros i; simpl; constructor; auto.
Qed.

Lemma number_chunks_length ts pn d tp i :
  length (number_chunks ts pn d tp i) = length ts.
Proof.
  revert i. induction ts as [|t ts IH]; intros i; simpl; auto.
Qed.

Lemma split_loop_S fuel text pn d tp start idx acc :
  split (S fuel) text pn d tp start idx acc
  = if start <? len text then
      let chunk_text := slice text start (start + chunk_size) in
      split fuel text pn d tp
            (if start + chunk_size <? len text
             then start + chunk_size - chunk_overlap
             else start + chunk_size)
            (if truthy (strip chunk_text) then idx + 1 else idx)
            (if truthy (strip chunk_text)
             then acc ++ [make_chunk chunk_text pn d tp idx] else acc)
    else Ok acc.
Proof.
  subst split. simpl.
  destruct (start <? len text); [|reflexivity].
  now destruct (truthy (strip (slice text start (start + chunk_size)))).
Qed.

(** The loop of the source builds the chunks of the windows of the
    specification: one more round of fuel lets it see the end of the
    page. *)
Lemma split_loop_windows fuel text pn d tp :
  forall start idx acc ws,
    windows fuel (len text) start = Ok ws ->
    split (S fuel) text pn d tp start idx acc
    = Ok (acc ++ number_chunks
                   (filter nonblank (map (window_text text) ws)) pn d tp idx).
Proof.
  induction fuel as [|fuel IH]; intros start idx acc ws Hw;
    [discriminate|].
  rewrite split_loop_S. subst windows. simpl in Hw.
  destruct (start <? len text) eqn:Hs.
  2:{ injection Hw as <-. simpl. now rewrite app_nil_r. }
  destruct (start + chunk_size <? len text) eqn:He.
  - destruct (sliding_windows chunk_size chunk_overlap fuel (len text)
                (start + chunk_size - chunk_overlap)) as [ws'| |] eqn:Hrec;
      simpl in Hw; try discriminate.
    injection Hw as <-.
    cbn [map filter]. unfold nonblank at 1.
    change (window_text text (start, start + chunk_size))
      with (slice text start (start + chunk_size)).
    cbv zeta.
    rewrite (IH _ _ _ _ Hrec).
    destruct (truthy (strip (slice text start (start + chunk_size)))).
    + cbn [number_chunks]. now rewrite <- app_assoc.
    + reflexivity.
  - injection Hw as <-.
    cbn [map filter]. unfold nonblank at 1.
    change (window_text text (start, start + chunk_size))
      with (slice text start (start + chunk_size)).
    cbv zeta. rewrite split_loop_S, He.
    destruct (truthy (strip (slice text start (start + chunk_size)))).
    + reflexivity.
    + simpl. now rewrite app_nil_r.
Qed.

(** With [0 <= overlap < chunk_size] every round moves [start] forward, so
    the windows exist as soon as the fuel exceeds what is left of the
    page. *)
Lemma windows_total :
  0 <= chunk_overlap < chunk_size ->
  forall fuel n start,
    n - start <= Z.of_nat fuel ->
    exists ws, windows (S fuel) n start = Ok ws.
Proof.
  intros Hpre. subst windows.
  induction fuel as [|fuel IH]; intros n start Hf.
  - simpl. destruct (Z.ltb_spec start n); [lia|eauto].
  - remember (S fuel) as f. simpl. subst f.
    destruct (start <? n) eqn:Hs; [|eauto].
    destruct (start + chunk_size <? n) eqn:He; [|eauto].
    destruct (IH n (start + chunk_size - chunk_overlap)) as [ws Hws]; [lia|].
    rewrite Hws. simpl. eauto.
Qed.

(** More fuel does not change a result. *)
Lemma windows_fuel_mono fuel n start ws :
  windows fuel n start = Ok ws -> windows (S fuel) n start = Ok ws.
Proof.
  subst windows. revert start ws.
  induction fuel as [|fuel IH]; intros start ws H; [discriminate|].
  remember (S fuel) as f. simpl. subst f.
  simpl in H.
  destruct (start <? n); [|assumption].
  destruct (start + chunk_size <? n); [|assumption].
  destruct (sliding_windows chunk_size chunk_overlap fuel n
              (start + chunk_size - chunk_overlap)) as [ws'| |] eqn:Hrec;
    simpl in H; try discriminate.
  now rewrite (IH _ _ Hrec).
Qed.

(** The shape of the windows: each is [chunk_size] wide and starts inside
    the page, the next one starts [chunk_overlap] before the end of the
    previous one, and only the last one reaches the end of the page. *)
Inductive chained (n : Z) : Z -> list (Z * Z) -> Prop :=
| chained_none start :
    n <= start -> chained n start []
| chained_last start :
    start < n -> n <= start + chunk_size ->
    chained n start [(start, start + chunk_size)]
| chained_next start ws :
    start < n -> start + chunk_size < n ->
    chained n (start + chunk_size - chunk_overlap) ws ->
    chained n start ((start, start + chunk_size) :: ws).

Lemma windows_chained fuel n :
  forall start ws, windows fuel n start = Ok ws -> chained n start ws.
Proof.
  subst windows.
  induction fuel as [|fuel IH]; intros start ws H; [discriminate|].
  simpl in H.
  destruct (Z.ltb_spec start n) as [Hs|Hs].
  2:{ injection H as <-. now constructor. }
  destruct (Z.ltb_spec (start + chunk_size) n) as [He|He].
  - destruct (sliding_windows chunk_size chunk_overlap fuel n
                (start + chunk_size - chunk_overlap)) as [ws'| |] eqn:Hrec;
      simpl in H; try discriminate.
    injection H as <-. constructor; auto.
  - injection H as <-. now constructor.
Qed.

(** Whatever the parameters, a run of the loop that returns has numbered
    its chunks 0, 1, 2, ... *)
Lemma split_loop_contiguous fuel text pn d tp :
  forall start idx acc chunks,
    split fuel text pn d tp start idx acc = Ok chunks ->
    idx = len acc ->
    map (fun c => chunk_index (metadata c)) acc = count_from 0 (length acc) ->
    map (fun c => chunk_index (metadata c)) chunks
    = count_from 0 (length chunks).
Proof.
  induction fuel as [|fuel IH]; intros start idx acc chunks H Hidx Hacc;
    [discriminate|].
  rewrite split_loop_S in H.
  destruct (start <? len text).
  2:{ now injection H as <-. }
  cbv zeta in H.
  destruct (truthy (strip (slice text start (start + chunk_size)))).
  - apply IH in H; auto.
    + unfold len. rewrite length_app. simpl. unfold len in Hidx. lia.
    + rewrite map_app, length_app, Hacc. simpl.
      rewrite Nat.add_1_r, count_from_app. simpl.
      unfold len in Hidx. now rewrite Hidx.
  - apply IH in H; auto.
Qed.

(** The bound on the overlap is needed: with an overlap equal to the chunk
    size the loop stays on a window that ends inside the page, whatever the
    fuel. *)
Lemma split_loop_stuck fuel text pn d tp :
  chunk_overlap = chunk_size ->
  forall start idx acc,
    start < len text -> start + chunk_size < len text ->
    split fuel text pn d tp start idx acc = OutOfFuel.
Proof.
  intros Heq. induction fuel as [|fuel IH]; intros start idx acc Hs He;
    [reflexivity|].
  rewrite split_loop_S.
  destruct (Z.ltb_spec start (len text)); [|lia].
  destruct (Z.ltb_spec (start + chunk_size) (len text)); [|lia].
  cbv zeta. apply IH; lia.
Qed.

Lemma windows_fuel_le fuel fuel' n start ws :
  (fuel <= fuel')%nat ->
  windows fuel n start = Ok ws -> windows fuel' n start = Ok ws.
Proof.
  intros Hle H. induction Hle; [assumption|].
  now apply windows_fuel_mono.
Qed.

(** The whole of [_split_text_with_page], for any fuel that lets the
    windows be laid out. *)
Lemma split_text_windows fuel fuel' text pn d tp ws :
  windows fuel (len text) 0 = Ok ws ->
  (S fuel <= fuel')%nat ->
  _split_text_with_page chunk_size chunk_overlap fuel' text pn d tp
  = Ok (number_chunks (filter nonblank (map (window_text text) ws))
                      pn d tp 0).
Proof.
  intros Hw Hle. destruct fuel' as [|f]; [lia|].
  unfold _split_text_with_page.
  apply (windows_fuel_le fuel f) in Hw; [|lia].
  apply (split_loop_windows f text pn d tp 0 0 []) in Hw.
  exact Hw.
Qed.

End Chunker.

End ChunkerFacts.

(** ** Claims on the chunker *)

Module ChunkerClaims.

Import Py Res PDFProcessor ChunkerFacts Examples.

(** C4. The chunker lays a window of [chunk_size] characters over the page;
    each next window starts at the end of the previous one minus the
    overlap, and the window that reaches the end of the page is the last
    (it holds the remainder). The chunks returned are the non-blank windows
    in order. For a page of 3000 characters, with a chunk size of 1500 and
    an overlap of 200, the windows start at 0, 1300 and 2600, the last one
    holds 400 characters, and three non-blank windows give exactly three
    chunks; a non-blank page of 500 characters gives exactly one chunk,
    the whole page. *)
Theorem sliding_window_chunks :
  (forall chunk_size chunk_overlap text pn d tp fuel,
      0 <= chunk_overlap < chunk_size ->
      (length text + 2 <= fuel)%nat ->
      exists ws,
        sliding_windows chunk_size chunk_overlap fuel (len text) 0 = Ok ws
        /\ chained chunk_size chunk_overlap (len text) 0 ws
        /\ _split_text_with_page chunk_size chunk_overlap fuel text pn d tp
           = Ok (number_chunks (filter nonblank (map (window_text text) ws))
                               pn d tp 0))
  /\ (forall text pn d tp fuel,
         len text = 3000 ->
         (4 <= fuel)%nat ->
         let w0 := slice text 0 1500 in
         let w1 := slice text 1300 2800 in
         let w2 := slice text 2600 4100 in
         sliding_windows 1500 200 fuel (len text) 0
         = Ok [(0, 1500); (1300, 2800); (2600, 4100)]
         /\ len w0 = 1500 /\ len w1 = 1500 /\ len w2 = 400
         /\ (nonblank w0 = true -> nonblank w1 = true -> nonblank w2 = true ->
             _split_text_with_page 1500 200 fuel text pn d tp
             = Ok [make_chunk w0 pn d tp 0; make_chunk w1 pn d tp 1;
                   make_chunk w2 pn d tp 2]))
  /\ (forall text pn d tp fuel,
         len text = 500 ->
         (2 <= fuel)%nat ->
         nonblank text = true ->
         _split_text_with_page 1500 200 fuel text pn d tp
         = Ok [make_chunk text pn d tp 0]).
Proof.
  split; [|split].
  - intros cs ov text pn d tp fuel Hpre Hfuel.
    destruct (windows_total cs ov Hpre (length text) (len text) 0)
      as [ws Hws]; [unfold len; lia|].
    exists ws. split; [|split].
    + apply (windows_fuel_le cs ov (S (length text))); [lia|exact Hws].
    + eapply windows_chained; exact Hws.
    + apply (split_text_windows cs ov (S (length text))); [exact Hws|lia].
  - intros text pn d tp fuel Hlen Hfuel w0 w1 w2.
    assert (Hw : sliding_windows 1500 200 3 (len text) 0
                 = Ok [(0, 1500); (1300, 2800); (2600, 4100)])
      by (rewrite Hlen; reflexivity).
    split; [|split; [|split; [|split]]].
    + apply (windows_fuel_le 1500 200 3); [lia|exact Hw].
    + subst w0. rewrite slice_length by lia. lia.
    + subst w1. rewrite slice_length by lia. lia.
    + subst w2. rewrite slice_length by lia. lia.
    + intros H0 H1 H2.
      rewrite (split_text_windows 1500 200 3 fuel text pn d tp _ Hw)
        by lia.
      cbn [map filter]. unfold window_text; cbn [fst snd].
      fold w0 w1 w2. now rewrite H0, H1, H2.
  - intros text pn d tp fuel Hlen Hfuel Hnb.
    assert (Hw : sliding_windows 1500 200 1 (len text) 0 = Ok [(0, 1500)])
      by (rewrite Hlen; reflexivity).
    rewrite (split_text_windows 1500 200 1 fuel text pn d tp _ Hw) by lia.
    cbn [map filter]. unfold window_text; cbn [fst snd].
    rewrite slice_all by lia. now rewrite Hnb.
Qed.

Lemma sliding_window_chunks_witness :
  (0 <= 1 < 4
   /\ exists ws,
        sliding_windows 4 1 17 (len gappy) 0 = Ok ws
        /\ chained 4 1 (len gappy) 0 ws
        /\ _split_text_with_page 4 1 17 gappy 1 (lit "d0c") 1
           = Ok (number_chunks (filter nonblank (map (window_text gappy) ws))
                               1 (lit "d0c") 1 0))
  /\ (len page_3000 = 3000
      /\ sliding_windows 1500 200 4 (len page_3000) 0
         = Ok [(0, 1500); (1300, 2800); (2600, 4100)]
      /\ len (slice page_3000 2600 4100) = 400
      /\ _split_text_with_page 1500 200 4 page_3000 1 (lit "d0c") 2
         = Ok [make_chunk (slice page_3000 0 1500) 1 (lit "d0c") 2 0;
               make_chunk (slice page_3000 1300 2800) 1 (lit "d0c") 2 1;
               make_chunk (slice page_3000 2600 4100) 1 (lit "d0c") 2 2])
  /\ (len page_500 = 500
      /\ nonblank page_500 = true
      /\ _split_text_with_page 1500 200 2 page_500 2 (lit "d0c") 2
         = Ok [make_chunk page_500 2 (lit "d0c") 2 0]).
Proof.
  destruct sliding_window_chunks as (Hgen & Hbig & Hsmall).
  split; [|split].
  - split; [lia|].
    apply (Hgen 4 1 gappy 1 (lit "d0c") 1 17%nat); [lia|].
    vm_compute. lia.
  - assert (Hlen : len page_3000 = 3000) by (vm_compute; reflexivity).
    destruct (Hbig page_3000 1 (lit "d0c") 2 4%nat Hlen (le_n 4))
      as (Hw & _ & _ & Hl & Hrun).
    split; [exact Hlen|]. split; [exact Hw|]. split; [exact Hl|].
    apply Hrun; vm_compute; reflexivity.
  - assert (Hlen : len page_500 = 500) by (vm_compute; reflexivity).
    assert (Hnb : nonblank page_500 = true) by (vm_compute; reflexivity).
    split; [exact Hlen|]. split; [exact Hnb|].
    apply (Hsmall page_500 2 (lit "d0c") 2 2%nat Hlen (le_n 2) Hnb).
Defined.

(** C7. Within a page the chunks are numbered 0, 1, 2, ... without a gap:
    the chunks are the non-blank windows, in order, each numbered by its
    position among them, so a blank window takes no number. Whatever the
    parameters, a run that returns has numbered its chunks this way, and
    with [0 <= overlap < chunk_size] the run does return. *)
Theorem chunk_index_contiguous chunk_size chunk_overlap text pn d tp :
  (forall fuel chunks,
      _split_text_with_page chunk_size chunk_overlap fuel text pn d tp
      = Ok chunks ->
      map (fun c => chunk_index (metadata c)) chunks
      = map Z.of_nat (seq 0 (length chunks)))
  /\ (0 <= chunk_overlap < chunk_size ->
      exists ws chunks,
        (forall fuel,
            (length text + 2 <= fuel)%nat ->
            sliding_windows chunk_size chunk_overlap fuel (len text) 0 = Ok ws
            /\ _split_text_with_page chunk_size chunk_overlap fuel
                                     text pn d tp = Ok chunks)
        /\ map PDFProcessor.text chunks
           = map strip (filter nonblank (map (window_text text) ws))
        /\ map (fun c => chunk_index (metadata c)) chunks
           = map Z.of_nat (seq 0 (length chunks))
        /\ Forall (fun c => page_number (metadata c) = pn) chunks).
Proof.
  split.
  - intros fuel chunks H. rewrite <- count_from_seq.
    eapply split_loop_contiguous; [exact H|reflexivity|reflexivity].
  - intros Hpre.
    destruct (windows_total chunk_size chunk_overlap Hpre
                            (length text) (len text) 0)
      as [ws Hws]; [unfold len; lia|].
    exists ws.
    exists (number_chunks (filter nonblank (map (window_text text) ws))
                          pn d tp 0).
    split; [|split; [|split]].
    + intros fuel Hfuel. split.
      * apply (windows_fuel_le chunk_size chunk_overlap (S (length text)));
          [lia|exact Hws].
      * apply (split_text_windows chunk_size chunk_overlap (S (length text)));
          [exact Hws|lia].
    + apply number_chunks_text.
    + rewrite number_chunks_index, number_chunks_length.
      apply count_from_seq.
    + apply number_chunks_page.
Qed.

Lemma chunk_index_contiguous_witness :
  0 <= 1 < 4
  /\ (exists chunks,
         _split_text_with_page 4 1 17 gappy 1 (lit "d0c") 1 = Ok chunks
         /\ map (fun c => chunk_index (metadata c)) chunks = [0; 1; 2]
         /\ map text chunks = [lit "ab"; lit "cd"; lit "d e"])
  /\ exists ws chunks,
       (forall fuel,
           (length gappy + 2 <= fuel)%nat ->
           sliding_windows 4 1 fuel (len gappy) 0 = Ok ws
           /\ _split_text_with_page 4 1 fuel gappy 1 (lit "d0c") 1 = Ok chunks)
       /\ map text chunks
          = map strip (filter nonblank (map (window_text gappy) ws))
       /\ map (fun c => chunk_index (metadata c)) chunks
          = map Z.of_nat (seq 0 (length chunks))
       /\ Forall (fun c => page_number (metadata c) = 1) chunks.
Proof.
  destruct (chunk_index_contiguous 4 1 gappy 1 (lit "d0c") 1)
    as (Hpartial & Htotal).
  split; [lia|]. split.
  - eexists. split; [vm_compute; reflexivity|].
    split; [|vm_compute; reflexivity].
    match goal with
    | |- map _ ?chunks = _ =>
        rewrite (Hpartial 17%nat chunks) by (vm_compute; reflexivity)
    end.
    reflexivity.
  - apply Htotal. lia.
Defined.

End ChunkerClaims.

(** ** The reconciler and ranker *)

Module RankerFacts.

Import Py Res PDFProcessor Schemas PostProcessor ChunkerFacts.

Lemma Qltb_lt (a b : Q) : Qltb a b = true <-> (a < b)%Q.
Proof.
  unfold Qltb. rewrite Qlt_alt.
  destruct (a ?= b)%Q; split; intros H; congruence.
Qed.

Lemma Qltb_ge (a b : Q) : Qltb a b = false <-> (b <= a)%Q.
Proof.
  split; intros H.
  - apply Qnot_lt_le. intros Hlt. apply Qltb_lt in Hlt. congruence.
  - destruct (Qltb a b) eqn:E; [|reflexivity].
    apply Qltb_lt in E. exfalso. exact (Qle_not_lt _ _ H E).
Qed.

Section Matching.

Variable token_set_ratio : str -> str -> Q.

Definition score_of (quote : str) (c : Chunk) : Q :=
  (token_set_ratio (lower quote) (lower (text c)) / 100)%Q.

(** What the scan over the candidates leaves: a score that no candidate
    beats, carried either by the initial pair or by one of the
    candidates. *)
Lemma fold_best quote cands :
  forall acc,
    let r := fold_left (best_step token_set_ratio quote) cands acc in
    (snd acc <= snd r)%Q
    /\ (forall c, In c cands -> (score_of quote c <= snd r)%Q)
    /\ (r = acc
        \/ exists c, In c cands /\ fst r = Some c
                     /\ snd r = score_of quote c
                     /\ (snd acc < score_of quote c)%Q).
Proof.
  induction cands as [|c cands IH]; intros acc; cbn zeta.
  - simpl. split; [apply Qle_refl|]. split; [intros c []|now left].
  - cbn [fold_left].
    specialize (IH (best_step token_set_ratio quote acc c)).
    cbn zeta in IH. destruct IH as (Hle & Hall & Hwho).
    set (r := fold_left (best_step token_set_ratio quote) cands
                        (best_step token_set_ratio quote acc c)) in *.
    unfold best_step in Hle, Hwho. fold (score_of quote c) in Hle, Hwho.
    destruct (Qltb (snd acc) (score_of quote c)) eqn:Hlt.
    + apply Qltb_lt in Hlt. cbn [fst snd] in Hle, Hwho.
      split; [|split].
      * apply Qle_trans with (score_of quote c); [now apply Qlt_le_weak|assumption].
      * intros c' [<-|Hin]; [assumption|now apply Hall].
      * right. destruct Hwho as [Hr|(c' & Hin & Hf & Hs & Hgt)].
        -- exists c. rewrite Hr. cbn [fst snd].
           repeat split; auto. now left.
        -- exists c'. repeat split; auto; [now right|].
           apply Qlt_trans with (score_of quote c); assumption.
    + apply Qltb_ge in Hlt.
      split; [assumption|split].
      * intros c' [<-|Hin]; [|now apply Hall].
        apply Qle_trans with (snd acc); assumption.
      * destruct Hwho as [Hr|(c' & Hin & Hf & Hs & Hgt)]; [now left|].
        right. exists c'. repeat split; auto. now right.
Qed.

(** The match confidence is never negative: the scan starts at 0 and only
    ever raises the score. *)
Lemma match_confidence_nonneg quote chunks page :
  (0 <= snd (_find_best_matching_chunk token_set_ratio quote chunks page))%Q.
Proof.
  unfold _find_best_matching_chunk.
  destruct (negb (truthy quote) || negb (truthy chunks));
    [apply Qle_refl|].
  match goal with
  | |- (0 <= snd (fold_left _ ?cs ?a))%Q =>
      exact (proj1 (fold_best quote cs a))
  end.
Qed.

(** The chunk found is one of the chunks given. *)
Lemma best_chunk_in quote chunks page c s :
  _find_best_matching_chunk token_set_ratio quote chunks page = (Some c, s) ->
  In c chunks.
Proof.
  unfold _find_best_matching_chunk.
  destruct (negb (truthy quote) || negb (truthy chunks)); [discriminate|].
  match goal with
  | |- fold_left _ ?cs ?a = _ -> _ =>
      intros H; destruct (proj2 (proj2 (fold_best quote cs a)))
        as [Hr|(c' & Hin & Hf & _)];
      [rewrite H in Hr; discriminate|];
      rewrite H in Hf; injection Hf as <-; revert Hin
  end.
  destruct page as [p|]; auto.
  destruct (p =? 0); auto.
  destruct (truthy (filter _ chunks)); auto.
  intros Hin. apply filter_In in Hin. tauto.
Qed.

Lemma Qplus_nonneg (a b : Q) : (0 <= a)%Q -> (0 <= b)%Q -> (0 <= a + b)%Q.
Proof.
  intros Ha Hb. rewrite <- (Qplus_0_l 0). now apply Qplus_le_compat.
Qed.

(** *** One round of the loop *)

Definition fused (p : ExtractedPoint) (chunks : list Chunk) : Q :=
  ((1 # 2) * float_or (Some (importance_score p)) (1 # 2)
   + (3 # 10) * float_or (retrieval_score p) (1 # 2)
   + (2 # 10) * snd (match_of token_set_ratio p chunks))%Q.

Definition relocated (p : ExtractedPoint) (chunks : list Chunk)
  : ExtractedPoint :=
  match fst (match_of token_set_ratio p chunks) with
  | Some c => set_page_start p (Some (page_number (metadata c)))
  | None => p
  end.

Lemma process_point_inv p chunks p' fp :
  process_point token_set_ratio p chunks = Ok (p', fp) ->
  p' = relocated p chunks
  /\ final_rank fp = 1
  /\ summary (point fp) = summary p
  /\ supporting_quote (point fp) = Some (quote_of p)
  /\ page_start (point fp) = page_start p'
  /\ importance_score (point fp)
     = float_or (Some (importance_score p)) (1 # 2)
  /\ retrieval_score (point fp)
     = Some (float_or (retrieval_score p) (1 # 2))
  /\ combined_score (point fp) = Some (fused p chunks).
Proof.
  unfold process_point, relocated, fused.
  destruct (match_of token_set_ratio p chunks) as [best conf].
  unfold new_FinalKeyPoint.
  match goal with |- context [valid_final ?x] => destruct (valid_final x) end;
    [|discriminate].
  cbn [bind fst snd]. intros H. injection H as <- <-.
  cbn [point final_rank summary supporting_quote page_start
       importance_score retrieval_score combined_score].
  destruct best; repeat split; reflexivity.
Qed.

Lemma float_or_range x :
  (0 <= x)%Q -> (x <= 1)%Q ->
  (0 <= float_or (Some x) (1 # 2))%Q /\ (float_or (Some x) (1 # 2) <= 1)%Q.
Proof.
  intros H0 H1. unfold float_or.
  destruct (Qeq_bool x 0); [|now split].
  split; unfold Qle; simpl; lia.
Qed.

Lemma float_or_nonneg x :
  opt_holds (fun q => Qle_bool 0 q) x = true ->
  (0 <= float_or x (1 # 2))%Q.
Proof.
  unfold float_or. destruct x as [v|]; simpl.
  - intros H. apply Qle_bool_iff in H.
    destruct (Qeq_bool v 0); [unfold Qle; simpl; lia|assumption].
  - intros _. unfold Qle; simpl; lia.
Qed.

Definition pages_positive (chunks : list Chunk) : Prop :=
  Forall (fun c => 1 <= page_number (metadata c)) chunks.

(** A valid point and chunks on pages numbered from 1 pass the validation
    of [FinalKeyPoint]: the round returns. *)
Lemma process_point_total p chunks :
  valid_point p = true ->
  pages_positive chunks ->
  exists p' fp, process_point token_set_ratio p chunks = Ok (p', fp).
Proof.
  intros Hv Hpages. unfold process_point.
  pose proof (match_confidence_nonneg (quote_of p) chunks (page_start p))
    as Hconf.
  fold (match_of token_set_ratio p chunks) in Hconf.
  pose proof (fun c s => best_chunk_in (quote_of p) chunks (page_start p) c s)
    as Hin.
  fold (match_of token_set_ratio p chunks) in Hin.
  destruct (match_of token_set_ratio p chunks) as [best conf].
  cbn [snd] in Hconf.
  unfold valid_point in Hv.
  repeat (apply andb_true_iff in Hv; destruct Hv as [Hv ?]).
  match goal with H : Qle_bool 0 (importance_score p) = true |- _ =>
    apply Qle_bool_iff in H; rename H into Hi0 end.
  match goal with H : Qle_bool (importance_score p) 1 = true |- _ =>
    apply Qle_bool_iff in H; rename H into Hi1 end.
  destruct (float_or_range _ Hi0 Hi1) as [He0 He1].
  match goal with H : opt_holds _ (retrieval_score p) = true |- _ =>
    apply float_or_nonneg in H; rename H into Hr end.
  assert (Hvalid :
    forall q ps,
      opt_holds (fun n => 1 <=? n) ps = true ->
      valid_final
        {| point :=
             {| summary := summary p; importance := importance p;
                importance_score := float_or (Some (importance_score p)) (1 # 2);
                stance := stance p; supporting_quote := Some q;
                legal_concepts := legal_concepts p;
                page_start := ps; page_end := page_end p;
                line_start := line_start p; line_end := line_end p;
                category := category p;
                retrieval_score := Some (float_or (retrieval_score p) (1 # 2));
                combined_score :=
                  Some ((1 # 2) * float_or (Some (importance_score p)) (1 # 2)
                        + (3 # 10) * float_or (retrieval_score p) (1 # 2)
                        + (2 # 10) * conf)%Q |};
           final_rank := 1 |} = true).
  { intros q ps Hps. unfold valid_final, valid_point.
    cbn [point final_rank summary importance_score page_start page_end
         retrieval_score combined_score opt_holds].
    repeat (apply andb_true_iff; split); auto.
    - now apply Qle_bool_iff.
    - now apply Qle_bool_iff.
    - now apply Qle_bool_iff.
    - apply Qle_bool_iff.
      repeat apply Qplus_nonneg; apply Qmult_le_0_compat; auto;
        discriminate. }
  unfold new_FinalKeyPoint.
  destruct best as [c|].
  - cbn [set_page_start summary importance stance legal_concepts page_start
         page_end line_start line_end category].
    rewrite Hvalid.
    + cbn [bind]. eauto.
    + simpl. apply Z.leb_le.
      specialize (Hin c conf eq_refl).
      unfold pages_positive in Hpages. rewrite Forall_forall in Hpages.
      now apply Hpages.
  - rewrite Hvalid by assumption. cbn [bind]. eauto.
Qed.

(** *** The loop over the points *)

Lemma process_points_inv points chunks :
  forall ps' fps,
    process_points token_set_ratio points chunks = Ok (ps', fps) ->
    Forall2 (fun p fp =>
               exists p', process_point token_set_ratio p chunks = Ok (p', fp))
            points fps
    /\ ps' = map (fun p => relocated p chunks) points.
Proof.
  induction points as [|p rest IH]; intros ps' fps H.
  - injection H as <- <-. simpl. split; [constructor|reflexivity].
  - cbn [process_points] in H.
    destruct (process_point token_set_ratio p chunks) as [[p1 f1]| |] eqn:Hp;
      cbn [bind] in H; try discriminate.
    destruct (process_points token_set_ratio rest chunks) as [[ps1 fs1]| |]
      eqn:Hr; cbn [bind fst snd] in H; try discriminate.
    injection H as <- <-.
    destruct (IH _ _ eq_refl) as (HF & ->).
    split.
    + constructor; eauto.
    + simpl. f_equal. now apply process_point_inv in Hp.
Qed.

Lemma process_points_total points chunks :
  Forall (fun p => valid_point p = true) points ->
  pages_positive chunks ->
  exists ps' fps, process_points token_set_ratio points chunks = Ok (ps', fps).
Proof.
  intros Hv Hpages. induction Hv as [|p rest Hp _ IH].
  - simpl. eauto.
  - cbn [process_points].
    destruct (process_point_total p chunks Hp Hpages) as (p' & fp & ->).
    destruct IH as (ps' & fps & ->). cbn [bind fst snd]. eauto.
Qed.

End Matching.

(** *** The stable descending sort *)

Definition desc (a b : FinalKeyPoint) : Prop := (sort_key b <= sort_key a)%Q.

Definition keyeq (s : Q) (x : FinalKeyPoint) : bool := Qeq_bool (sort_key x) s.

Lemma desc_trans a b c : desc a b -> desc b c -> desc a c.
Proof. unfold desc. intros H1 H2. eapply Qle_trans; eassumption. Qed.

Lemma insert_desc_perm x l : Permutation (insert_desc x l) (x :: l).
Proof.
  induction l as [|y l IH]; simpl; [reflexivity|].
  destruct (Qltb (sort_key x) (sort_key y)); [|reflexivity].
  rewrite IH. apply perm_swap.
Qed.

Lemma sort_desc_perm l : Permutation (sort_desc l) l.
Proof.
  induction l as [|x l IH]; simpl; [reflexivity|].
  rewrite insert_desc_perm. now constructor.
Qed.

Lemma insert_desc_sorted x l : Sorted desc l -> Sorted desc (insert_desc x l).
Proof.
  induction l as [|y l IH]; intros Hs; simpl.
  - repeat constructor.
  - destruct (Qltb (sort_key x) (sort_key y)) eqn:E.
    + inversion Hs as [|? ? Hs' Hhd]; subst.
      constructor; [now apply IH|].
      destruct l as [|z l]; simpl.
      * constructor. apply Qltb_lt in E. now apply Qlt_le_weak.
      * destruct (Qltb (sort_key x) (sort_key z)).
        -- constructor. now inversion Hhd.
        -- constructor. apply Qltb_lt in E. now apply Qlt_le_weak.
    + constructor; [assumption|]. constructor. now apply Qltb_ge in E.
Qed.

Lemma sort_desc_sorted l : StronglySorted desc (sort_desc l).
Proof.
  apply Sorted_StronglySorted; [exact desc_trans|].
  induction l as [|x l IH]; simpl; [constructor|now apply insert_desc_sorted].
Qed.

Lemma insert_desc_filter s x l :
  filter (keyeq s) (insert_desc x l)
  = if keyeq s x then x :: filter (keyeq s) l else filter (keyeq s) l.
Proof.
  induction l as [|y l IH]; simpl; [reflexivity|].
  destruct (Qltb (sort_key x) (sort_key y)) eqn:E; [|reflexivity].
  simpl. rewrite IH.
  destruct (keyeq s x) eqn:Ex; [|reflexivity].
  destruct (keyeq s y) eqn:Ey; [|reflexivity].
  exfalso. unfold keyeq in Ex, Ey.
  apply Qeq_bool_iff in Ex, Ey. apply Qltb_lt in E.
  rewrite Ex, Ey in E. exact (Qlt_irrefl _ E).
Qed.

(** Stability: the points with any one score come out in the order they
    went in. *)
Lemma sort_desc_stable s l :
  filter (keyeq s) (sort_desc l) = filter (keyeq s) l.
Proof.
  induction l as [|x l IH]; simpl; [reflexivity|].
  rewrite insert_desc_filter, IH. reflexivity.
Qed.

Lemma assign_ranks_length i l : length (assign_ranks i l) = length l.
Proof. revert i. induction l; intros i; simpl; auto. Qed.

Lemma assign_ranks_point i l : map point (assign_ranks i l) = map point l.
Proof. revert i. induction l; intros i; simpl; [|rewrite IHl]; auto. Qed.

Lemma assign_ranks_rank i l :
  map final_rank (assign_ranks i l) = count_from i (length l).
Proof. revert i. induction l; intros i; simpl; [|rewrite IHl]; auto. Qed.

Lemma assign_ranks_filter s i l :
  map point (filter (keyeq s) (assign_ranks i l))
  = map point (filter (keyeq s) l).
Proof.
  revert i. induction l as [|x l IH]; intros i; simpl; [reflexivity|].
  change (keyeq s (set_final_rank x i)) with (keyeq s x).
  destruct (keyeq s x); simpl; now rewrite IH.
Qed.

Lemma assign_ranks_sorted i l :
  StronglySorted desc l -> StronglySorted desc (assign_ranks i l).
Proof.
  intros H. revert i. induction H as [|x l Hs IH Hall]; intros i; simpl.
  - constructor.
  - constructor; [apply IH|].
    rewrite Forall_forall in *. intros y Hy.
    apply (in_map point) in Hy. rewrite assign_ranks_point in Hy.
    apply in_map_iff in Hy. destruct Hy as (z & Hz & Hin).
    specialize (Hall z Hin). unfold desc, sort_key in *. cbn [point set_final_rank].
    now rewrite <- Hz.
Qed.

Lemma in_firstn {A : Type} n (l : list A) x : In x (firstn n l) -> In x l.
Proof.
  intros H. rewrite <- (firstn_skipn n l). apply in_or_app. now left.
Qed.

Lemma in_skipn {A : Type} n (l : list A) x : In x (skipn n l) -> In x l.
Proof.
  intros H. rewrite <- (firstn_skipn n l). apply in_or_app. now right.
Qed.

Lemma firstn_sorted n l :
  StronglySorted desc l -> StronglySorted desc (firstn n l).
Proof.
  intros H. revert n. induction H as [|x l Hs IH Hall]; intros [|n]; simpl;
    try constructor; auto.
  rewrite Forall_forall in *. intros y Hy. apply Hall.
  eapply in_firstn; eassumption.
Qed.

Lemma sorted_split n l :
  StronglySorted desc l ->
  forall a d, In a (firstn n l) -> In d (skipn n l) -> desc a d.
Proof.
  intros H. revert n. induction H as [|x l Hs IH Hall]; intros [|n] a d Ha Hd;
    simpl in *; try contradiction.
  destruct Ha as [<-|Ha].
  - rewrite Forall_forall in Hall. apply Hall. eapply in_skipn; eassumption.
  - eapply IH; eassumption.
Qed.

End RankerFacts.

(** ** Claims on the reconciler and ranker *)

Module RankerClaims.

Import Py Res PDFProcessor Schemas PostProcessor ChunkerFacts RankerFacts.
Import Examples.

Lemma in_slice {A : Type} (l : list A) a b x : In x (slice l a b) -> In x l.
Proof.
  unfold slice. intros H. apply in_firstn in H. now apply in_skipn in H.
Qed.

Lemma Forall2_in_r {A B : Type} (R : A -> B -> Prop) l l' y :
  Forall2 R l l' -> In y l' -> exists x, In x l /\ R x y.
Proof.
  induction 1 as [|x y' l l' Hxy _ IH]; intros Hin; [contradiction|].
  destruct Hin as [<-|Hin].
  - exists x. split; [now left|assumption].
  - destruct (IH Hin) as (x' & Hx' & HR). exists x'. split; [now right|assumption].
Qed.

Lemma filter_firstn_prefix {A : Type} (f : A -> bool) n l :
  exists rest, filter f (firstn n l) ++ rest = filter f l.
Proof.
  exists (filter f (skipn n l)).
  now rewrite <- filter_app, firstn_skipn.
Qed.

(** The returned list in terms of the scored points [staged], for a
    non-negative [top_k]. *)
Lemma process_and_rank_staged ratio top_k points chunks points' staged :
  0 <= top_k ->
  process_points ratio points chunks = Ok (points', staged) ->
  process_and_rank ratio top_k points chunks
  = Ok (points', assign_ranks 1 (firstn (Z.to_nat top_k) (sort_desc staged))).
Proof.
  intros Hk Hp. unfold process_and_rank. rewrite Hp. cbn [bind fst snd].
  now rewrite slice_prefix.
Qed.

Lemma percent_le (x : Q) : (x <= 100 -> x / 100 <= 1)%Q.
Proof. intros H. apply Qle_shift_div_r; [reflexivity|]. lra. Qed.

Lemma percent_full (x : Q) : (x / 100 == 1 <-> x == 100)%Q.
Proof.
  split; intros H.
  - rewrite <- (Qmult_div_r x 100) by discriminate. rewrite H. reflexivity.
  - rewrite H. reflexivity.
Qed.

(** The pool of candidates is the whole list when the reported page holds
    no chunk. *)
Lemma pool_falls_back ratio quote chunks wrong :
  quote <> [] -> chunks <> [] ->
  (forall c, In c chunks -> page_number (metadata c) <> wrong) ->
  _find_best_matching_chunk ratio quote chunks (Some wrong)
  = fold_left (best_step ratio quote) chunks (None, 0%Q).
Proof.
  intros Hq Hc Hnone. unfold _find_best_matching_chunk.
  destruct quote; [contradiction|]. destruct chunks as [|c0 cs]; [contradiction|].
  cbn [truthy negb orb].
  destruct (wrong =? 0); [reflexivity|].
  replace (filter (fun c => page_number (metadata c) =? wrong) (c0 :: cs))
    with (@nil Chunk); [reflexivity|].
  symmetry. generalize dependent (c0 :: cs). intros l _ Hl.
  induction l as [|c l IH]; [reflexivity|]. simpl.
  destruct (Z.eqb_spec (page_number (metadata c)) wrong) as [E|_].
  - exfalso. apply (Hl c); [now left|assumption].
  - apply IH. intros c' Hc'. apply Hl. now right.
Qed.

(** C1 (amended). Take a point whose supporting quote is the text of a
    chunk [C], which the matcher scores 100 against itself, while its
    [page_start] names another page. When no chunk lies on that other page,
    so that every chunk is a candidate, and every chunk that scores 100
    (none scores more) lies on the page of [C], the round overwrites
    [page_start] with the page of [C], in the point and in the final point,
    and the match confidence is 1. *)
Theorem quote_reconciliation_off_page ratio p chunks C wrong :
  valid_point p = true ->
  pages_positive chunks ->
  In C chunks ->
  text C <> [] ->
  supporting_quote p = Some (text C) ->
  page_start p = Some wrong ->
  wrong <> page_number (metadata C) ->
  (ratio (lower (text C)) (lower (text C)) == 100)%Q ->
  (forall c, In c chunks -> page_number (metadata c) <> wrong) ->
  (forall c, In c chunks ->
             (ratio (lower (text C)) (lower (text c)) <= 100)%Q) ->
  (forall c, In c chunks ->
             (ratio (lower (text C)) (lower (text c)) == 100)%Q ->
             page_number (metadata c) = page_number (metadata C)) ->
  exists p' fp,
    process_point ratio p chunks = Ok (p', fp)
    /\ page_start p' = Some (page_number (metadata C))
    /\ page_start (point fp) = Some (page_number (metadata C))
    /\ (snd (match_of ratio p chunks) == 1)%Q.
Proof.
  intros Hv Hpages HC Htext Hq Hpage Hwrong Hself Hnone Hmax Hties.
  destruct (process_point_total ratio p chunks Hv Hpages) as (p' & fp & Hp).
  exists p', fp. split; [assumption|].
  destruct (process_point_inv ratio p chunks p' fp Hp)
    as (Hp' & _ & _ & _ & Hfp & _).
  assert (Hquote : quote_of p = text C).
  { unfold quote_of, str_or. rewrite Hq.
    destruct (text C); [contradiction|reflexivity]. }
  assert (Hm : match_of ratio p chunks
               = fold_left (best_step ratio (text C)) chunks (None, 0%Q)).
  { unfold match_of. rewrite Hquote, Hpage.
    apply pool_falls_back; auto. intros ->. contradiction. }
  destruct (fold_best ratio (text C) chunks (None, 0%Q)) as (_ & Hall & Hwho).
  cbn zeta in Hall, Hwho. rewrite <- Hm in Hall, Hwho.
  assert (HsC : (score_of ratio (text C) C == 1)%Q).
  { unfold score_of. now apply percent_full. }
  assert (Hbest : exists c, In c chunks
                            /\ fst (match_of ratio p chunks) = Some c
                            /\ (snd (match_of ratio p chunks) == 1)%Q
                            /\ (score_of ratio (text C) c == 1)%Q).
  { specialize (Hall C HC). rewrite HsC in Hall.
    destruct Hwho as [Hr|(c & Hin & Hf & Hs & _)].
    - rewrite Hr in Hall. cbn [snd] in Hall. exfalso.
      revert Hall. unfold Qle. simpl. lia.
    - assert (Hc : (score_of ratio (text C) c == 1)%Q).
      { rewrite Hs in Hall. apply Qle_antisym; [|assumption].
        unfold score_of. apply percent_le. now apply Hmax. }
      exists c. repeat split; auto. now rewrite Hs. }
  destruct Hbest as (c & Hin & Hf & Hs & Hc).
  assert (Hpc : page_number (metadata c) = page_number (metadata C)).
  { apply Hties; [assumption|]. now apply percent_full. }
  assert (Hps : page_start p' = Some (page_number (metadata C))).
  { rewrite Hp'. unfold relocated. rewrite Hf. cbn [set_page_start page_start].
    now rewrite Hpc. }
  repeat split; auto. now rewrite Hfp.
Qed.

(** When the reported page holds chunks, the chunk found lies on that
    page, whatever the matcher: the chunks of the other pages are not
    looked at. *)
Lemma page_filter_keeps_to_page ratio quote chunks p c0 c s :
  p <> 0 ->
  In c0 chunks -> page_number (metadata c0) = p ->
  _find_best_matching_chunk ratio quote chunks (Some p) = (Some c, s) ->
  page_number (metadata c) = p.
Proof.
  intros Hp Hin0 Hpage0. unfold _find_best_matching_chunk.
  destruct (negb (truthy quote) || negb (truthy chunks)); [discriminate|].
  destruct (Z.eqb_spec p 0) as [|_]; [contradiction|].
  set (on_page := filter (fun c => page_number (metadata c) =? p) chunks).
  assert (Hin : In c0 on_page).
  { apply filter_In. split; [assumption|]. now apply Z.eqb_eq. }
  destruct on_page as [|c1 rest] eqn:Hon; [contradiction|].
  cbn [truthy]. intros Hrun.
  destruct (fold_best ratio quote (c1 :: rest) (None, 0%Q))
    as (_ & _ & [Hr|(c' & Hc' & Hf & _)]); cbn zeta in *.
  - rewrite Hrun in Hr. discriminate.
  - rewrite Hrun in Hf. injection Hf as <-.
    rewrite <- Hon in Hc'. apply filter_In in Hc'.
    now apply Z.eqb_eq.
Qed.

Lemma two_pages_positive : pages_positive two_pages.
Proof. repeat constructor; discriminate. Qed.

Lemma quote_reconciliation_off_page_witness :
  valid_point misplaced_off = true
  /\ In chunk_c two_pages
  /\ supporting_quote misplaced_off = Some (text chunk_c)
  /\ page_start misplaced_off = Some 7
  /\ page_number (metadata chunk_c) = 2
  /\ exists p' fp,
       process_point exact_ratio misplaced_off two_pages = Ok (p', fp)
       /\ page_start p' = Some 2
       /\ page_start (point fp) = Some 2
       /\ (snd (match_of exact_ratio misplaced_off two_pages) == 1)%Q.
Proof.
  assert (Hin : In chunk_c two_pages) by (right; right; left; reflexivity).
  assert (Hall : forall P : Chunk -> Prop,
             P chunk_a -> P chunk_b -> P chunk_c ->
             forall c, In c two_pages -> P c).
  { intros P Ha Hb Hc c [<-|[<-|[<-|[]]]]; assumption. }
  repeat (split; [first [reflexivity | exact Hin]|]).
  apply (quote_reconciliation_off_page exact_ratio misplaced_off two_pages
                                       chunk_c 7).
  - reflexivity.
  - exact two_pages_positive.
  - exact Hin.
  - discriminate.
  - reflexivity.
  - reflexivity.
  - discriminate.
  - reflexivity.
  - apply (Hall (fun c => page_number (metadata c) <> 7)); discriminate.
  - apply (Hall (fun c => (exact_ratio (lower (text chunk_c)) (lower (text c))
                           <= 100)%Q)); discriminate.
  - apply (Hall (fun c => (exact_ratio (lower (text chunk_c)) (lower (text c))
                           == 100)%Q ->
                          page_number (metadata c)
                          = page_number (metadata chunk_c)));
      first [reflexivity | intros H; discriminate H].
Defined.

(** C1 as stated fails when the reported page holds chunks of its own: the
    candidates are then the chunks of that page only. The point [misplaced]
    quotes [chunk_c] of page 2 word for word and reports page 1, which holds
    [chunk_a] and [chunk_b]; its [page_start] stays 1 and the match
    confidence is 0. *)
Lemma quote_reconciliation_on_page_counterexample :
  In chunk_c two_pages
  /\ supporting_quote misplaced = Some (text chunk_c)
  /\ (exact_ratio (lower (text chunk_c)) (lower (text chunk_c)) == 100)%Q
  /\ page_start misplaced = Some 1
  /\ page_number (metadata chunk_c) = 2
  /\ exists p' fp,
       process_point exact_ratio misplaced two_pages = Ok (p', fp)
       /\ page_start p' = Some 1
       /\ page_start (point fp) = Some 1
       /\ (snd (match_of exact_ratio misplaced two_pages) == 0)%Q
       /\ ~ (page_start p' = Some (page_number (metadata chunk_c))
             /\ (snd (match_of exact_ratio misplaced two_pages) == 1)%Q).
Proof.
  split; [right; right; left; reflexivity|].
  repeat (split; [reflexivity|]).
  eexists. eexists. split; [vm_compute; reflexivity|].
  repeat (split; [reflexivity|]).
  intros [H _]. discriminate H.
Qed.

(** C2. The fused score is [0.5 * importance + 0.3 * retrieval
    + 0.2 * match confidence], but a score of 0.0 counts as missing: the
    point [unimportant] carries an importance of 0.0, which the schema
    admits, and the round scores it with 0.5 in its place, giving 0.49 where
    the claim gives 0.24; the final point carries the importance 0.5 as
    well. *)
Theorem zero_importance_scored_as_missing :
  valid_point unimportant = true
  /\ importance_score unimportant = 0%Q
  /\ retrieval_score unimportant = Some (4 # 5)
  /\ exists fp,
       process_point exact_ratio unimportant [] = Ok (unimportant, fp)
       /\ snd (match_of exact_ratio unimportant []) = 0%Q
       /\ importance_score (point fp) = 1 # 2
       /\ (sort_key fp == 49 # 100)%Q
       /\ ~ (sort_key fp
             == (1 # 2) * importance_score unimportant + (3 # 10) * (4 # 5)
                + (2 # 10) * snd (match_of exact_ratio unimportant []))%Q.
Proof.
  repeat (split; [reflexivity|]).
  eexists. split; [vm_compute; reflexivity|].
  repeat (split; [reflexivity|]).
  intros H. vm_compute in H. discriminate H.
Qed.

(** The fusion as the code computes it: a missing score and a score of 0.0
    are both replaced by 0.5. *)
Lemma fused_score ratio p chunks p' fp :
  process_point ratio p chunks = Ok (p', fp) ->
  combined_score (point fp)
  = Some ((1 # 2) * float_or (Some (importance_score p)) (1 # 2)
          + (3 # 10) * float_or (retrieval_score p) (1 # 2)
          + (2 # 10) * snd (match_of ratio p chunks))%Q.
Proof.
  intros H. now apply process_point_inv in H.
Qed.



(** C3. For valid extracted points, chunks on pages numbered from 1 and a
    non-negative [top_k], [process_and_rank] returns a list of
    [min(top_k, number of points)] final points, in descending order of
    combined score; the points that share a score come in the order they had
    in the input (the first of them, when the list is cut); the ranks are
    1, 2, ..., N in that order; and what was cut scores no higher than what
    was kept. *)
Theorem ranking_sorted_stable_contiguous ratio top_k points chunks :
  0 <= top_k ->
  Forall (fun p => valid_point p = true) points ->
  pages_positive chunks ->
  exists points' staged out,
    process_points ratio points chunks = Ok (points', staged)
    /\ process_and_rank ratio top_k points chunks = Ok (points', out)
    /\ Forall2 (fun p fp => combined_score (point fp)
                            = Some (fused ratio p chunks)) points staged
    /\ len out = Z.min top_k (len points)
    /\ StronglySorted (fun a b => (sort_key b <= sort_key a)%Q) out
    /\ map final_rank out = map Z.of_nat (seq 1 (length out))
    /\ (forall s, exists rest,
           map point (filter (keyeq s) out) ++ rest
           = map point (filter (keyeq s) staged))
    /\ (exists dropped,
           Permutation (map point out ++ map point dropped) (map point staged)
           /\ forall a d, In a out -> In d dropped ->
                          (sort_key d <= sort_key a)%Q).
Proof.
  intros Hk Hv Hpages.
  destruct (process_points_total ratio points chunks Hv Hpages)
    as (points' & staged & Hp).
  exists points', staged,
    (assign_ranks 1 (firstn (Z.to_nat top_k) (sort_desc staged))).
  destruct (process_points_inv ratio points chunks _ _ Hp) as (HF & _).
  assert (Hlen : length staged = length points).
  { symmetry. eapply Forall2_length; eassumption. }
  split; [assumption|].
  split; [now apply process_and_rank_staged|].
  split; [|split; [|split; [|split; [|split]]]].
  - eapply Forall2_impl; [|exact HF].
    intros p fp (p' & Hpp). now apply process_point_inv in Hpp.
  - unfold len. rewrite assign_ranks_length, length_firstn.
    rewrite (Permutation_length (sort_desc_perm staged)), Hlen. lia.
  - apply (assign_ranks_sorted 1), firstn_sorted, sort_desc_sorted.
  - rewrite assign_ranks_rank, assign_ranks_length.
    generalize (length (firstn (Z.to_nat top_k) (sort_desc staged))).
    intros n. change 1 with (Z.of_nat 1). generalize 1%nat.
    induction n as [|n IH]; intros i; simpl; [reflexivity|].
    f_equal. rewrite <- IH. f_equal. lia.
  - intros s. rewrite assign_ranks_filter.
    destruct (filter_firstn_prefix (keyeq s) (Z.to_nat top_k)
                                   (sort_desc staged)) as (rest & Hrest).
    exists (map point rest).
    now rewrite <- map_app, Hrest, sort_desc_stable.
  - exists (skipn (Z.to_nat top_k) (sort_desc staged)). split.
    + rewrite assign_ranks_point, <- map_app, firstn_skipn.
      apply Permutation_map, sort_desc_perm.
    + intros a d Ha Hd.
      apply (in_map point) in Ha. rewrite assign_ranks_point in Ha.
      apply in_map_iff in Ha. destruct Ha as (a0 & Ha0 & Hin).
      pose proof (sorted_split (Z.to_nat top_k) (sort_desc staged)
                               (sort_desc_sorted staged) a0 d Hin Hd) as H.
      unfold desc, sort_key in *. now rewrite <- Ha0.
Qed.

Lemma ranking_sorted_stable_contiguous_witness :
  0 <= 2
  /\ Forall (fun p => valid_point p = true)
            [unquoted; misplaced; empty_quote]
  /\ pages_positive two_pages
  /\ exists points' out,
       process_and_rank exact_ratio 2 [unquoted; misplaced; empty_quote]
                        two_pages = Ok (points', out)
       /\ len out = 2
       /\ map final_rank out = [1; 2]
       /\ StronglySorted (fun a b => (sort_key b <= sort_key a)%Q) out.
Proof.
  assert (H0 : 0 <= 2) by lia.
  assert (Hv : Forall (fun p => valid_point p = true)
                      [unquoted; misplaced; empty_quote])
    by (repeat constructor).
  repeat (split; [assumption || exact two_pages_positive|]).
  destruct (ranking_sorted_stable_contiguous
              exact_ratio 2 [unquoted; misplaced; empty_quote] two_pages
              H0 Hv two_pages_positive)
    as (points' & staged & out & _ & Hrun & _ & Hlen & Hsorted & Hrank & _).
  exists points', out.
  assert (Hl : length out = 2%nat) by (unfold len in Hlen; simpl in Hlen; lia).
  rewrite Hl in Hrank. repeat split; assumption.
Defined.

End RankerClaims.

(** ** The vector store *)

Module StoreFacts.

Import Py Res PDFProcessor Embeddings VectorStore.

Definition in_range (n : Z) (pair : float * Z) : bool :=
  (0 <=? snd pair) && (snd pair <? n).

Section Store.

Context `{EmbeddingModel} `{AnnEngine}.




(** The loop keeps one pair per label inside the chunk list, in the order
    of the engine. *)
Lemma search_loop_spec pairs cs :
  forall acc,
    search_loop pairs cs acc
    = acc ++ flat_map
               (fun pair =>
                  if in_range (len cs) pair then
                    match nth_error cs (Z.to_nat (snd pair)) with
                    | Some chunk => [(chunk, similarity (fst pair))]
                    | None => []
                    end
                  else []) pairs.
Proof.
  induction pairs as [|[dist idx] pairs IH]; intros acc; simpl.
  - now rewrite app_nil_r.
  - unfold in_range. cbn [fst snd].
    destruct ((0 <=? idx) && (idx <? len cs)); [|now rewrite IH].
    destruct (nth_error cs (Z.to_nat idx)); rewrite IH; [|reflexivity].
    now rewrite <- app_assoc.
Qed.



(** Pair by pair: the results follow the labels in range, each naming the
    chunk at its label and the similarity of its distance. *)
Lemma search_loop_pairs pairs cs :
  Forall2 (fun pair r =>
             nth_error cs (Z.to_nat (snd pair)) = Some (fst r)
             /\ snd r = similarity (fst pair))
          (filter (in_range (len cs)) pairs)
          (search_loop pairs cs []).
Proof.
  rewrite search_loop_spec. simpl.
  induction pairs as [|[dist idx] pairs IH]; simpl; [constructor|].
  destruct (in_range (len cs) (dist, idx)) eqn:E; [|assumption].
  cbn [fst snd].
  destruct (nth_error cs (Z.to_nat idx)) eqn:En.
  - simpl. constructor; [|assumption]. cbn [fst snd]. now split.
  - exfalso. unfold in_range in E. cbn [snd] in E.
    apply andb_true_iff in E. destruct E as [E0 E1].
    apply Z.leb_le in E0. apply Z.ltb_lt in E1.
    apply nth_error_None in En. unfold len in E1. lia.
Qed.



End Store.

End StoreFacts.

(** ** Claims on the vector store *)

Module StoreClaims.

Import Py Res PDFProcessor Embeddings VectorStore StoreFacts Examples.

(** A distance of 0 gives the similarity 1; a negative distance is clamped
    to 0 first; NaN and the infinities count as the distance 1000000. *)
Example similarity_values :
  (similarity (Finite 0) == 1)%Q
  /\ (similarity (Finite (-3)) == 1)%Q
  /\ (similarity (Finite 3) == 1 # 4)%Q
  /\ (similarity NaN == 1 # 1000001)%Q
  /\ (similarity PosInf == 1 # 1000001)%Q
  /\ (similarity NegInf == 1 # 1000001)%Q.
Proof. repeat split; vm_compute; reflexivity. Qed.

(** C5 (amended). [initialize_index] called with [force_new=True] asks the
    engine for a new index: when the engine gives one, the store holds that
    fresh index, an empty chunk list and the new document id, whatever it
    held before; when the engine raises, the call fails. The code checks no
    dimension of its own. Called without [force_new], it does the same on a
    store without an index and leaves a store that has one as it is. *)
Theorem initialize_index_force_new
        `{EmbeddingModel} `{AnnEngine} (self : Store) (doc : str) :
  (forall idx,
      IndexHNSWFlat (dimension self) (m self) = Some idx ->
      exists self',
        initialize_index self doc true = Ok self'
        /\ index self' = Some (set_efConstruction idx (ef_construction self))
        /\ chunks self' = []
        /\ doc_id self' = Some doc)
  /\ (IndexHNSWFlat (dimension self) (m self) = None ->
      initialize_index self doc true
      = Raise (Wrapped "FAISS initialization failed"
                       (External "faiss.IndexHNSWFlat")))
  /\ (index self = None ->
      initialize_index self doc false = initialize_index self doc true)
  /\ (forall old, index self = Some old ->
                  initialize_index self doc false = Ok self).
Proof.
  unfold initialize_index. repeat split.
  - intros idx Hidx. rewrite andb_false_r, Hidx. cbn.
    eexists. repeat split.
  - intros Hidx. now rewrite andb_false_r, Hidx.
  - intros Hnone. now rewrite Hnone.
  - intros old Hold. now rewrite Hold.
Qed.

Lemma initialize_index_force_new_witness :
  IndexHNSWFlat (dimension loaded_store) (m loaded_store)
  = Some {| toy_dimension := 1; toy_m := 32; toy_efConstruction := 40;
            toy_efSearch := 16; toy_vectors := [] |}
  /\ chunks loaded_store <> []
  /\ exists self',
       initialize_index loaded_store (lit "next") true = Ok self'
       /\ index self'
          = Some {| toy_dimension := 1; toy_m := 32; toy_efConstruction := 64;
                    toy_efSearch := 16; toy_vectors := [] |}
       /\ chunks self' = []
       /\ doc_id self' = Some (lit "next").
Proof.
  split; [reflexivity|]. split; [discriminate|].
  exact (proj1 (initialize_index_force_new loaded_store (lit "next"))
               _ eq_refl).
Defined.

(** C5 as stated fails for a call that does not force: the default
    [force_new=False] leaves a store that already has an index untouched,
    chunks and document id included. *)
Lemma initialize_index_keeps_counterexample :
  index loaded_store <> None
  /\ chunks loaded_store = two_pages
  /\ initialize_index loaded_store (lit "next") false = Ok loaded_store
  /\ ~ (exists self',
           initialize_index loaded_store (lit "next") false = Ok self'
           /\ chunks self' = []).
Proof.
  split; [discriminate|]. split; [reflexivity|]. split; [reflexivity|].
  intros (self' & Hrun & Hempty).
  injection Hrun as <-. discriminate Hempty.
Qed.



(** With more neighbours asked for than the store holds chunks, the engine
    is asked for as many as there are chunks, and they come nearest
    first. *)
Example search_whole_store :
  exists self' results,
    search loaded_store (lit "key arguments") 5 16 = Ok (self', results)
    /\ map fst results = [chunk_b; chunk_c; chunk_a]
    /\ len results = Z.min 5 (len (chunks loaded_store)).
Proof.
  eexists. eexists. split; [vm_compute; reflexivity|].
  split; reflexivity.
Qed.

End StoreClaims.

(** ** The JSON recovery parser *)

Module ParserFacts.

Import Py Res Embeddings Helpers.

Section Parser.

Variable json_loads : str -> option Json.
Variable re_findall : string -> str -> list str.

(** A value is [loaded] when [json.loads] returned it on some string. *)
Definition loaded (v : Json) : Prop := exists s, json_loads s = Some v.

(** What a strategy may return: [None], or a loaded value. *)
Definition recovered (v : Json) : Prop := v = JNull \/ loaded v.

Lemma attempt_loads_total s :
  exists o, attempt_loads json_loads s = Ok o
            /\ forall v, o = Some v -> loaded v.
Proof.
  unfold attempt_loads. destruct (json_loads s) as [v|] eqn:E; simpl.
  - exists (Some v). split; [reflexivity|].
    intros v' [= <-]. now exists s.
  - exists None. split; [reflexivity|discriminate].
Qed.

Lemma direct_total text :
  exists v, _try_direct_parse json_loads text = Ok v /\ recovered v.
Proof.
  unfold _try_direct_parse. destruct (json_loads text) as [v|] eqn:E; simpl.
  - exists v. split; [reflexivity|]. right. now exists text.
  - exists JNull. split; [reflexivity|now left].
Qed.

Lemma first_loadable_total matches :
  exists o, first_loadable json_loads matches = Ok o
            /\ forall v, o = Some v -> loaded v.
Proof.
  induction matches as [|mtch rest IH]; simpl.
  - exists None. split; [reflexivity|discriminate].
  - destruct (attempt_loads_total mtch) as ([v|] & -> & Hv); simpl.
    + exists (Some v). split; [reflexivity|assumption].
    + exact IH.
Qed.

Lemma code_block_loop_total pats text :
  exists v, code_block_loop json_loads re_findall pats text = Ok v
            /\ recovered v.
Proof.
  induction pats as [|pattern rest IH]; simpl.
  - exists JNull. split; [reflexivity|now left].
  - destruct (first_loadable_total (re_findall pattern text))
      as ([v|] & -> & Hv); simpl.
    + exists v. split; [reflexivity|]. right. now apply Hv.
    + exact IH.
Qed.

Lemma bracket_attempt_total text opening closing :
  exists o, bracket_attempt json_loads text opening closing = Ok o
            /\ forall v, o = Some v -> loaded v.
Proof.
  unfold bracket_attempt.
  destruct (negb (find text opening =? -1) && negb (rfind text closing =? -1)
            && (find text opening <? rfind text closing)).
  - apply attempt_loads_total.
  - exists None. split; [reflexivity|discriminate].
Qed.

Lemma bracket_total text :
  exists v, _try_bracket_extract json_loads text = Ok v /\ recovered v.
Proof.
  unfold _try_bracket_extract.
  destruct (bracket_attempt_total text "{"%char "}"%char)
    as ([v|] & -> & Hv); simpl.
  - exists v. split; [reflexivity|]. right. now apply Hv.
  - destruct (bracket_attempt_total text "["%char "]"%char)
      as ([v|] & -> & Hv'); simpl.
    + exists v. split; [reflexivity|]. right. now apply Hv'.
    + exists JNull. split; [reflexivity|now left].
Qed.

Lemma prefix_loop_total prefixes text :
  exists v, prefix_loop json_loads prefixes text = Ok v /\ recovered v.
Proof.
  induction prefixes as [|prefix rest IH]; simpl.
  - exists JNull. split; [reflexivity|now left].
  - destruct (startswith (lower text) (lower prefix)); [|exact IH].
    destruct (attempt_loads_total
                (strip (slice text (len prefix) (len text))))
      as ([v|] & -> & Hv); simpl.
    + exists v. split; [reflexivity|]. right. now apply Hv.
    + exact IH.
Qed.

End Parser.

End ParserFacts.

(** ** Claims on the JSON recovery parser *)

Module ParserClaims.

Import Py Res Embeddings Helpers ParserFacts.

(** C10. [parse_json_response] returns on every string and raises nothing.
    On the empty string it returns [None]. Otherwise each of the four
    strategies returns on the stripped text, and the result is that of the
    first one, in the order direct parse, fenced code block, first and last
    bracket, known prefix, whose result is not [None]; it is [None] when
    all four give [None]. A result other than [None] is a value that
    [json.loads] returned. *)
Theorem parse_json_response_total_in_order
        (json_loads : str -> option Json)
        (re_findall : string -> str -> list str) (text : str) :
  exists direct fenced bracket prefix,
    _try_direct_parse json_loads (strip text) = Ok direct
    /\ _try_code_block json_loads re_findall (strip text) = Ok fenced
    /\ _try_bracket_extract json_loads (strip text) = Ok bracket
    /\ _try_remove_prefix json_loads (strip text) = Ok prefix
    /\ parse_json_response json_loads re_findall text
       = Ok (if negb (truthy text) then JNull
             else if negb (is_none direct) then direct
             else if negb (is_none fenced) then fenced
             else if negb (is_none bracket) then bracket
             else prefix)
    /\ forall v,
         parse_json_response json_loads re_findall text = Ok v ->
         v = JNull \/ exists s, json_loads s = Some v.
Proof.
  destruct (direct_total json_loads (strip text)) as (d & Hd & Rd).
  destruct (code_block_loop_total json_loads re_findall patterns (strip text))
    as (c & Hc & Rc).
  destruct (bracket_total json_loads (strip text)) as (b & Hb & Rb).
  destruct (prefix_loop_total json_loads prefixes_to_remove (strip text))
    as (r & Hr & Rr).
  exists d, c, b, r.
  assert (Hrun :
    parse_json_response json_loads re_findall text
    = Ok (if negb (truthy text) then JNull
          else if negb (is_none d) then d
          else if negb (is_none c) then c
          else if negb (is_none b) then b
          else r)).
  { unfold parse_json_response.
    destruct (negb (truthy text)); [reflexivity|].
    cbn [try_parsers]. rewrite Hd. cbn [bind].
    destruct (negb (is_none d)); [reflexivity|].
    unfold _try_code_block in Hc. unfold _try_code_block.
    rewrite Hc. cbn [bind].
    destruct (negb (is_none c)); [reflexivity|].
    rewrite Hb. cbn [bind].
    destruct (negb (is_none b)); [reflexivity|].
    unfold _try_remove_prefix in Hr. unfold _try_remove_prefix.
    rewrite Hr. cbn [bind].
    destruct r; reflexivity. }
  repeat (split; [assumption|]).
  intros v Hv. rewrite Hrun in Hv. injection Hv as <-.
  destruct (negb (truthy text)); [now left|].
  destruct (negb (is_none d)); [exact Rd|].
  destruct (negb (is_none c)); [exact Rc|].
  destruct (negb (is_none b)); [exact Rb|exact Rr].
Qed.

(** The strategies at work: the bracket scan finds the object after a
    sentence, the prefix strategy finds a value that has no bracket, and a
    response that is [null] or cannot be recovered gives [None]. *)
Example parse_after_sentence :
  parse_json_response Examples.toy_loads Examples.no_match
                      (lit "Here is the JSON: {}")
  = Ok (JObj []).
Proof. vm_compute. reflexivity. Qed.

Example parse_after_prefix :
  parse_json_response Examples.toy_loads Examples.no_match
                      (lit "  Result: true ")
  = Ok (JBool true).
Proof. vm_compute. reflexivity. Qed.

Example parse_null_and_noise :
  parse_json_response Examples.toy_loads Examples.no_match (lit "null")
  = Ok JNull
  /\ parse_json_response Examples.toy_loads Examples.no_match
                         (lit "no json here") = Ok JNull
  /\ parse_json_response Examples.toy_loads Examples.no_match [] = Ok JNull.
Proof. repeat split; vm_compute; reflexivity. Qed.

End ParserClaims.

(** ** Claims on the orchestrator *)

Module PipelineClaims.

Import Py Res PDFProcessor Embeddings Schemas Helpers Examples.
Import LLMAnalyzer Pipeline.

(** Without points the ranker returns the empty list, whatever [top_k]. *)
Lemma process_and_rank_nil ratio top_k chunks :
  PostProcessor.process_and_rank ratio top_k [] chunks = Ok ([], []).
Proof.
  unfold PostProcessor.process_and_rank. cbn [PostProcessor.process_points bind fst snd].
  unfold slice. cbn [PostProcessor.sort_desc skipn]. now rewrite firstn_nil.
Qed.

(** C8. With no extraction backend ([self.llm is None]) [analyze_chunks]
    returns no point and the confidence 0, and a run whose earlier stages
    succeed (the file is there and not empty, the chunker returns at least
    one chunk, the index is built and searched) completes: it raises
    nothing and its result has an empty list of key points. *)
Theorem no_llm_run_completes
        `{EmbeddingModel} `{VectorStore.AnnEngine}
        settings isfile read_bytes sha256_hexdigest pdf_pages elapsed
        json_loads re_findall prompt_head prompt_tail read_points
        token_set_ratio fuel vector_store pdf_path filename
        content chunks pages store1 store2 store3 retrieved :
  isfile pdf_path = true ->
  read_bytes pdf_path = Some content ->
  content <> [] ->
  process_pdf (CHUNK_SIZE settings) (CHUNK_OVERLAP settings) fuel
              (lift "pdfplumber" (pdf_pages pdf_path))
              (sha256_hexdigest content) = Ok (chunks, pages) ->
  chunks <> [] ->
  VectorStore.initialize_index vector_store (sha256_hexdigest content) true
  = Ok store1 ->
  VectorStore.add_chunks store1 chunks = Ok store2 ->
  VectorStore.search store2 query (TOP_K_RETRIEVAL settings)
                     (FAISS_EF_SEARCH settings) = Ok (store3, retrieved) ->
  analyze_chunks json_loads re_findall None prompt_head prompt_tail
                 read_points retrieved 30
  = Ok {| extracted_points := []; confidence := 0%Q |}
  /\ analyze_document settings isfile read_bytes sha256_hexdigest pdf_pages
                      elapsed json_loads re_findall None prompt_head
                      prompt_tail read_points token_set_ratio
                      fuel vector_store pdf_path filename
     = Ok (store3,
           {| document_id := sha256_hexdigest content;
              document_name := filename;
              total_pages := pages;
              total_chunks := len chunks;
              key_points := [];
              processing_time := elapsed;
              metadata := MetadataExtractor.extract_metadata chunks filename |}).
Proof.
  intros Hfile Hread Hcontent Hpdf Hchunks Hinit Hadd Hsearch.
  split; [reflexivity|].
  unfold analyze_document, calculate_content_hash.
  rewrite Hfile, Hread. cbn [negb lift bind].
  destruct content as [|b0 content']; [contradiction|].
  cbn [truthy negb]. rewrite Hpdf. cbn [bind fst snd].
  destruct chunks as [|c0 chunks']; [contradiction|].
  cbn [truthy negb]. rewrite Hinit. cbn [bind].
  rewrite Hadd. cbn [bind]. rewrite Hsearch. cbn [bind fst snd].
  unfold analyze_chunks. cbn [bind fallback extracted_points].
  rewrite process_and_rank_nil. reflexivity.
Qed.

Lemma no_llm_run_completes_witness :
  exists store result,
    analyze_document default_settings (fun _ => true)
                     (fun _ => Some pdf_bytes) toy_digest two_page_pdf 1%Q
                     toy_loads no_match None [] [] no_points exact_ratio
                     3002 (VectorStore.new_store 32 64)
                     (lit "brief.pdf") (lit "brief.pdf")
    = Ok (store, result)
    /\ key_points result = []
    /\ total_chunks result = 4
    /\ total_pages result = 2.
Proof.
  eexists. eexists. split.
  - eapply (no_llm_run_completes
              default_settings (fun _ => true) (fun _ => Some pdf_bytes)
              toy_digest two_page_pdf 1%Q toy_loads no_match [] []
              no_points exact_ratio 3002 (VectorStore.new_store 32 64)
              (lit "brief.pdf") (lit "brief.pdf") pdf_bytes).
    + reflexivity.
    + reflexivity.
    + discriminate.
    + vm_compute. reflexivity.
    + discriminate.
    + vm_compute. reflexivity.
    + vm_compute. reflexivity.
    + vm_compute. reflexivity.
  - split; [reflexivity|]. split; vm_compute; reflexivity.
Defined.

End PipelineClaims.

(* ================================================================== *)
(** * Further properties *)

(** ** Strings *)

Module PyFacts.

Import Py.

Lemma lstrip_split (s : str) :
  exists blanks, s = blanks ++ lstrip s /\ Forall (fun c => isspace c = true) blanks.
Proof.
  induction s as [|c s IH]; simpl.
  - exists []. split; [reflexivity|constructor].
  - destruct (isspace c) eqn:E.
    + destruct IH as (blanks & Hs & Hb). exists (c :: blanks). split.
      * simpl. now rewrite <- Hs.
      * now constructor.
    + exists []. split; [reflexivity|constructor].
Qed.

Lemma lstrip_head (s : str) c t : lstrip s = c :: t -> isspace c = false.
Proof.
  induction s as [|x s IH]; simpl; [discriminate|].
  destruct (isspace x) eqn:E; [assumption|].
  intros [= <- _]. exact E.
Qed.

Lemma lstrip_fixed (s : str) c t : s = c :: t -> isspace c = false -> lstrip s = s.
Proof. intros -> H. simpl. now rewrite H. Qed.

Lemma lstrip_idem (s : str) : lstrip (lstrip s) = lstrip s.
Proof.
  destruct (lstrip s) as [|c t] eqn:E; [reflexivity|].
  apply lstrip_head in E. simpl. now rewrite E.
Qed.

Lemma lstrip_snoc (s : str) c :
  isspace c = false -> lstrip (s ++ [c]) = lstrip s ++ [c].
Proof.
  intros Hc. induction s as [|x s IH]; simpl.
  - now rewrite Hc.
  - destruct (isspace x); [assumption|reflexivity].
Qed.

Lemma rstrip_split (s : str) :
  exists blanks, s = rstrip s ++ blanks /\ Forall (fun c => isspace c = true) blanks.
Proof.
  unfold rstrip. destruct (lstrip_split (rev s)) as (blanks & Hs & Hb).
  exists (rev blanks). split.
  - rewrite <- rev_app_distr, <- Hs. now rewrite rev_involutive.
  - now apply Forall_rev.
Qed.

Lemma rstrip_cons (c : ascii) (s : str) :
  isspace c = false -> rstrip (c :: s) = c :: rstrip s.
Proof.
  intros Hc. unfold rstrip. simpl.
  rewrite lstrip_snoc by assumption. rewrite rev_app_distr. reflexivity.
Qed.

Lemma rstrip_idem (s : str) : rstrip (rstrip s) = rstrip s.
Proof.
  unfold rstrip. rewrite rev_involutive. now rewrite lstrip_idem.
Qed.

(** What [strip] leaves starts with a character that is no blank. *)
Lemma strip_head (s : str) c t : strip s = c :: t -> isspace c = false.
Proof.
  unfold strip. destruct (lstrip s) as [|x u] eqn:E.
  - discriminate.
  - pose proof (lstrip_head _ _ _ E) as Hx.
    rewrite rstrip_cons by assumption. intros [= <- _]. exact Hx.
Qed.

Lemma strip_idem (s : str) : strip (strip s) = strip s.
Proof.
  destruct (strip s) as [|c t] eqn:E; [reflexivity|].
  pose proof (strip_head _ _ _ E) as Hc.
  unfold strip. rewrite (lstrip_fixed (c :: t) c t eq_refl Hc).
  rewrite <- E. unfold strip. apply rstrip_idem.
Qed.

(** A string is its stripped form between two runs of blanks. *)
Lemma strip_split (s : str) :
  exists before after,
    s = before ++ strip s ++ after
    /\ Forall (fun c => isspace c = true) before
    /\ Forall (fun c => isspace c = true) after.
Proof.
  destruct (lstrip_split s) as (before & Hs & Hb).
  destruct (rstrip_split (lstrip s)) as (after & Hl & Ha).
  exists before, after. unfold strip. split; [|split]; try assumption.
  now rewrite <- Hl.
Qed.

Lemma strip_length (s : str) : (length (strip s) <= length s)%nat.
Proof.
  destruct (strip_split s) as (before & after & Hs & _).
  rewrite Hs at 2. rewrite !length_app. lia.
Qed.

(** What [strip] leaves ends with a character that is no blank. *)
Lemma strip_last (s : str) t c : strip s = t ++ [c] -> isspace c = false.
Proof.
  unfold strip, rstrip. intros H.
  apply (f_equal (@rev ascii)) in H.
  rewrite rev_involutive, rev_app_distr in H. simpl in H.
  now apply lstrip_head in H.
Qed.

Lemma strip_blank (s : str) :
  Forall (fun c => isspace c = true) s -> strip s = [].
Proof.
  intros Hs. destruct (strip s) as [|c t] eqn:E; [reflexivity|].
  pose proof (strip_head _ _ _ E) as Hc.
  destruct (strip_split s) as (before & after & Heq & _).
  rewrite E in Heq. rewrite Heq in Hs.
  apply Forall_app in Hs. destruct Hs as [_ Hs].
  inversion Hs; congruence.
Qed.

Lemma lower_char_idem (c : ascii) : lower_char (lower_char c) = lower_char c.
Proof.
  destruct c as [[] [] [] [] [] [] [] []]; vm_compute; reflexivity.
Qed.

Lemma lower_idem (s : str) : lower (lower s) = lower s.
Proof.
  unfold lower. rewrite map_map. apply map_ext. exact lower_char_idem.
Qed.

Lemma lower_app (a b : str) : lower (a ++ b) = lower a ++ lower b.
Proof. apply map_app. Qed.

(** *** Decimal rendering *)

Definition plain (c : ascii) : Prop := c <> "_"%char.

Lemma uint_plain (d : Decimal.uint) :
  Forall plain (list_ascii_of_string (NilEmpty.string_of_uint d)).
Proof.
  induction d; simpl; constructor; auto; discriminate.
Qed.

Lemma str_of_int_plain (z : Z) : Forall plain (str_of_int z).
Proof.
  unfold str_of_int, NilZero.string_of_int, NilZero.string_of_uint.
  destruct (Z.to_int z) as [d|d]; destruct d;
    try (simpl; repeat constructor; try discriminate; apply uint_plain).
Qed.

Lemma to_int_proper (z : Z) :
  Z.to_int z <> Decimal.Pos Decimal.Nil /\ Z.to_int z <> Decimal.Neg Decimal.Nil.
Proof.
  split; intros H; pose proof (DecimalZ.of_to z) as Hz; rewrite H in Hz;
    simpl in Hz; subst z; discriminate H.
Qed.

Lemma str_of_int_inj (a b : Z) : str_of_int a = str_of_int b -> a = b.
Proof.
  unfold str_of_int. intros H.
  apply (f_equal string_of_list_ascii) in H.
  rewrite !string_of_list_ascii_of_string in H.
  apply (f_equal NilZero.int_of_string) in H.
  destruct (to_int_proper a) as [Ha1 Ha2].
  destruct (to_int_proper b) as [Hb1 Hb2].
  rewrite !NilZero.isi in H by assumption.
  injection H as H. now apply DecimalZ.to_int_inj.
Qed.

(** Two strings cut at the first occurrence of a character they do not
    otherwise hold are cut at the same place. *)
Lemma cut_at_first {A : Type} (x : A) (l1 l2 r1 r2 : list A) :
  ~ In x l1 -> ~ In x l2 ->
  l1 ++ x :: r1 = l2 ++ x :: r2 -> l1 = l2 /\ r1 = r2.
Proof.
  revert l2. induction l1 as [|a l1 IH]; intros [|b l2] H1 H2 H; simpl in *.
  - injection H as ->. now split.
  - injection H as -> _. exfalso. apply H2. now left.
  - injection H as -> _. exfalso. apply H1. now left.
  - injection H as -> H.
    destruct (IH l2) as [-> ->]; auto.
Qed.

End PyFacts.

(** ** More on the chunker *)

Module ChunkerExtras.

Import Py Res PDFProcessor ChunkerFacts PyFacts Examples.

Lemma slice_substring {A : Type} (l : list A) (a b : Z) :
  exists before after, l = before ++ slice l a b ++ after.
Proof.
  unfold slice.
  set (i := Z.to_nat (slice_bound (len l) a)).
  set (k := Z.to_nat (slice_bound (len l) b - slice_bound (len l) a)).
  exists (firstn i l), (skipn k (skipn i l)).
  now rewrite firstn_skipn, firstn_skipn.
Qed.

Section Chunker.

Variables (chunk_size chunk_overlap : Z).

Let split := split_loop chunk_size chunk_overlap.

(** A property that every chunk cut at a start that is not negative has
    holds of all the chunks of a run that returns. *)
Lemma split_loop_forall (P : Chunk -> Prop) fuel text pn d tp :
  0 <= chunk_overlap <= chunk_size ->
  (forall start idx,
      0 <= start ->
      truthy (strip (slice text start (start + chunk_size))) = true ->
      P (make_chunk (slice text start (start + chunk_size)) pn d tp idx)) ->
  forall start idx acc chunks,
    0 <= start ->
    split fuel text pn d tp start idx acc = Ok chunks ->
    Forall P acc -> Forall P chunks.
Proof.
  intros Hpre HP.
  induction fuel as [|fuel IH]; intros start idx acc chunks Hs H Hacc;
    [discriminate|].
  subst split. rewrite split_loop_S in H.
  destruct (start <? len text); [|now injection H as <-].
  cbv zeta in H.
  assert (Hnext : 0 <= (if start + chunk_size <? len text
                        then start + chunk_size - chunk_overlap
                        else start + chunk_size)).
  { destruct (start + chunk_size <? len text); lia. }
  destruct (truthy (strip (slice text start (start + chunk_size)))) eqn:E.
  - eapply IH; [exact Hnext|exact H|].
    apply Forall_app. split; [assumption|]. constructor; [|constructor].
    now apply HP.
  - eapply IH; [exact Hnext|exact H|assumption].
Qed.

Lemma split_loop_fuel_mono fuel text pn d tp :
  forall start idx acc chunks,
    split fuel text pn d tp start idx acc = Ok chunks ->
    split (S fuel) text pn d tp start idx acc = Ok chunks.
Proof.
  induction fuel as [|fuel IH]; intros start idx acc chunks H; [discriminate|].
  subst split. rewrite split_loop_S in H. rewrite split_loop_S.
  destruct (start <? len text); [|assumption].
  cbv zeta in *. now apply IH.
Qed.

Lemma chained_cover n start ws :
  0 <= chunk_overlap < chunk_size ->
  chained chunk_size chunk_overlap n start ws ->
  forall i, start <= i < n -> exists w, In w ws /\ fst w <= i < snd w.
Proof.
  intros Hpre Hch.
  induction Hch as [start Hn|start Hs Hn|start ws Hs Hn Hch IH]; intros i Hi.
  - lia.
  - exists (start, start + chunk_size). split; [now left|]. simpl. lia.
  - destruct (Z.lt_ge_cases i (start + chunk_size)) as [Hin|Hout].
    + exists (start, start + chunk_size). split; [now left|]. simpl. lia.
    + destruct (IH i) as (w & Hw & Hb); [lia|].
      exists w. split; [now right|assumption].
Qed.

Lemma chained_adjacent n start ws :
  chained chunk_size chunk_overlap n start ws ->
  forall before w1 w2 after,
    ws = before ++ w1 :: w2 :: after ->
    fst w2 = snd w1 - chunk_overlap /\ snd w1 = fst w1 + chunk_size.
Proof.
  intros Hch.
  induction Hch as [start Hn|start Hs Hn|start ws Hs Hn Hch IH];
    intros before w1 w2 after Heq.
  - destruct before; discriminate.
  - destruct before as [|? [|? ?]]; discriminate.
  - destruct before as [|b0 before].
    + simpl in Heq. injection Heq as <- ->.
      inversion Hch; subst; simpl; lia.
    + simpl in Heq. injection Heq as _ Hrest. eapply IH; eassumption.
Qed.

End Chunker.

(** X1. With [0 <= overlap < chunk_size], every chunk that
    [_split_text_with_page] returns holds a text that is not empty, has no
    blank at either end, is at most [chunk_size] characters long and stands
    word for word in the page. *)
Theorem chunk_texts_trimmed_bounded chunk_size chunk_overlap fuel text pn d tp
        chunks :
  0 <= chunk_overlap < chunk_size ->
  _split_text_with_page chunk_size chunk_overlap fuel text pn d tp = Ok chunks ->
  Forall (fun c =>
            PDFProcessor.text c <> []
            /\ strip (PDFProcessor.text c) = PDFProcessor.text c
            /\ len (PDFProcessor.text c) <= chunk_size
            /\ exists before after,
                 text = before ++ PDFProcessor.text c ++ after) chunks.
Proof.
  intros Hpre Hrun. unfold _split_text_with_page in Hrun.
  eapply (split_loop_forall chunk_size chunk_overlap);
    [lia| |reflexivity|exact Hrun|constructor].
  intros start idx Hs Hnb. cbn [make_chunk PDFProcessor.text].
  set (w := slice text start (start + chunk_size)) in *.
  split; [|split; [|split]].
  - intros E. now rewrite E in Hnb.
  - apply strip_idem.
  - pose proof (strip_length w) as Hl.
    assert (Hw : len w <= chunk_size).
    { subst w. rewrite slice_length by lia.
      pose proof (len_nonneg text). lia. }
    unfold len in *. lia.
  - destruct (slice_substring text start (start + chunk_size))
      as (b1 & a1 & H1).
    destruct (strip_split w) as (b2 & a2 & H2 & _).
    exists (b1 ++ b2), (a2 ++ a1).
    rewrite H1 at 1. fold w. rewrite H2 at 1.
    now rewrite <- !app_assoc.
Qed.

Lemma chunk_texts_trimmed_bounded_witness :
  0 <= 1 < 4
  /\ exists chunks,
       _split_text_with_page 4 1 17 gappy 1 (lit "d0c") 1 = Ok chunks
       /\ length chunks = 3%nat
       /\ Forall (fun c =>
                    PDFProcessor.text c <> []
                    /\ strip (PDFProcessor.text c) = PDFProcessor.text c
                    /\ len (PDFProcessor.text c) <= 4
                    /\ exists before after,
                         gappy = before ++ PDFProcessor.text c ++ after)
                 chunks.
Proof.
  split; [lia|]. eexists. split; [vm_compute; reflexivity|].
  split; [reflexivity|].
  apply (chunk_texts_trimmed_bounded 4 1 17 gappy 1 (lit "d0c") 1);
    [lia|vm_compute; reflexivity].
Defined.

(** X2. With [0 <= overlap < chunk_size] the windows the chunks are cut
    from leave no gap: every position of the page lies in a window, and each
    window after the first starts exactly [overlap] characters before the
    end of the one before it. *)
Theorem windows_cover_page chunk_size chunk_overlap text pn d tp :
  0 <= chunk_overlap < chunk_size ->
  exists ws,
    (forall fuel,
        (length text + 2 <= fuel)%nat ->
        _split_text_with_page chunk_size chunk_overlap fuel text pn d tp
        = Ok (number_chunks (filter nonblank (map (window_text text) ws))
                            pn d tp 0))
    /\ (forall i, 0 <= i < len text ->
                  exists w, In w ws /\ fst w <= i < snd w)
    /\ (forall before w1 w2 after,
           ws = before ++ w1 :: w2 :: after ->
           fst w2 = snd w1 - chunk_overlap
           /\ snd w1 = fst w1 + chunk_size).
Proof.
  intros Hpre.
  destruct (windows_total chunk_size chunk_overlap Hpre
                          (length text) (len text) 0)
    as [ws Hws]; [unfold len; lia|].
  exists ws. split; [|split].
  - intros fuel Hfuel.
    apply (split_text_windows chunk_size chunk_overlap (S (length text)));
      [exact Hws|lia].
  - intros i Hi. apply windows_chained in Hws.
    eapply chained_cover; [exact Hpre|exact Hws|lia].
  - apply windows_chained in Hws. eapply chained_adjacent; exact Hws.
Qed.

Lemma windows_cover_page_witness :
  0 <= 200 < 1500
  /\ exists ws,
       (forall fuel,
           (length page_3000 + 2 <= fuel)%nat ->
           _split_text_with_page 1500 200 fuel page_3000 1 (lit "d0c") 2
           = Ok (number_chunks
                   (filter nonblank (map (window_text page_3000) ws))
                   1 (lit "d0c") 2 0))
       /\ (forall i, 0 <= i < len page_3000 ->
                     exists w, In w ws /\ fst w <= i < snd w)
       /\ (forall before w1 w2 after,
              ws = before ++ w1 :: w2 :: after ->
              fst w2 = snd w1 - 200 /\ snd w1 = fst w1 + 1500).
Proof.
  split; [lia|].
  apply (windows_cover_page 1500 200 page_3000 1 (lit "d0c") 2). lia.
Defined.

End ChunkerExtras.

(** ** The pages of a document *)

Module PagesFacts.

Import Py Res PDFProcessor ChunkerFacts PyFacts ChunkerExtras.

Lemma make_chunk_id_inj d p i p' i' :
  make_chunk_id d p i = make_chunk_id d p' i' -> p = p' /\ i = i'.
Proof.
  unfold make_chunk_id. intros H.
  apply app_inv_head in H. apply app_inv_head in H.
  change (lit "_chunk") with ("_"%char :: lit "chunk") in H.
  rewrite <- !app_comm_cons in H.
  assert (Hplain : forall z, ~ In "_"%char (str_of_int z)).
  { intros z Hin. pose proof (str_of_int_plain z) as Hp.
    rewrite Forall_forall in Hp. now apply (Hp _ Hin). }
  apply cut_at_first in H; try apply Hplain.
  destruct H as [Hp Hi]. apply app_inv_head in Hi.
  split; now apply str_of_int_inj.
Qed.

Lemma count_from_lower i k x : In x (count_from i k) -> i <= x.
Proof.
  revert i. induction k as [|k IH]; intros i; simpl; [contradiction|].
  intros [<-|H]; [lia|]. apply IH in H. lia.
Qed.

Lemma count_from_nodup i k : NoDup (count_from i k).
Proof.
  revert i. induction k as [|k IH]; intros i; simpl; constructor; auto.
  intros H. apply count_from_lower in H. lia.
Qed.

Section Pages.

Variables (chunk_size chunk_overlap : Z) (fuel : nat) (d : str) (tp : Z).

Let split := split_loop chunk_size chunk_overlap.

(** A property of every chunk the loop can build holds of the chunks of a
    run that returns. *)
Lemma split_loop_built (P : Chunk -> Prop) f text pn :
  (forall w idx, strip w <> [] -> P (make_chunk w pn d tp idx)) ->
  forall start idx acc chunks,
    split f text pn d tp start idx acc = Ok chunks ->
    Forall P acc -> Forall P chunks.
Proof.
  intros HP.
  induction f as [|f IH]; intros start idx acc chunks H Hacc; [discriminate|].
  subst split. rewrite split_loop_S in H.
  destruct (start <? len text); [|now injection H as <-].
  cbv zeta in H.
  destruct (truthy (strip (slice text start (start + chunk_size)))) eqn:E.
  - eapply IH; [exact H|].
    apply Forall_app. split; [assumption|]. constructor; [|constructor].
    apply HP. intros Hs. now rewrite Hs in E.
  - eapply IH; [exact H|assumption].
Qed.

(** The chunks of one page, as they leave [_split_text_with_page]. *)
Definition of_page (text : str) (pn : Z) (c : Chunk) : Prop :=
  page_number (metadata c) = pn
  /\ document_id (metadata c) = d
  /\ total_pages (metadata c) = tp
  /\ chunk_id (metadata c) = make_chunk_id d pn (chunk_index (metadata c))
  /\ PDFProcessor.text c <> []
  /\ strip (PDFProcessor.text c) = PDFProcessor.text c
  /\ exists before after, text = before ++ PDFProcessor.text c ++ after.

Lemma split_of_page f text pn chunks :
  _split_text_with_page chunk_size chunk_overlap f text pn d tp = Ok chunks ->
  Forall (of_page text pn) chunks
  /\ NoDup (map (fun c => chunk_id (metadata c)) chunks).
Proof.
  intros H. split.
  - unfold _split_text_with_page in H.
    assert (Hsub : forall start idx acc cs,
               split_loop chunk_size chunk_overlap f text pn d tp
                          start idx acc = Ok cs ->
               Forall (of_page text pn) acc -> Forall (of_page text pn) cs).
    { clear H. induction f as [|f' IH]; intros start idx acc cs Hr Hacc;
        [discriminate|].
      pose proof (split_loop_S chunk_size chunk_overlap f' text pn d tp
                               start idx acc) as Hs.
      cbv zeta in Hs. unfold split in *. rewrite Hs in Hr. clear Hs.
      destruct (start <? len text); [|now injection Hr as <-].
      destruct (truthy (strip (slice text start (start + chunk_size))))
        eqn:E.
      - eapply IH; [exact Hr|].
        apply Forall_app. split; [assumption|]. constructor; [|constructor].
        unfold of_page. cbn [make_chunk metadata PDFProcessor.text
          page_number document_id total_pages chunk_id chunk_index].
        repeat split; auto.
        + intros Hs. now rewrite Hs in E.
        + apply strip_idem.
        + destruct (slice_substring text start (start + chunk_size))
            as (b1 & a1 & H1).
          destruct (strip_split (slice text start (start + chunk_size)))
            as (b2 & a2 & H2 & _).
          exists (b1 ++ b2), (a2 ++ a1).
          rewrite H1 at 1. rewrite H2 at 1. now rewrite <- !app_assoc.
      - eapply IH; [exact Hr|assumption]. }
    eapply Hsub; [exact H|constructor].
  - assert (Hidx : map (fun c => chunk_index (metadata c)) chunks
                   = count_from 0 (length chunks)).
    { eapply split_loop_contiguous; [exact H|reflexivity|reflexivity]. }
    assert (Hid : Forall (fun c => chunk_id (metadata c)
                                   = make_chunk_id d pn (chunk_index (metadata c)))
                         chunks).
    { unfold _split_text_with_page in H.
      eapply (split_loop_built
                (fun c => chunk_id (metadata c)
                          = make_chunk_id d pn (chunk_index (metadata c))));
        [|exact H|constructor].
      intros w idx _. reflexivity. }
    assert (Hmap : map (fun c => chunk_id (metadata c)) chunks
                   = map (make_chunk_id d pn)
                         (map (fun c => chunk_index (metadata c)) chunks)).
    { rewrite map_map. apply map_ext_in. intros c Hc.
      rewrite Forall_forall in Hid. now apply Hid. }
    rewrite Hmap, Hidx.
    apply NoDup_map_NoDup_ForallPairs; [|apply count_from_nodup].
    intros x y _ _ Hxy. now apply make_chunk_id_inj in Hxy.
Qed.

(** The chunks of the pages from number [pn] on: a page without text
    gives nothing, a page with text gives the chunks of its split. *)
Inductive paged : Z -> list (option str) -> list Chunk -> Prop :=
| paged_done pn : paged pn [] []
| paged_skip pn page rest chunks :
    (forall t, page = Some t -> strip t = []) ->
    paged (pn + 1) rest chunks ->
    paged pn (page :: rest) chunks
| paged_page pn t rest group chunks :
    strip t <> [] ->
    _split_text_with_page chunk_size chunk_overlap fuel t pn d tp = Ok group ->
    paged (pn + 1) rest chunks ->
    paged pn (Some t :: rest) (group ++ chunks).

Lemma pages_loop_paged pages :
  forall pn acc chunks,
    pages_loop chunk_size chunk_overlap fuel pages pn d tp acc = Ok chunks ->
    exists new, chunks = acc ++ new /\ paged pn pages new.
Proof.
  induction pages as [|page rest IH]; intros pn acc chunks H.
  - injection H as <-. exists []. split; [now rewrite app_nil_r|constructor].
  - cbn [pages_loop] in H. destruct page as [t|].
    + destruct (truthy t && truthy (strip t)) eqn:E.
      * apply andb_true_iff in E. destruct E as [_ E].
        destruct (_split_text_with_page chunk_size chunk_overlap fuel t pn d tp)
          as [group| |] eqn:Hg; cbn [bind] in H; try discriminate.
        destruct (IH _ _ _ H) as (new & -> & Hnew).
        exists (group ++ new). split; [now rewrite app_assoc|].
        apply paged_page; auto. intros Hs. now rewrite Hs in E.
      * destruct (IH _ _ _ H) as (new & -> & Hnew).
        exists new. split; [reflexivity|].
        apply paged_skip; [|assumption].
        intros t' [= <-]. apply andb_false_iff in E.
        destruct E as [E|E].
        -- destruct t; [reflexivity|discriminate].
        -- destruct (strip t); [reflexivity|discriminate].
    + destruct (IH _ _ _ H) as (new & -> & Hnew).
      exists new. split; [reflexivity|].
      apply paged_skip; [discriminate|assumption].
Qed.

(** Where a chunk of the document comes from: a page that has text, whose
    number the chunk carries. *)
Definition placed (pn : Z) (pages : list (option str)) (c : Chunk) : Prop :=
  pn <= page_number (metadata c) < pn + len pages
  /\ exists t,
       nth_error pages (Z.to_nat (page_number (metadata c) - pn)) = Some (Some t)
       /\ of_page t (page_number (metadata c)) c.

Lemma placed_shift pn page rest c :
  placed (pn + 1) rest c -> placed pn (page :: rest) c.
Proof.
  intros ((Hlo & Hhi) & t & Hnth & Hof). split.
  - unfold len in *. simpl length. lia.
  - exists t. split; [|assumption].
    replace (Z.to_nat (page_number (metadata c) - pn))
      with (S (Z.to_nat (page_number (metadata c) - (pn + 1)))) by lia.
    exact Hnth.
Qed.

Lemma paged_placed pn pages chunks :
  paged pn pages chunks -> Forall (placed pn pages) chunks.
Proof.
  induction 1 as [pn|pn page rest chunks Hblank _ IH
                  |pn t rest group chunks Hnb Hsplit _ IH].
  - constructor.
  - eapply Forall_impl; [|exact IH]. intros c. apply placed_shift.
  - apply Forall_app. split.
    + destruct (split_of_page _ _ _ _ Hsplit) as [Hof _].
      eapply Forall_impl; [|exact Hof].
      intros c Hc. pose proof Hc as (Hp & _). split.
      * rewrite Hp. unfold len. simpl length. lia.
      * exists t. rewrite Hp, Z.sub_diag. split; [reflexivity|exact Hc].
    + eapply Forall_impl; [|exact IH]. intros c. apply placed_shift.
Qed.

Lemma paged_sorted pn pages chunks :
  paged pn pages chunks ->
  StronglySorted Z.le (map (fun c => page_number (metadata c)) chunks).
Proof.
  intros H. pose proof H as Hall. revert Hall.
  induction H as [pn|pn page rest chunks Hblank Hrest IH
                  |pn t rest group chunks Hnb Hsplit Hrest IH]; intros Hall.
  - constructor.
  - apply IH. assumption.
  - destruct (split_of_page _ _ _ _ Hsplit) as [Hof _].
    pose proof (paged_placed _ _ _ Hrest) as Hlater.
    specialize (IH Hrest).
    clear Hsplit Hall. induction Hof as [|c group Hc Hof IHg]; [exact IH|].
    simpl. constructor; [exact IHg|].
    rewrite map_app. apply Forall_app. split.
    + rewrite Forall_map. eapply Forall_impl; [|exact Hof].
      intros c' (Hp' & _). destruct Hc as (Hp & _). cbv beta. lia.
    + rewrite Forall_map. eapply Forall_impl; [|exact Hlater].
      intros c' ((Hlo & _) & _). destruct Hc as (Hp & _). cbv beta. lia.
Qed.

Lemma paged_nodup pn pages chunks :
  paged pn pages chunks ->
  NoDup (map (fun c => chunk_id (metadata c)) chunks).
Proof.
  induction 1 as [pn|pn page rest chunks Hblank _ IH
                  |pn t rest group chunks Hnb Hsplit Hrest IH].
  - constructor.
  - exact IH.
  - rewrite map_app.
    destruct (split_of_page _ _ _ _ Hsplit) as [Hof Hnd].
    apply NoDup_app; [exact Hnd|exact IH|].
    intros id Hin Hin'.
    apply in_map_iff in Hin. destruct Hin as (c & Hc & Hcin).
    apply in_map_iff in Hin'. destruct Hin' as (c' & Hc' & Hcin').
    rewrite Forall_forall in Hof.
    destruct (Hof c Hcin) as (Hp & _ & _ & Hid & _).
    pose proof (paged_placed _ _ _ Hrest) as Hlater.
    rewrite Forall_forall in Hlater.
    destruct (Hlater c' Hcin') as ((Hlo & _) & t' & _ & Hof').
    destruct Hof' as (_ & _ & _ & Hid' & _).
    rewrite Hid in Hc. rewrite Hid' in Hc'. rewrite <- Hc' in Hc.
    apply make_chunk_id_inj in Hc. lia.
Qed.

Lemma pages_loop_total pages :
  0 <= chunk_overlap < chunk_size ->
  Forall (fun page => forall t, page = Some t -> (length t + 2 <= fuel)%nat)
         pages ->
  forall pn acc,
    exists chunks,
      pages_loop chunk_size chunk_overlap fuel pages pn d tp acc = Ok chunks.
Proof.
  intros Hpre Hfuel.
  induction Hfuel as [|page rest Hpage _ IH]; intros pn acc.
  - simpl. eauto.
  - cbn [pages_loop]. destruct page as [t|]; [|apply IH].
    destruct (truthy t && truthy (strip t)); [|apply IH].
    destruct (windows_total chunk_size chunk_overlap Hpre
                            (length t) (len t) 0) as [ws Hws];
      [unfold len; lia|].
    rewrite (split_text_windows chunk_size chunk_overlap (S (length t)) fuel
                                t pn d tp ws Hws).
    + cbn [bind]. apply IH.
    + specialize (Hpage t eq_refl). lia.
Qed.

End Pages.

End PagesFacts.

(** ** Properties of [process_pdf] *)

Module PagesExtras.

Import Py Res PDFProcessor ChunkerFacts PyFacts ChunkerExtras PagesFacts.
Import Examples MoreExamples.

Lemma process_pdf_paged chunk_size chunk_overlap fuel pages d chunks tp :
  process_pdf chunk_size chunk_overlap fuel (Ok pages) d = Ok (chunks, tp) ->
  tp = len pages
  /\ paged chunk_size chunk_overlap fuel d (len pages) 1 pages chunks.
Proof.
  unfold process_pdf. cbn [bind try_except].
  destruct (pages_loop chunk_size chunk_overlap fuel pages 1 d (len pages) [])
    as [cs| |] eqn:Hloop; cbn [bind]; try discriminate.
  intros [= <- <-]. split; [reflexivity|].
  destruct (pages_loop_paged _ _ _ _ _ _ _ _ _ Hloop) as (new & -> & Hnew).
  exact Hnew.
Qed.

(** X3. When [process_pdf] returns, the page count is the number of pages
    of the document, and every chunk carries the number of a page of the
    document that has text, between 1 and the page count, the id of the
    document and the page count; its text is not empty, has no blank at
    either end and stands word for word in the text of that page. The
    chunks come in the order of their pages. *)
Theorem process_pdf_provenance chunk_size chunk_overlap fuel pages d chunks tp :
  process_pdf chunk_size chunk_overlap fuel (Ok pages) d = Ok (chunks, tp) ->
  tp = len pages
  /\ Forall (fun c =>
               1 <= page_number (metadata c) <= tp
               /\ document_id (metadata c) = d
               /\ total_pages (metadata c) = tp
               /\ PDFProcessor.text c <> []
               /\ strip (PDFProcessor.text c) = PDFProcessor.text c
               /\ exists t before after,
                    nth_error pages (Z.to_nat (page_number (metadata c) - 1))
                    = Some (Some t)
                    /\ t = before ++ PDFProcessor.text c ++ after) chunks
  /\ StronglySorted Z.le (map (fun c => page_number (metadata c)) chunks).
Proof.
  intros H. apply process_pdf_paged in H. destruct H as [-> Hpaged].
  split; [reflexivity|]. split.
  - eapply Forall_impl; [|exact (paged_placed _ _ _ _ _ _ _ _ Hpaged)].
    intros c ((Hlo & Hhi) & t & Hnth & Hof).
    destruct Hof as (_ & Hd & Htp & _ & Hne & Hstrip & before & after & Hsub).
    repeat split; auto; try lia.
    exists t, before, after. now split.
  - exact (paged_sorted _ _ _ _ _ _ _ _ Hpaged).
Qed.

Lemma process_pdf_provenance_witness :
  exists chunks,
    process_pdf 4 1 20 (Ok mixed_pages) (lit "d0c") = Ok (chunks, 4)
    /\ map (fun c => page_number (metadata c)) chunks = [1; 1; 1; 4; 4; 4]
    /\ Forall (fun c =>
                 1 <= page_number (metadata c) <= 4
                 /\ document_id (metadata c) = lit "d0c"
                 /\ total_pages (metadata c) = 4
                 /\ PDFProcessor.text c <> []
                 /\ strip (PDFProcessor.text c) = PDFProcessor.text c
                 /\ exists t before after,
                      nth_error mixed_pages
                                (Z.to_nat (page_number (metadata c) - 1))
                      = Some (Some t)
                      /\ t = before ++ PDFProcessor.text c ++ after) chunks.
Proof.
  eexists. split; [vm_compute; reflexivity|].
  split; [vm_compute; reflexivity|].
  eapply (proj1 (proj2 (process_pdf_provenance 4 1 20 mixed_pages
                                                (lit "d0c") _ 4 _))).
  Unshelve. vm_compute. reflexivity.
Defined.

(** X4. The chunk ids of a document are pairwise different. *)
Theorem chunk_ids_unique chunk_size chunk_overlap fuel pages d chunks tp :
  process_pdf chunk_size chunk_overlap fuel (Ok pages) d = Ok (chunks, tp) ->
  NoDup (map (fun c => chunk_id (metadata c)) chunks).
Proof.
  intros H. apply process_pdf_paged in H. destruct H as [_ Hpaged].
  exact (paged_nodup _ _ _ _ _ _ _ _ Hpaged).
Qed.

Lemma chunk_ids_unique_witness :
  exists chunks,
    process_pdf 4 1 20 (Ok mixed_pages) (lit "d0c") = Ok (chunks, 4)
    /\ length chunks = 6%nat
    /\ NoDup (map (fun c => chunk_id (metadata c)) chunks).
Proof.
  eexists. split; [vm_compute; reflexivity|]. split; [reflexivity|].
  eapply (chunk_ids_unique 4 1 20 mixed_pages (lit "d0c") _ 4).
  vm_compute. reflexivity.
Defined.

(** X5. With [0 <= overlap < chunk_size], [process_pdf] returns on every
    document the reader opens, as soon as the fuel exceeds the length of
    the longest page by 2; a document whose pages all lack text gives no
    chunk; and an exception of the reader comes out as the
    [RuntimeError] "Failed to process PDF" that wraps it. *)
Theorem process_pdf_returns chunk_size chunk_overlap fuel pages d :
  0 <= chunk_overlap < chunk_size ->
  Forall (fun page => forall t, page = Some t -> (length t + 2 <= fuel)%nat)
         pages ->
  (exists chunks,
      process_pdf chunk_size chunk_overlap fuel (Ok pages) d
      = Ok (chunks, len pages))
  /\ (Forall (fun page => forall t, page = Some t -> strip t = []) pages ->
      process_pdf chunk_size chunk_overlap fuel (Ok pages) d
      = Ok ([], len pages))
  /\ (forall e,
         process_pdf chunk_size chunk_overlap fuel (Raise e) d
         = Raise (Wrapped "Failed to process PDF" e)).
Proof.
  intros Hpre Hfuel. split; [|split].
  - destruct (pages_loop_total chunk_size chunk_overlap fuel d (len pages)
                               pages Hpre Hfuel 1 []) as (chunks & Hloop).
    exists chunks. unfold process_pdf. cbn [bind try_except].
    unfold str in *. now rewrite Hloop.
  - intros Hblank.
    destruct (pages_loop_total chunk_size chunk_overlap fuel d (len pages)
                               pages Hpre Hfuel 1 []) as (chunks & Hloop).
    unfold process_pdf. cbn [bind try_except].
    unfold str in *. rewrite Hloop. cbn [bind].
    destruct (pages_loop_paged _ _ _ _ _ _ _ _ _ Hloop) as (new & -> & Hnew).
    simpl. f_equal. f_equal.
    clear Hloop Hfuel. revert Hblank.
    induction Hnew as [pn|pn page rest cs Hb _ IH
                       |pn t rest group cs Hnb _ _ _]; intros Hblank.
    + reflexivity.
    + inversion Hblank; subst. now apply IH.
    + inversion Hblank as [|? ? Ht _]; subst.
      exfalso. apply Hnb. now apply Ht.
  - intros e. reflexivity.
Qed.

Lemma process_pdf_returns_witness :
  0 <= 1 < 4
  /\ (exists chunks,
         process_pdf 4 1 20 (Ok mixed_pages) (lit "d0c")
         = Ok (chunks, len mixed_pages))
  /\ process_pdf 4 1 20 (Ok [None; Some (lit "  ")]) (lit "d0c")
     = Ok ([], 2).
Proof.
  split; [lia|]. split.
  - apply (process_pdf_returns 4 1 20 mixed_pages (lit "d0c")); [lia|].
    repeat (apply Forall_cons;
            [intros t Ht; try discriminate Ht; injection Ht as <-;
             vm_compute; lia|]).
    apply Forall_nil.
  - apply (process_pdf_returns 4 1 20 [None; Some (lit "  ")] (lit "d0c"));
      [lia| |].
    + repeat (apply Forall_cons;
              [intros t Ht; try discriminate Ht; injection Ht as <-;
               vm_compute; lia|]).
      apply Forall_nil.
    + repeat (apply Forall_cons;
              [intros t Ht; try discriminate Ht; injection Ht as <-;
               reflexivity|]).
      apply Forall_nil.
Defined.

End PagesExtras.

(** ** More on the reconciler and ranker *)

Module RankerExtras.

Import Py Res PDFProcessor Schemas PostProcessor ChunkerFacts RankerFacts.
Import RankerClaims PyFacts Examples MoreExamples.

(** The candidates of [_find_best_matching_chunk]: the chunks of the
    expected page when there are any, all the chunks otherwise. *)
Definition candidate_pool (chunks : list Chunk) (expected_page : option Z)
  : list Chunk :=
  match expected_page with
  | Some p =>
      if p =? 0 then chunks
      else
        let on_page := filter (fun c => page_number (metadata c) =? p) chunks in
        if truthy on_page then on_page else chunks
  | None => chunks
  end.

Lemma candidate_pool_incl chunks page c :
  In c (candidate_pool chunks page) -> In c chunks.
Proof.
  unfold candidate_pool. destruct page as [p|]; auto.
  destruct (p =? 0); auto.
  destruct (truthy (filter _ chunks)); auto.
  intros H. apply filter_In in H. tauto.
Qed.

Section Matching.

Variable ratio : str -> str -> Q.

(** The scan keeps the first candidate that reaches the highest score, and
    keeps what it started with when no candidate beats it. *)
Lemma fold_first_best quote cands :
  forall b0 s0 b s,
    fold_left (best_step ratio quote) cands (b0, s0) = (b, s) ->
    (b = b0 /\ s = s0
     /\ forall c, In c cands -> (score_of ratio quote c <= s0)%Q)
    \/ (exists before c after,
           cands = before ++ c :: after
           /\ b = Some c /\ s = score_of ratio quote c
           /\ (s0 < s)%Q
           /\ (forall c', In c' before -> (score_of ratio quote c' < s)%Q)
           /\ (forall c', In c' after -> (score_of ratio quote c' <= s)%Q)).
Proof.
  induction cands as [|x rest IH]; intros b0 s0 b s H.
  - injection H as <- <-. left. repeat split. intros c [].
  - cbn [fold_left] in H. unfold best_step at 2 in H.
    fold (score_of ratio quote x) in H. cbn [snd] in H.
    destruct (Qltb s0 (score_of ratio quote x)) eqn:E.
    + apply Qltb_lt in E. apply IH in H.
      destruct H as [(-> & -> & Hall)
                    |(before & c & after & -> & -> & -> & Hlt & Hb & Ha)].
      * right. exists [], x, rest. repeat split; auto. intros c' [].
      * right. exists (x :: before), c, after. repeat split; auto.
        -- eapply Qlt_trans; eassumption.
        -- intros c' [<-|Hin]; auto.
    + apply Qltb_ge in E. apply IH in H.
      destruct H as [(-> & -> & Hall)
                    |(before & c & after & -> & -> & -> & Hlt & Hb & Ha)].
      * left. repeat split. intros c [<-|Hin]; auto.
      * right. exists (x :: before), c, after. repeat split; auto.
        intros c' [<-|Hin]; auto.
        eapply Qle_lt_trans; eassumption.
Qed.

End Matching.

(** X6. For a quote that is not empty, [_find_best_matching_chunk] looks at
    the chunks of the expected page when there are any and at all the
    chunks otherwise. It returns the first of these candidates that reaches
    the highest score, with that score, which is above 0; when no candidate
    scores above 0 it returns no chunk and the confidence 0. *)
Theorem best_match_is_first_maximum ratio quote chunks page :
  quote <> [] ->
  let pool := candidate_pool chunks page in
  let found := _find_best_matching_chunk ratio quote chunks page in
  (forall c, In c pool -> In c chunks)
  /\ match fst found with
     | Some c =>
         exists before after,
           pool = before ++ c :: after
           /\ snd found = score_of ratio quote c
           /\ (0 < snd found)%Q
           /\ (forall c', In c' before ->
                          (score_of ratio quote c' < snd found)%Q)
           /\ (forall c', In c' after ->
                          (score_of ratio quote c' <= snd found)%Q)
     | None =>
         snd found = 0%Q
         /\ forall c, In c pool -> (score_of ratio quote c <= 0)%Q
     end.
Proof.
  intros Hq pool found. split; [apply candidate_pool_incl|].
  assert (Hfound : found = if negb (truthy chunks) then (None, 0%Q)
                           else fold_left (best_step ratio quote) pool
                                          (None, 0%Q)).
  { subst found pool. unfold _find_best_matching_chunk, candidate_pool.
    destruct quote; [contradiction|]. reflexivity. }
  destruct chunks as [|c0 cs] eqn:Hcs.
  - rewrite Hfound. cbn [truthy negb fst snd]. split; [reflexivity|].
    subst pool. intros c Hc. apply candidate_pool_incl in Hc. destruct Hc.
  - cbn [truthy negb] in Hfound.
    destruct found as [b s] eqn:Hf. symmetry in Hfound.
    apply fold_first_best in Hfound. cbn [fst snd].
    destruct Hfound as [(-> & -> & Hall)
                       |(before & c & after & Hp & -> & -> & Hlt & Hb & Ha)].
    + split; [reflexivity|assumption].
    + exists before, after. repeat split; auto.
Qed.

Lemma best_match_is_first_maximum_witness :
  text chunk_c <> []
  /\ candidate_pool two_pages (Some 7) = two_pages
  /\ exists before after,
       two_pages = before ++ chunk_c :: after
       /\ _find_best_matching_chunk exact_ratio (text chunk_c) two_pages
                                    (Some 7)
          = (Some chunk_c, score_of exact_ratio (text chunk_c) chunk_c)
       /\ (forall c', In c' before ->
                      (score_of exact_ratio (text chunk_c) c'
                       < score_of exact_ratio (text chunk_c) chunk_c)%Q).
Proof.
  assert (Hq : text chunk_c <> []) by discriminate.
  split; [exact Hq|]. split; [reflexivity|].
  pose proof (best_match_is_first_maximum exact_ratio (text chunk_c)
                                          two_pages (Some 7) Hq) as H.
  cbv zeta in H. destruct H as [_ H].
  assert (Hrun : _find_best_matching_chunk exact_ratio (text chunk_c)
                                           two_pages (Some 7)
                 = (Some chunk_c, score_of exact_ratio (text chunk_c) chunk_c))
    by (vm_compute; reflexivity).
  rewrite Hrun in H. cbn [fst snd] in H.
  destruct H as (before & after & Hp & _ & _ & Hb & _).
  exists before, after. repeat split; assumption.
Defined.

(** *** What the ranker returns *)

Lemma float_or_nonzero x : ~ (float_or x (1 # 2) == 0)%Q.
Proof.
  unfold float_or. destruct x as [v|]; [|discriminate].
  destruct (Qeq_bool v 0) eqn:E; [discriminate|].
  intros H. apply Qeq_bool_iff in H. congruence.
Qed.

Lemma process_point_valid ratio p chunks p' fp :
  process_point ratio p chunks = Ok (p', fp) -> valid_final fp = true.
Proof.
  unfold process_point.
  destruct (match_of ratio p chunks) as [best conf].
  unfold new_FinalKeyPoint.
  match goal with |- context [valid_final ?x] =>
    destruct (valid_final x) eqn:E end; [|discriminate].
  cbn [bind]. intros [= _ <-]. exact E.
Qed.

Lemma valid_point_fields p :
  valid_point p = true ->
  (0 <= importance_score p)%Q /\ (importance_score p <= 1)%Q
  /\ opt_holds (fun q => Qle_bool 0 q) (retrieval_score p) = true
  /\ opt_holds (fun q => Qle_bool 0 q) (combined_score p) = true.
Proof.
  unfold valid_point. intros H.
  repeat (apply andb_true_iff in H; destruct H as [H ?]).
  repeat split; auto; now apply Qle_bool_iff.
Qed.

Lemma positive_of_nonzero (x : Q) : (0 <= x)%Q -> ~ (x == 0)%Q -> (0 < x)%Q.
Proof.
  intros H0 Hn. destruct (Qlt_le_dec 0 x) as [|Hle]; [assumption|].
  exfalso. apply Hn. now apply Qle_antisym.
Qed.

(** What holds of a final point as it is built, and is kept by the sort,
    the cut and the ranking. The importance and the retrieval score are
    values the round copies or replaces by 0.5, so they are above 0; the
    combined score is computed from them, and the sum of products that is
    above 0 here may round to 0.0 in the floating point of the code, so it
    is said to be present and not negative only. *)
Definition well_scored (fp : FinalKeyPoint) : Prop :=
  valid_point (point fp) = true
  /\ (0 < importance_score (point fp))%Q
  /\ (importance_score (point fp) <= 1)%Q
  /\ (exists r, retrieval_score (point fp) = Some r /\ (0 < r)%Q)
  /\ (exists s, combined_score (point fp) = Some s /\ (0 <= s)%Q)
  /\ (exists q, supporting_quote (point fp) = Some q).

Lemma process_point_well_scored ratio p chunks p' fp :
  process_point ratio p chunks = Ok (p', fp) -> well_scored fp.
Proof.
  intros H. pose proof (process_point_valid _ _ _ _ _ H) as Hv.
  apply process_point_inv in H.
  destruct H as (_ & _ & _ & Hq & _ & Hi & Hr & Hc).
  unfold valid_final in Hv. apply andb_true_iff in Hv. destruct Hv as [Hv _].
  destruct (valid_point_fields _ Hv) as (Hi0 & Hi1 & Hr0 & Hc0).
  assert (Hipos : (0 < importance_score (point fp))%Q).
  { apply positive_of_nonzero; [assumption|].
    rewrite Hi. apply float_or_nonzero. }
  assert (Hrpos : (0 < float_or (retrieval_score p) (1 # 2))%Q).
  { apply positive_of_nonzero; [|apply float_or_nonzero].
    rewrite Hr in Hr0. simpl in Hr0. now apply Qle_bool_iff. }
  unfold well_scored. repeat split; auto.
  - eexists. split; [exact Hr|exact Hrpos].
  - eexists. split; [exact Hc|]. unfold fused.
    rewrite Hi in Hipos.
    pose proof (match_confidence_nonneg ratio (quote_of p) chunks
                                        (page_start p)) as Hm.
    fold (match_of ratio p chunks) in Hm.
    set (a := float_or (Some (importance_score p)) (1 # 2)) in *.
    set (b := float_or (retrieval_score p) (1 # 2)) in *.
    set (c := snd (match_of ratio p chunks)) in *.
    lra.
  - eexists. exact Hq.
Qed.

Lemma assign_ranks_in i l fp :
  In fp (assign_ranks i l) ->
  exists fp0, In fp0 l /\ point fp = point fp0 /\ i <= final_rank fp.
Proof.
  revert i. induction l as [|x l IH]; intros i; simpl; [contradiction|].
  intros [<-|H].
  - exists x. split; [now left|]. simpl. split; [reflexivity|lia].
  - destruct (IH _ H) as (fp0 & Hin & Hp & Hr).
    exists fp0. split; [now right|]. split; [assumption|lia].
Qed.

(** X7. Every final point that [process_and_rank] returns meets the
    constraints of its schema, the rank it was given after its construction
    included; its importance lies in (0, 1], its retrieval score is present
    and above 0, its combined score is present and not negative, and it has
    a quote. The ranks are 1, 2, ..., N whatever [top_k] is. *)
Theorem returned_points_well_formed ratio top_k points chunks points' out :
  process_and_rank ratio top_k points chunks = Ok (points', out) ->
  map final_rank out = map Z.of_nat (seq 1 (length out))
  /\ Forall (fun fp => valid_final fp = true /\ well_scored fp) out.
Proof.
  unfold process_and_rank. intros H.
  destruct (process_points ratio points chunks) as [[ps staged]| |] eqn:Hp;
    cbn [bind fst snd] in H; try discriminate.
  injection H as <- <-. split.
  - rewrite assign_ranks_rank, assign_ranks_length.
    generalize (length (slice (sort_desc staged) 0 top_k)).
    intros n. change 1 with (Z.of_nat 1). generalize 1%nat.
    induction n as [|n IH]; intros i; simpl; [reflexivity|].
    f_equal. rewrite <- IH. f_equal. lia.
  - apply Forall_forall. intros fp Hin.
    apply assign_ranks_in in Hin. destruct Hin as (fp0 & Hin & Hpt & Hrank).
    apply in_slice in Hin.
    apply (Permutation_in _ (sort_desc_perm staged)) in Hin.
    destruct (process_points_inv ratio points chunks _ _ Hp) as (HF & _).
    destruct (Forall2_in_r _ _ _ _ HF Hin) as (p & _ & p' & Hpp).
    apply process_point_well_scored in Hpp.
    assert (Hw : well_scored fp).
    { unfold well_scored in *. now rewrite Hpt. }
    split; [|exact Hw].
    unfold valid_final. apply andb_true_iff. split.
    + now destruct Hw as (Hv & _).
    + apply Z.leb_le. exact Hrank.
Qed.

Lemma returned_points_well_formed_witness :
  exists points' out,
    process_and_rank exact_ratio (-1) [unquoted; unimportant; misplaced]
                     two_pages = Ok (points', out)
    /\ map final_rank out = [1; 2]
    /\ Forall (fun fp => valid_final fp = true /\ well_scored fp) out.
Proof.
  eexists. eexists. split; [vm_compute; reflexivity|].
  split; [reflexivity|].
  eapply (returned_points_well_formed exact_ratio (-1)
            [unquoted; unimportant; misplaced] two_pages).
  vm_compute. reflexivity.
Defined.

(** X8. [process_and_rank] changes nothing in the extracted points but
    [page_start]. The new [page_start] is the old one, or the page of a
    chunk of the document that scored above 0 against the quote; and a
    point that reports a page on which the document has chunks keeps that
    page. The final point carries the same [page_start]. *)
Theorem reconciliation_relocates ratio top_k points chunks points' out :
  process_and_rank ratio top_k points chunks = Ok (points', out) ->
  Forall2
    (fun p p' =>
       p' = set_page_start p (page_start p')
       /\ (page_start p' = page_start p
           \/ exists c,
                In c chunks
                /\ page_start p' = Some (page_number (metadata c))
                /\ (0 < score_of ratio (quote_of p) c)%Q)
       /\ (forall n c,
              page_start p = Some n -> n <> 0 ->
              In c chunks -> page_number (metadata c) = n ->
              page_start p' = page_start p))
    points points'.
Proof.
  unfold process_and_rank. intros H.
  destruct (process_points ratio points chunks) as [[ps staged]| |] eqn:Hp;
    cbn [bind fst snd] in H; try discriminate.
  injection H as <- _.
  destruct (process_points_inv ratio points chunks _ _ Hp) as (_ & ->).
  clear Hp. induction points as [|p rest IH]; simpl; constructor; auto.
  unfold relocated.
  destruct (match_of ratio p chunks) as [best conf] eqn:Hm. cbn [fst].
  destruct best as [c|].
  - split; [destruct p; reflexivity|]. cbn [set_page_start page_start].
    pose proof (best_match_is_first_maximum ratio (quote_of p) chunks
                                            (page_start p)) as Hbest.
    assert (Hq : quote_of p <> []).
    { intros Hq. unfold match_of, _find_best_matching_chunk in Hm.
      rewrite Hq in Hm. discriminate. }
    specialize (Hbest Hq). cbv zeta in Hbest.
    unfold match_of in Hm. rewrite Hm in Hbest. cbn [fst snd] in Hbest.
    destruct Hbest as (Hincl & before & after & Hpool & Hs & Hpos & _).
    split.
    + right. exists c. split; [|split; [reflexivity|]].
      * apply Hincl. rewrite Hpool. apply in_or_app. right. now left.
      * now rewrite <- Hs.
    + intros n c0 Hn Hn0 Hin0 Hpage0. rewrite Hn in *. f_equal.
      eapply page_filter_keeps_to_page; eassumption.
  - split; [destruct p; reflexivity|]. split; [now left|]. reflexivity.
Qed.

Lemma reconciliation_relocates_witness :
  exists points' out,
    process_and_rank exact_ratio 10 [misplaced; misplaced_off; unquoted]
                     two_pages = Ok (points', out)
    /\ map page_start [misplaced; misplaced_off; unquoted]
       = [Some 1; Some 7; Some 1]
    /\ map page_start points' = [Some 1; Some 2; Some 1]
    /\ Forall2
         (fun p p' =>
            p' = set_page_start p (page_start p')
            /\ (page_start p' = page_start p
                \/ exists c,
                     In c two_pages
                     /\ page_start p' = Some (page_number (metadata c))
                     /\ (0 < score_of exact_ratio (quote_of p) c)%Q)
            /\ (forall n c,
                   page_start p = Some n -> n <> 0 ->
                   In c two_pages -> page_number (metadata c) = n ->
                   page_start p' = page_start p))
         [misplaced; misplaced_off; unquoted] points'.
Proof.
  eexists. eexists. split; [vm_compute; reflexivity|].
  split; [reflexivity|]. split; [reflexivity|].
  eapply (reconciliation_relocates exact_ratio 10
            [misplaced; misplaced_off; unquoted] two_pages).
  vm_compute. reflexivity.
Defined.

(** *** The cut at [top_k] *)

Lemma slice_from_start_length {A : Type} (l : list A) (k : Z) :
  len (slice l 0 k)
  = if k <? 0 then Z.max (len l + k) 0 else Z.min k (len l).
Proof.
  pose proof (len_nonneg l) as Hl.
  unfold slice, slice_bound. cbn [Z.ltb Z.compare].
  replace (Z.min 0 (len l)) with 0 by lia. cbn [Z.to_nat skipn].
  rewrite Z.sub_0_r. unfold len at 1. rewrite length_firstn.
  destruct (Z.ltb_spec k 0); unfold len in *; lia.
Qed.

Lemma assign_ranks_firstn i n l :
  assign_ranks i (firstn n l) = firstn n (assign_ranks i l).
Proof.
  revert i n. induction l as [|x l IH]; intros i [|n]; simpl; auto.
  now rewrite IH.
Qed.

(** X9. The number of final points for any [top_k]: [min(top_k, n)] for a
    [top_k] that is not negative, none for 0, and for a negative [top_k]
    the [n + top_k] best ones (none when that is negative): the slice
    [final_points[:top_k]] then drops the last [-top_k] points instead of
    failing. *)
Theorem output_length_any_top_k ratio top_k points chunks points' out :
  process_and_rank ratio top_k points chunks = Ok (points', out) ->
  len out = (if top_k <? 0 then Z.max (len points + top_k) 0
             else Z.min top_k (len points))
  /\ len points' = len points.
Proof.
  unfold process_and_rank. intros H.
  destruct (process_points ratio points chunks) as [[ps staged]| |] eqn:Hp;
    cbn [bind fst snd] in H; try discriminate.
  injection H as <- <-.
  destruct (process_points_inv ratio points chunks _ _ Hp) as (HF & ->).
  assert (Hlen : len (sort_desc staged) = len points).
  { unfold len. rewrite (Permutation_length (sort_desc_perm staged)).
    f_equal. symmetry. eapply Forall2_length; eassumption. }
  split.
  - unfold len at 1. rewrite assign_ranks_length.
    change (Z.of_nat (length (slice (sort_desc staged) 0 top_k)))
      with (len (slice (sort_desc staged) 0 top_k)).
    now rewrite slice_from_start_length, Hlen.
  - unfold len. now rewrite length_map.
Qed.

Lemma output_length_any_top_k_witness :
  exists points' out,
    process_and_rank exact_ratio (-1) [unquoted; unimportant; misplaced]
                     two_pages = Ok (points', out)
    /\ len out = 2
    /\ len points' = 3.
Proof.
  eexists. eexists. split; [vm_compute; reflexivity|].
  eapply (output_length_any_top_k exact_ratio (-1)
            [unquoted; unimportant; misplaced] two_pages).
  vm_compute. reflexivity.
Defined.

(** X10. A larger [top_k] only adds points at the end: the list returned
    for [k] is the first [k] points of the list returned for any [k'] above
    [k], ranks included, and the extracted points are left in the same
    state. *)
Theorem larger_top_k_extends ratio k k' points chunks ps out ps' out' :
  0 <= k <= k' ->
  process_and_rank ratio k points chunks = Ok (ps, out) ->
  process_and_rank ratio k' points chunks = Ok (ps', out') ->
  ps = ps' /\ out = firstn (Z.to_nat k) out'.
Proof.
  unfold process_and_rank. intros Hk H H'.
  destruct (process_points ratio points chunks) as [[qs staged]| |] eqn:Hp;
    cbn [bind fst snd] in H, H'; try discriminate.
  injection H as <- <-. injection H' as <- <-.
  split; [reflexivity|].
  rewrite !slice_prefix by lia.
  rewrite <- assign_ranks_firstn. f_equal.
  rewrite firstn_firstn. f_equal. lia.
Qed.

Lemma larger_top_k_extends_witness :
  0 <= 1 <= 2
  /\ exists ps out ps' out',
       process_and_rank exact_ratio 1 [unquoted; unimportant; misplaced]
                        two_pages = Ok (ps, out)
       /\ process_and_rank exact_ratio 2 [unquoted; unimportant; misplaced]
                           two_pages = Ok (ps', out')
       /\ length out' = 2%nat
       /\ ps = ps' /\ out = firstn 1 out'.
Proof.
  split; [lia|].
  eexists. eexists. eexists. eexists.
  split; [vm_compute; reflexivity|].
  split; [vm_compute; reflexivity|].
  split; [reflexivity|].
  eapply (larger_top_k_extends exact_ratio 1 2
            [unquoted; unimportant; misplaced] two_pages);
    [lia|vm_compute; reflexivity|vm_compute; reflexivity].
Defined.

End RankerExtras.

(** ** More on the vector store *)

Module StoreExtras.

Import Py Res PDFProcessor Embeddings VectorStore StoreFacts Examples.
Import MoreExamples.

Lemma py_max_zero (q : Q) : (0 <= py_max q 0)%Q.
Proof.
  unfold py_max. destruct (Qle_bool 0 q) eqn:E; [|apply Qle_refl].
  now apply Qle_bool_iff.
Qed.

Lemma py_max_zero_mono (q1 q2 : Q) :
  (q1 <= q2)%Q -> (py_max q1 0 <= py_max q2 0)%Q.
Proof.
  intros H. unfold py_max.
  destruct (Qle_bool 0 q1) eqn:E1; destruct (Qle_bool 0 q2) eqn:E2.
  - assumption.
  - apply Qle_bool_iff in E1. assert (Hq : (0 <= q2)%Q) by lra.
    apply Qle_bool_iff in Hq. congruence.
  - now apply Qle_bool_iff.
  - apply Qle_refl.
Qed.

Lemma reciprocal_range (x : Q) :
  (0 <= x)%Q -> (0 < 1 / (1 + x))%Q /\ (1 / (1 + x) <= 1)%Q.
Proof.
  intros Hx. assert (Hpos : (0 < 1 + x)%Q) by lra. split.
  - unfold Qdiv. rewrite Qmult_1_l. now apply Qinv_lt_0_compat.
  - apply Qle_shift_div_r; [assumption|]. lra.
Qed.

Lemma reciprocal_antitone (x y : Q) :
  (0 <= x)%Q -> (x <= y)%Q -> (1 / (1 + y) <= 1 / (1 + x))%Q.
Proof.
  intros Hx Hxy. assert (Hpx : (0 < 1 + x)%Q) by lra.
  assert (Hpy : (0 < 1 + y)%Q) by lra.
  apply Qle_shift_div_r; [assumption|].
  destruct (reciprocal_range x Hx) as [Hr _].
  assert (Hone : (1 / (1 + x) * (1 + x) == 1)%Q).
  { unfold Qdiv. rewrite Qmult_1_l, Qmult_comm.
    apply Qmult_inv_r. intros H0. rewrite H0 in Hpx.
    exact (Qlt_irrefl _ Hpx). }
  rewrite <- Hone at 1.
  apply Qmult_le_l; [assumption|lra].
Qed.

(** The two clamps at the end change nothing: the similarity is the
    reciprocal itself. *)
Lemma similarity_reciprocal (d : float) :
  similarity d
  = (1 / (1 + py_max (match d with Finite q => q | _ => 1000000%Q end) 0))%Q.
Proof.
  unfold similarity. cbv zeta.
  set (x := py_max (match d with Finite q => q | _ => 1000000%Q end) 0).
  destruct (reciprocal_range x (py_max_zero _)) as [Hpos Hle].
  unfold py_min. apply Qle_bool_iff in Hle. rewrite Hle.
  unfold py_max at 1.
  destruct (Qle_bool (1 / (1 + x)) 0) eqn:E; [|reflexivity].
  apply Qle_bool_iff in E. exfalso. exact (Qlt_not_le _ _ Hpos E).
Qed.

(** X11. The similarity of a distance is above 0 and at most 1 whatever
    the engine returns; a larger distance never gives a larger similarity;
    a distance of 0 or below gives exactly 1, and a distance [q] that is
    not negative gives [1 / (1 + q)]. *)
Theorem similarity_positive_antitone :
  (forall d, (0 < similarity d)%Q /\ (similarity d <= 1)%Q)
  /\ (forall q1 q2,
         (q1 <= q2)%Q ->
         (similarity (Finite q2) <= similarity (Finite q1))%Q)
  /\ (forall q, (q <= 0)%Q -> (similarity (Finite q) == 1)%Q)
  /\ (forall q, (0 <= q)%Q -> (similarity (Finite q) == 1 / (1 + q))%Q).
Proof.
  split; [|split; [|split]].
  - intros d. rewrite similarity_reciprocal.
    apply reciprocal_range, py_max_zero.
  - intros q1 q2 H. rewrite !similarity_reciprocal.
    apply reciprocal_antitone; [apply py_max_zero|].
    now apply py_max_zero_mono.
  - intros q Hq. rewrite similarity_reciprocal. unfold py_max.
    destruct (Qle_bool 0 q) eqn:E.
    + apply Qle_bool_iff in E. assert (H0 : (q == 0)%Q) by lra.
      rewrite H0. reflexivity.
    + reflexivity.
  - intros q Hq. rewrite similarity_reciprocal. unfold py_max.
    apply Qle_bool_iff in Hq. rewrite Hq. reflexivity.
Qed.

Lemma similarity_positive_antitone_witness :
  (3 <= 8)%Q
  /\ (similarity (Finite 8) <= similarity (Finite 3))%Q
  /\ (-2 <= 0)%Q
  /\ (similarity (Finite (-2)) == 1)%Q
  /\ (0 < similarity NaN)%Q.
Proof.
  destruct similarity_positive_antitone as (Hrange & Hanti & Hone & _).
  assert (H1 : (3 <= 8)%Q) by (unfold Qle; simpl; lia).
  assert (H2 : (-2 <= 0)%Q) by (unfold Qle; simpl; lia).
  split; [exact H1|]. split; [exact (Hanti 3%Q 8%Q H1)|].
  split; [exact H2|]. split; [exact (Hone (-2)%Q H2)|].
  exact (proj1 (Hrange NaN)).
Defined.

Section Store.

Context `{EmbeddingModel} `{AnnEngine}.

Lemma search_inv (self : Store) query top_k ef_search self' results :
  search self query top_k ef_search = Ok (self', results) ->
  chunks self' = chunks self
  /\ doc_id self' = doc_id self
  /\ (results = []
      \/ exists pairs, results = search_loop pairs (chunks self) []).
Proof.
  unfold search. destruct (index self) as [idx|].
  2:{ intros [= <- <-]. auto. }
  destruct (negb (truthy (chunks self))).
  { intros [= <- <-]. auto. }
  destruct (encode [query]) as [qe| |]; cbn [bind try_except];
    try discriminate.
  destruct (index_search (set_efSearch idx ef_search) qe
                         (Z.min top_k (len (chunks self))))
    as [found|]; cbn [lift bind try_except]; try discriminate.
  intros [= <- <-]. cbn [chunks doc_id]. repeat split.
  right. eexists. reflexivity.
Qed.

End Store.

(** X12. [add_chunks] raises [RuntimeError] on a store without an index
    and [ValueError] on an empty list of chunks; when it returns, the store
    holds the chunks it held followed by the new ones, in their order, under
    the same document id, and the index is the one the engine gave back
    for the embeddings of the new texts. *)
Theorem add_chunks_appends
        `{EmbeddingModel} `{AnnEngine} (self : Store) (new : list Chunk) :
  (index self = None ->
   add_chunks self new
   = Raise (RuntimeError
              "Index not initialized. Call initialize_index() first."))
  /\ (index self <> None -> new = [] ->
      add_chunks self new
      = Raise (ValueError "No texts provided for encoding"))
  /\ (forall self',
         add_chunks self new = Ok self' ->
         chunks self' = chunks self ++ new
         /\ doc_id self' = doc_id self
         /\ new <> []
         /\ exists idx embeddings idx',
              index self = Some idx
              /\ model_encode (map text new) = Some embeddings
              /\ index_add idx embeddings = Some idx'
              /\ index self' = Some idx').
Proof.
  unfold add_chunks. split; [|split].
  - intros Hnone. now rewrite Hnone.
  - intros Hidx ->. destruct (index self); [reflexivity|contradiction].
  - intros self'. destruct (index self) as [idx|]; [|discriminate].
    unfold encode. destruct new as [|c new'].
    { cbn. discriminate. }
    cbn [map truthy negb].
    destruct (model_encode (text c :: map text new')) as [embs|] eqn:Henc;
      cbn [lift try_except bind]; [|discriminate].
    destruct (index_add idx embs) as [idx'|] eqn:Hadd;
      cbn [lift try_except bind]; [|discriminate].
    intros [= <-]. cbn [chunks doc_id index].
    repeat split; try discriminate.
    exists idx, embs, idx'. repeat split; auto.
Qed.

Lemma add_chunks_appends_witness :
  exists self',
    add_chunks loaded_store [chunk_c] = Ok self'
    /\ chunks self' = two_pages ++ [chunk_c]
    /\ doc_id self' = Some (lit "d0c").
Proof.
  destruct (add_chunks loaded_store [chunk_c]) as [self'| |] eqn:Hrun;
    try (exfalso; vm_compute in Hrun; discriminate Hrun).
  exists self'. split; [reflexivity|].
  destruct (proj2 (proj2 (add_chunks_appends loaded_store [chunk_c]))
                  self' Hrun) as (Hc & Hd & _).
  split; [exact Hc|exact Hd].
Defined.

(** X13. A store that is initialised with [force_new], filled and searched
    knows the new document only: whatever it held before, its chunks are
    the chunks added, under the new document id, and every pair that
    [search] returns holds one of these chunks with a similarity above 0
    and at most 1. *)
Theorem fresh_index_holds_new_document
        `{EmbeddingModel} `{AnnEngine} (self s1 s2 s3 : Store)
        (doc query : str) (cs : list Chunk) (top_k ef_search : Z)
        (results : list (Chunk * Q)) :
  initialize_index self doc true = Ok s1 ->
  add_chunks s1 cs = Ok s2 ->
  search s2 query top_k ef_search = Ok (s3, results) ->
  chunks s2 = cs /\ chunks s3 = cs
  /\ doc_id s3 = Some doc
  /\ Forall (fun r => In (fst r) cs /\ (0 < snd r)%Q /\ (snd r <= 1)%Q)
            results.
Proof.
  intros Hinit Hadd Hsearch.
  assert (H1 : chunks s1 = [] /\ doc_id s1 = Some doc).
  { unfold initialize_index in Hinit. rewrite andb_false_r in Hinit.
    destruct (IndexHNSWFlat (dimension self) (m self));
      cbn [lift bind try_except] in Hinit; [|discriminate].
    injection Hinit as <-. split; reflexivity. }
  destruct H1 as [Hc1 Hd1].
  destruct (proj2 (proj2 (add_chunks_appends s1 cs)) s2 Hadd)
    as (Hc2 & Hd2 & _).
  rewrite Hc1 in Hc2. cbn [app] in Hc2.
  destruct (search_inv s2 query top_k ef_search s3 results Hsearch)
    as (Hc3 & Hd3 & Hres).
  split; [exact Hc2|]. split; [congruence|]. split; [congruence|].
  destruct Hres as [->|(pairs & ->)]; [constructor|].
  rewrite Hc2.
  pose proof (search_loop_pairs pairs cs) as Hpairs.
  induction Hpairs as [|pair r ps rs (Hnth & Hsim) _ IH]; constructor; auto.
  split; [eapply nth_error_In; eassumption|].
  rewrite Hsim. apply (proj1 similarity_positive_antitone).
Qed.

Lemma fresh_index_holds_new_document_witness :
  initialize_index loaded_store (lit "next") true = Ok next_empty
  /\ add_chunks next_empty [chunk_c; chunk_a] = Ok next_filled
  /\ exists results,
       search next_filled (lit "who bears the costs") 5 16
       = Ok (next_filled, results)
       /\ length results = 2%nat
       /\ chunks next_filled = [chunk_c; chunk_a]
       /\ doc_id next_filled = Some (lit "next")
       /\ Forall (fun r => In (fst r) [chunk_c; chunk_a]
                           /\ (0 < snd r)%Q /\ (snd r <= 1)%Q) results.
Proof.
  assert (H1 : initialize_index loaded_store (lit "next") true = Ok next_empty)
    by (vm_compute; reflexivity).
  assert (H2 : add_chunks next_empty [chunk_c; chunk_a] = Ok next_filled)
    by (vm_compute; reflexivity).
  split; [exact H1|]. split; [exact H2|].
  eexists. split; [vm_compute; reflexivity|].
  split; [reflexivity|].
  eapply (fresh_index_holds_new_document
            loaded_store next_empty next_filled next_filled (lit "next")
            (lit "who bears the costs") [chunk_c; chunk_a] 5 16 _ H1 H2).
  vm_compute. reflexivity.
Defined.

End StoreExtras.

(** ** More on the JSON recovery parser *)

Module ParserExtras.

Import Py Res Embeddings Helpers ParserFacts PyFacts Examples.

Lemma slice_middle {A : Type} (before mid after : list A) :
  slice (before ++ mid ++ after) (len before) (len before + len mid) = mid.
Proof.
  pose proof (len_nonneg before). pose proof (len_nonneg mid).
  pose proof (len_nonneg after).
  assert (Hn : len (before ++ mid ++ after)
               = len before + len mid + len after).
  { unfold len. rewrite !length_app. lia. }
  rewrite slice_plain by lia. rewrite Hn.
  replace (Z.min (len before) (len before + len mid + len after))
    with (len before) by lia.
  replace (Z.min (len before + len mid) (len before + len mid + len after)
           - len before) with (len mid) by lia.
  unfold len. rewrite !Nat2Z.id.
  rewrite skipn_app, skipn_all, Nat.sub_diag. cbn [skipn app].
  rewrite firstn_app, firstn_all, Nat.sub_diag. cbn [firstn].
  now rewrite app_nil_r.
Qed.

Lemma find_from_absent c s i : ~ In c s -> find_from c s i = -1.
Proof.
  revert i. induction s as [|x s IH]; intros i Hc; simpl; [reflexivity|].
  destruct (Ascii.eqb_spec x c) as [->|_].
  - exfalso. apply Hc. now left.
  - apply IH. intros H. apply Hc. now right.
Qed.

Lemma find_from_first c before rest i :
  ~ In c before -> find_from c (before ++ c :: rest) i = i + len before.
Proof.
  revert i. induction before as [|x before IH]; intros i Hc; simpl.
  - rewrite Ascii.eqb_refl. unfold len. simpl. lia.
  - destruct (Ascii.eqb_spec x c) as [->|_].
    + exfalso. apply Hc. now left.
    + rewrite IH by (intros H; apply Hc; now right).
      unfold len. simpl length. lia.
Qed.

Lemma rfind_from_absent c s i last : ~ In c s -> rfind_from c s i last = last.
Proof.
  revert i last. induction s as [|x s IH]; intros i last Hc; simpl;
    [reflexivity|].
  destruct (Ascii.eqb_spec x c) as [->|_].
  - exfalso. apply Hc. now left.
  - apply IH. intros H. apply Hc. now right.
Qed.

Lemma rfind_from_last c l after i last :
  ~ In c after -> rfind_from c (l ++ c :: after) i last = i + len l.
Proof.
  revert i last. induction l as [|x l IH]; intros i last Hc; simpl.
  - rewrite Ascii.eqb_refl. rewrite rfind_from_absent by assumption.
    unfold len. simpl. lia.
  - rewrite IH by assumption. unfold len. simpl length. lia.
Qed.

Section Parser.

Variable json_loads : str -> option Json.
Variable re_findall : string -> str -> list str.

(** The attempt on a text that holds the opening character and, after it,
    the closing one: what lies from the first opening to the last closing
    character is loaded. *)
Lemma bracket_attempt_span opening closing before mid after :
  ~ In opening before -> ~ In closing after ->
  bracket_attempt json_loads (before ++ opening :: mid ++ closing :: after)
                  opening closing
  = attempt_loads json_loads (opening :: mid ++ [closing]).
Proof.
  intros Ho Hc.
  pose proof (len_nonneg before). pose proof (len_nonneg mid).
  set (t := before ++ opening :: mid ++ closing :: after).
  assert (Hf : find_from opening t 0 = len before).
  { subst t. rewrite find_from_first by assumption. lia. }
  assert (Hr : rfind_from closing t 0 (-1) = len before + 1 + len mid).
  { subst t.
    replace (before ++ opening :: mid ++ closing :: after)
      with ((before ++ opening :: mid) ++ closing :: after)
      by (now rewrite <- app_assoc).
    rewrite rfind_from_last by assumption.
    unfold len. rewrite length_app. simpl length. lia. }
  unfold bracket_attempt, find, rfind. rewrite Hf, Hr.
  destruct (Z.eqb_spec (len before) (-1)); [lia|].
  destruct (Z.eqb_spec (len before + 1 + len mid) (-1)); [lia|].
  destruct (Z.ltb_spec (len before) (len before + 1 + len mid)); [|lia].
  cbn [negb andb]. f_equal.
  assert (Ht : t = before ++ (opening :: mid ++ [closing]) ++ after).
  { subst t. simpl. now rewrite <- app_assoc. }
  rewrite Ht.
  replace (len before + 1 + len mid + 1)
    with (len before + len (opening :: mid ++ [closing])).
  - apply slice_middle.
  - unfold len. simpl length. rewrite length_app. simpl length. lia.
Qed.

Lemma bracket_attempt_none opening closing text :
  ~ In opening text ->
  bracket_attempt json_loads text opening closing = Ok None.
Proof.
  intros Ho. unfold bracket_attempt, find.
  now rewrite find_from_absent by assumption.
Qed.

End Parser.

(** X14. Surrounding blanks do not matter to [parse_json_response]: a
    response that is not blank is parsed as its stripped form is. *)
Theorem parse_ignores_outer_blanks json_loads re_findall text :
  strip text <> [] ->
  parse_json_response json_loads re_findall (strip text)
  = parse_json_response json_loads re_findall text.
Proof.
  intros Hs. unfold parse_json_response. rewrite strip_idem.
  destruct (strip text) as [|c t] eqn:E; [contradiction|].
  destruct text as [|x text']; [discriminate E|]. reflexivity.
Qed.

Lemma parse_ignores_outer_blanks_witness :
  strip (lit "  Result: true ") <> []
  /\ parse_json_response toy_loads no_match (strip (lit "  Result: true "))
     = parse_json_response toy_loads no_match (lit "  Result: true ")
  /\ parse_json_response toy_loads no_match (lit "  Result: true ")
     = Ok (JBool true).
Proof.
  assert (H : strip (lit "  Result: true ") <> []) by discriminate.
  split; [exact H|]. split; [|vm_compute; reflexivity].
  exact (parse_ignores_outer_blanks toy_loads no_match _ H).
Defined.

(** X15. [_try_bracket_extract] loads the text from the first [{] to the
    last [}] and returns its value when it loads; on a text without [{] it
    does the same with the first [[] and the last []]. *)
Theorem bracket_extract_spans json_loads before mid after v :
  (~ In "{"%char before -> ~ In "}"%char after ->
   json_loads ("{"%char :: mid ++ ["}"%char]) = Some v ->
   _try_bracket_extract json_loads
                        (before ++ "{"%char :: mid ++ "}"%char :: after)
   = Ok v)
  /\ (~ In "{"%char (before ++ "["%char :: mid ++ "]"%char :: after) ->
      ~ In "["%char before -> ~ In "]"%char after ->
      json_loads ("["%char :: mid ++ ["]"%char]) = Some v ->
      _try_bracket_extract json_loads
                           (before ++ "["%char :: mid ++ "]"%char :: after)
      = Ok v).
Proof.
  split.
  - intros Ho Hc Hv. unfold _try_bracket_extract.
    rewrite bracket_attempt_span by assumption.
    unfold attempt_loads. rewrite Hv. reflexivity.
  - intros Hno Ho Hc Hv. unfold _try_bracket_extract.
    rewrite bracket_attempt_none by assumption. cbn [bind].
    rewrite bracket_attempt_span by assumption.
    unfold attempt_loads. rewrite Hv. reflexivity.
Qed.

Lemma bracket_extract_spans_witness :
  ~ In "{"%char (lit "Sure, here it is: ")
  /\ ~ In "}"%char (lit " Let me know.")
  /\ toy_loads ("{"%char :: [] ++ ["}"%char]) = Some (JObj [])
  /\ _try_bracket_extract toy_loads (lit "Sure, here it is: {} Let me know.")
     = Ok (JObj []).
Proof.
  assert (H1 : ~ In "{"%char (lit "Sure, here it is: ")).
  { intros H. vm_compute in H. intuition discriminate. }
  assert (H2 : ~ In "}"%char (lit " Let me know.")).
  { intros H. vm_compute in H. intuition discriminate. }
  split; [exact H1|]. split; [exact H2|]. split; [reflexivity|].
  exact (proj1 (bracket_extract_spans toy_loads (lit "Sure, here it is: ")
                                      [] (lit " Let me know.") (JObj []))
               H1 H2 eq_refl).
Defined.

Lemma startswith_self (p s : str) : startswith (p ++ s) p = true.
Proof.
  induction p as [|c p IH]; [now destruct s|].
  simpl. now rewrite Ascii.eqb_refl, IH.
Qed.

Lemma prefix_loop_hit json_loads text v before prefix after :
  Forall (fun q => startswith (lower text) (lower q) = false) before ->
  startswith (lower text) (lower prefix) = true ->
  json_loads (strip (slice text (len prefix) (len text))) = Some v ->
  prefix_loop json_loads (before ++ prefix :: after) text = Ok v.
Proof.
  intros Hbefore Hhit Hv.
  induction Hbefore as [|q before Hq _ IH]; cbn [app prefix_loop].
  - rewrite Hhit. unfold attempt_loads. rewrite Hv. reflexivity.
  - rewrite Hq. exact IH.
Qed.

(** X16. [_try_remove_prefix] recognises each of its six prefixes in any
    mix of upper and lower case: when what follows the prefix loads, once
    stripped, its value is returned. *)
Theorem known_prefix_removed json_loads prefix head body v :
  In prefix prefixes_to_remove ->
  lower head = lower prefix ->
  json_loads (strip body) = Some v ->
  _try_remove_prefix json_loads (head ++ body) = Ok v.
Proof.
  intros Hin Hlower Hv.
  assert (Hlen : len head = len prefix).
  { unfold len. f_equal. apply (f_equal (@length ascii)) in Hlower.
    unfold lower in Hlower. now rewrite !length_map in Hlower. }
  assert (Hslice : slice (head ++ body) (len prefix) (len (head ++ body))
                   = body).
  { rewrite <- Hlen.
    replace (len (head ++ body)) with (len head + len body)
      by (unfold len; rewrite length_app; lia).
    rewrite <- (app_nil_r body) at 1. apply slice_middle. }
  assert (Hload : json_loads (strip (slice (head ++ body) (len prefix)
                                           (len (head ++ body)))) = Some v)
    by (now rewrite Hslice).
  assert (Hstart : forall q,
             startswith (lower (head ++ body)) (lower q)
             = startswith (lower prefix ++ lower body) (lower q)).
  { intros q. now rewrite lower_app, Hlower. }
  assert (Hcase : forall before after,
             prefixes_to_remove = before ++ prefix :: after ->
             Forall (fun q => startswith (lower prefix ++ lower body)
                                         (lower q) = false) before ->
             _try_remove_prefix json_loads (head ++ body) = Ok v).
  { intros before after Heq Hbefore. unfold _try_remove_prefix. rewrite Heq.
    apply prefix_loop_hit; [|rewrite Hstart; apply startswith_self|exact Hload].
    eapply Forall_impl; [|exact Hbefore].
    intros q Hq. now rewrite Hstart. }
  clear Hlower Hlen Hslice Hload Hstart.
  unfold prefixes_to_remove in Hin, Hcase. cbn [In] in Hin.
  destruct Hin as [<-|[<-|[<-|[<-|[<-|[<-|[]]]]]]].
  - apply (Hcase [] _ eq_refl). constructor.
  - apply (Hcase [_] _ eq_refl).
    repeat (apply Forall_cons; [vm_compute; reflexivity|]). apply Forall_nil.
  - apply (Hcase [_; _] _ eq_refl).
    repeat (apply Forall_cons; [vm_compute; reflexivity|]). apply Forall_nil.
  - apply (Hcase [_; _; _] _ eq_refl).
    repeat (apply Forall_cons; [vm_compute; reflexivity|]). apply Forall_nil.
  - apply (Hcase [_; _; _; _] _ eq_refl).
    repeat (apply Forall_cons; [vm_compute; reflexivity|]). apply Forall_nil.
  - apply (Hcase [_; _; _; _; _] _ eq_refl).
    repeat (apply Forall_cons; [vm_compute; reflexivity|]). apply Forall_nil.
Qed.

Lemma known_prefix_removed_witness :
  In (lit "Result:") prefixes_to_remove
  /\ lower (lit "RESULT:") = lower (lit "Result:")
  /\ toy_loads (strip (lit "  true ")) = Some (JBool true)
  /\ _try_remove_prefix toy_loads (lit "RESULT:" ++ lit "  true ")
     = Ok (JBool true).
Proof.
  assert (H1 : In (lit "Result:") prefixes_to_remove)
    by (do 5 right; left; reflexivity).
  split; [exact H1|]. split; [reflexivity|]. split; [reflexivity|].
  exact (known_prefix_removed toy_loads (lit "Result:") (lit "RESULT:")
                              (lit "  true ") (JBool true)
                              H1 eq_refl eq_refl).
Defined.

End ParserExtras.

(** ** [clean_text] *)

Module CleanTextExtras.

Import Py PyFacts CleanText.

(** A text is tidy when its only blanks are single spaces; [after_blank]
    tells that a blank came just before. *)
Fixpoint tidy (after_blank : bool) (s : str) : bool :=
  match s with
  | [] => true
  | c :: rest =>
      if isspace c
      then Ascii.eqb c " "%char && negb after_blank && tidy true rest
      else tidy false rest
  end.

Definition solid (c : ascii) : bool := negb (isspace c).

Lemma squeeze_tidy b s : tidy b (squeeze b s) = true.
Proof.
  revert b. induction s as [|c s IH]; intros b; simpl; [reflexivity|].
  destruct (isspace c) eqn:E.
  - destruct b; [apply IH|]. simpl. apply IH.
  - simpl. rewrite E. apply IH.
Qed.

Lemma tidy_fixed b s : tidy b s = true -> squeeze b s = s.
Proof.
  revert b. induction s as [|c s IH]; intros b H; simpl in *; [reflexivity|].
  destruct (isspace c).
  - apply andb_true_iff in H. destruct H as [H Hrest].
    apply andb_true_iff in H. destruct H as [Hc Hb].
    apply Ascii.eqb_eq in Hc. subst c.
    destruct b; [discriminate|]. f_equal. now apply IH.
  - f_equal. now apply IH.
Qed.

Lemma tidy_weaken b s : tidy b s = true -> tidy false s = true.
Proof.
  destruct s as [|c s]; simpl; [reflexivity|].
  destruct (isspace c); [|auto].
  intros H. apply andb_true_iff in H. destruct H as [H Hrest].
  apply andb_true_iff in H. destruct H as [Hc _].
  now rewrite Hc, Hrest.
Qed.

Lemma tidy_suffix b x y : tidy b (x ++ y) = true -> tidy false y = true.
Proof.
  revert b. induction x as [|c x IH]; intros b H.
  - eapply tidy_weaken. exact H.
  - simpl in H. destruct (isspace c).
    + apply andb_true_iff in H. destruct H as [_ H]. eapply IH. exact H.
    + eapply IH. exact H.
Qed.

Lemma tidy_prefix b x y : tidy b (x ++ y) = true -> tidy b x = true.
Proof.
  revert b. induction x as [|c x IH]; intros b H; [reflexivity|].
  simpl in *. destruct (isspace c).
  - apply andb_true_iff in H. destruct H as [H Hrest].
    rewrite H. simpl. eapply IH. exact Hrest.
  - eapply IH. exact H.
Qed.

Lemma tidy_strip s : tidy false s = true -> tidy false (strip s) = true.
Proof.
  intros H. destruct (strip_split s) as (before & after & Hs & _).
  rewrite Hs in H. apply tidy_suffix in H. now apply tidy_prefix in H.
Qed.

Lemma tidy_blanks b s :
  tidy b s = true -> Forall (fun c => isspace c = true -> c = " "%char) s.
Proof.
  revert b. induction s as [|c s IH]; intros b H; constructor.
  - simpl in H. destruct (isspace c); [|discriminate].
    intros _. apply andb_true_iff in H. destruct H as [H _].
    apply andb_true_iff in H. destruct H as [H _]. now apply Ascii.eqb_eq.
  - simpl in H. destruct (isspace c).
    + apply andb_true_iff in H. destruct H as [_ H]. eapply IH. exact H.
    + eapply IH. exact H.
Qed.

Lemma tidy_no_pair b x c1 c2 z :
  isspace c1 = true -> isspace c2 = true ->
  tidy b (x ++ c1 :: c2 :: z) = false.
Proof.
  intros H1 H2. revert b. induction x as [|c x IH]; intros b.
  - simpl. rewrite H1, H2. simpl.
    destruct (Ascii.eqb c1 " "), (negb b), (Ascii.eqb c2 " "); reflexivity.
  - simpl. destruct (isspace c); rewrite IH; [|reflexivity].
    now rewrite andb_false_r.
Qed.

Lemma squeeze_solid b s : filter solid (squeeze b s) = filter solid s.
Proof.
  revert b. induction s as [|c s IH]; intros b; simpl; [reflexivity|].
  unfold solid at 2. destruct (isspace c) eqn:E; simpl.
  - destruct b; simpl; apply IH.
  - unfold solid at 1. rewrite E. simpl. now rewrite IH.
Qed.

Lemma filter_solid_blanks s :
  Forall (fun c => isspace c = true) s -> filter solid s = [].
Proof.
  induction 1 as [|c s Hc _ IH]; simpl; [reflexivity|].
  unfold solid at 1. now rewrite Hc.
Qed.

Lemma strip_solid s : filter solid (strip s) = filter solid s.
Proof.
  destruct (strip_split s) as (before & after & Hs & Hb & Ha).
  rewrite Hs at 2. rewrite !filter_app.
  rewrite (filter_solid_blanks _ Hb), (filter_solid_blanks _ Ha).
  now rewrite app_nil_r.
Qed.

(** X17. [clean_text] returns a text without a blank at either end, whose
    only blanks are single spaces, none next to another. It keeps the
    characters that are no blanks, in their order, and cleaning a cleaned
    text changes nothing. *)
Theorem clean_text_normal_form (text : str) :
  let cleaned := clean_text text in
  strip cleaned = cleaned
  /\ Forall (fun c => isspace c = true -> c = " "%char) cleaned
  /\ (forall x c1 c2 z,
         cleaned = x ++ c1 :: c2 :: z ->
         isspace c1 = false \/ isspace c2 = false)
  /\ filter solid cleaned = filter solid text
  /\ clean_text cleaned = cleaned.
Proof.
  cbv zeta.
  assert (Htidy : tidy false (clean_text text) = true).
  { unfold clean_text. destruct (negb (truthy text)); [reflexivity|].
    apply tidy_strip, squeeze_tidy. }
  assert (Hstrip : strip (clean_text text) = clean_text text).
  { unfold clean_text. destruct (negb (truthy text)); [reflexivity|].
    apply strip_idem. }
  split; [exact Hstrip|]. split; [eapply tidy_blanks; exact Htidy|].
  split; [|split].
  - intros x c1 c2 z Heq.
    destruct (isspace c1) eqn:E1; [|now left].
    destruct (isspace c2) eqn:E2; [|now right].
    rewrite Heq in Htidy. rewrite tidy_no_pair in Htidy by assumption.
    discriminate.
  - unfold clean_text. destruct text as [|c t]; [reflexivity|].
    cbn [truthy negb]. now rewrite strip_solid, squeeze_solid.
  - unfold clean_text at 1.
    destruct (negb (truthy (clean_text text))) eqn:E.
    + destruct (clean_text text); [reflexivity|discriminate].
    + now rewrite (tidy_fixed _ _ Htidy).
Qed.

Example clean_text_example :
  clean_text (lit "  Roe   v. Wade ") = lit "Roe v. Wade"
  /\ clean_text (lit "   ") = []
  /\ clean_text [] = [].
Proof. repeat split; vm_compute; reflexivity. Qed.

Lemma clean_text_normal_form_witness :
  clean_text (lit "  Roe   v. Wade ") = lit "Roe v. Wade"
  /\ filter solid (clean_text (lit "  Roe   v. Wade "))
     = filter solid (lit "  Roe   v. Wade ")
  /\ clean_text (clean_text (lit "  Roe   v. Wade "))
     = clean_text (lit "  Roe   v. Wade ").
Proof.
  split; [reflexivity|].
  exact (proj2 (proj2 (proj2 (clean_text_normal_form
                                (lit "  Roe   v. Wade "))))).
Defined.

End CleanTextExtras.

(** ** Comparison, prefixes and suffixes of strings *)

Module TextFacts.

Import Py Validators.

Lemma str_eqb_eq (a b : str) : str_eqb a b = true <-> a = b.
Proof.
  revert b. induction a as [|x a IH]; intros [|y b]; simpl;
    try (split; [discriminate|discriminate]); [tauto|].
  rewrite andb_true_iff, Ascii.eqb_eq, IH.
  split; [intros [-> ->]; reflexivity|intros [= -> ->]; auto].
Qed.

Lemma str_eqb_refl (a : str) : str_eqb a a = true.
Proof. now apply str_eqb_eq. Qed.

Lemma startswith_split (s p : str) :
  startswith s p = true <-> exists r, s = p ++ r.
Proof.
  revert s. induction p as [|a p IH]; intros s.
  - split; [intros _; now exists s|now destruct s].
  - destruct s as [|b s]; simpl.
    + split; [discriminate|intros [r Hr]; discriminate].
    + rewrite andb_true_iff, Ascii.eqb_eq, IH. split.
      * intros [-> [r ->]]. now exists r.
      * intros [r [= -> ->]]. split; [reflexivity|now exists r].
Qed.

Lemma endswith_split (s suffix : str) :
  endswith s suffix = true <-> exists stem, s = stem ++ suffix.
Proof.
  unfold endswith. rewrite startswith_split. split.
  - intros [r Hr]. exists (rev r).
    rewrite <- (rev_involutive s), Hr, rev_app_distr.
    now rewrite rev_involutive.
  - intros [stem ->]. exists (rev stem). apply rev_app_distr.
Qed.

Lemma split_on_nonempty sep s : split_on sep s <> [].
Proof.
  destruct s as [|c s]; simpl; [discriminate|].
  destruct (Ascii.eqb c sep); [discriminate|].
  destruct (split_on sep s); discriminate.
Qed.

(** The parts after a separator are the parts of what follows it. *)
Lemma split_on_sep sep x y :
  exists word words,
    split_on sep (x ++ sep :: y) = word :: words ++ split_on sep y.
Proof.
  induction x as [|c x (word & words & IH)]; cbn [app split_on].
  - rewrite Ascii.eqb_refl. now exists [], [].
  - rewrite IH. destruct (Ascii.eqb c sep).
    + now exists [], (word :: words).
    + now exists (c :: word), words.
Qed.

Lemma last_app_nonempty {A : Type} (l1 l2 : list A) d :
  l2 <> [] -> last (l1 ++ l2) d = last l2 d.
Proof.
  intros H. induction l1 as [|a l1 IH]; [reflexivity|].
  cbn [app]. destruct (l1 ++ l2) eqn:E; [|exact IH].
  destruct l1, l2; try discriminate E. contradiction.
Qed.

Lemma last_part sep x y :
  last (split_on sep (x ++ sep :: y)) [] = last (split_on sep y) [].
Proof.
  destruct (split_on_sep sep x y) as (word & words & ->).
  change (word :: words ++ split_on sep y)
    with ((word :: words) ++ split_on sep y).
  apply last_app_nonempty, split_on_nonempty.
Qed.

Lemma bytes_prefix_split needle hay :
  bytes_prefix needle hay = true <-> exists after, hay = needle ++ after.
Proof.
  revert hay. induction needle as [|a needle IH]; intros hay.
  - split; [intros _; now exists hay|now destruct hay].
  - destruct hay as [|b hay]; simpl.
    + split; [discriminate|intros [r Hr]; discriminate].
    + rewrite andb_true_iff, IH. split.
      * intros [Hab [r ->]]. apply Byte.byte_dec_bl in Hab. subst b.
        now exists r.
      * intros [r [= -> ->]].
        split; [now apply Byte.byte_dec_lb|now exists r].
Qed.

Lemma bytes_in_split needle hay :
  bytes_in needle hay = true
  <-> exists before after, hay = before ++ needle ++ after.
Proof.
  induction hay as [|b hay IH]; cbn [bytes_in].
  - rewrite bytes_prefix_split. split.
    + intros [after H]. now exists [], after.
    + intros (before & after & H). destruct before; [now exists after|].
      discriminate H.
  - rewrite orb_true_iff, bytes_prefix_split, IH. split.
    + intros [[after H]|(before & after & H)].
      * now exists [], after.
      * exists (b :: before), after. now rewrite H.
    + intros (before & after & H). destruct before as [|b' before].
      * left. now exists after.
      * right. injection H as _ H. now exists before, after.
Qed.

End TextFacts.

(** ** The validators of an upload *)

Module ValidatorExtras.

Import Py Res Embeddings Validators TextFacts Examples MoreExamples.

Lemma allowed_mimetype (file : FileStorage) :
  existsb (str_eqb (mimetype file)) pdf_mimetypes = true
  <-> In (mimetype file) pdf_mimetypes.
Proof.
  rewrite existsb_exists. split.
  - intros (x & Hx & Heq). apply str_eqb_eq in Heq. now subst x.
  - intros H. exists (mimetype file). split; [exact H|apply str_eqb_refl].
Qed.

Lemma pdf_extension (stem : str) :
  last (split_on "."%char (stem ++ lit ".pdf")) [] = lit "pdf".
Proof. exact (last_part "."%char stem (lit "pdf")). Qed.

(** X18. [validate_pdf] accepts an upload exactly when the file is truthy,
    its name, in lower case and stripped, ends in [.pdf], its MIME type is
    one of the two of PDF and [%PDF] occurs in the first 1024 bytes of a
    readable stream. The verdict is true exactly when the message is
    empty; the message of the second check of the extension is never
    given; and the only exception is that of a truthy file without a
    name. *)
Theorem validate_pdf_accepts_exactly (file : FileStorage) :
  (validate_pdf file = Ok (true, [])
   <-> truth file = true
       /\ exists name stem content before after,
            filename file = Some name
            /\ strip (lower name) = stem ++ lit ".pdf"
            /\ In (mimetype file) pdf_mimetypes
            /\ stream file = Some content
            /\ firstn 1024 content = before ++ pdf_magic ++ after)
  /\ (forall verdict msg,
         validate_pdf file = Ok (verdict, msg) ->
         (verdict = true <-> msg = [])
         /\ msg <> lit "Invalid PDF file type")
  /\ (forall e,
         validate_pdf file = Raise e ->
         truth file = true /\ filename file = None
         /\ e = External "AttributeError")
  /\ validate_pdf file <> OutOfFuel.
Proof.
  unfold validate_pdf.
  destruct (truth file) eqn:Etruth; cbn [negb].
  2:{ split; [|split; [|split]]; try discriminate.
      - split; [discriminate|]. intros [H _]. discriminate H.
      - intros verdict msg [= <- <-]. split; [|discriminate].
        split; discriminate. }
  destruct (filename file) as [name|] eqn:Ename.
  2:{ split; [|split; [|split]]; try discriminate.
      - split; [discriminate|].
        intros (_ & name & stem & content & before & after & H & _).
        discriminate H.
      - intros e [= <-]. auto. }
  destruct (str_eqb name []) eqn:Eempty.
  { apply str_eqb_eq in Eempty. subst name.
    split; [|split; [|split]]; try discriminate.
    - split; [discriminate|].
      intros (_ & name & stem & content & before & after & [= <-] & H & _).
      destruct stem; discriminate H.
    - intros verdict msg [= <- <-]. split; [|discriminate].
      split; discriminate. }
  destruct (endswith (strip (lower name)) (lit ".pdf")) eqn:Eends; cbn [negb].
  2:{ split; [|split; [|split]]; try discriminate.
      - split; [discriminate|].
        intros (_ & name' & stem & content & before & after & [= <-] & H & _).
        assert (Hends : endswith (strip (lower name)) (lit ".pdf") = true)
          by (apply endswith_split; now exists stem).
        congruence.
      - intros verdict msg [= <- <-]. split; [|discriminate].
        split; discriminate. }
  apply endswith_split in Eends. destruct Eends as [stem Hstem].
  rewrite Hstem, pdf_extension. rewrite str_eqb_refl. cbn [negb].
  destruct (existsb (str_eqb (mimetype file)) pdf_mimetypes) eqn:Emime;
    cbn [negb].
  2:{ split; [|split; [|split]]; try discriminate.
      - split; [discriminate|].
        intros (_ & name' & stem' & content & before & after & _ & _ & H & _).
        apply allowed_mimetype in H. congruence.
      - intros verdict msg [= <- <-]. split; [|discriminate].
        split; discriminate. }
  apply allowed_mimetype in Emime.
  destruct (stream file) as [content|] eqn:Estream; cbn [lift bind try_except].
  2:{ split; [|split; [|split]]; try discriminate.
      - split; [discriminate|].
        intros (_ & name' & stem' & content & before & after
                & _ & _ & _ & H & _).
        discriminate H.
      - intros verdict msg [= <- <-]. split; [|discriminate].
        split; discriminate. }
  destruct (bytes_in pdf_magic (firstn 1024 content)) eqn:Emagic;
    cbn [negb try_except].
  - apply bytes_in_split in Emagic. destruct Emagic as (before & after & Hm).
    split; [|split; [|split]]; try discriminate.
    + split; [|reflexivity]. intros _. split; [reflexivity|].
      now exists name, stem, content, before, after.
    + intros verdict msg [= <- <-]. split; [|discriminate]. tauto.
  - split; [|split; [|split]]; try discriminate.
    + split; [discriminate|].
      intros (_ & name' & stem' & content' & before & after
              & _ & _ & _ & [= <-] & H).
      assert (Hin : bytes_in pdf_magic (firstn 1024 content) = true)
        by (apply bytes_in_split; now exists before, after).
      congruence.
    + intros verdict msg [= <- <-]. split; [|discriminate].
      split; discriminate.
Qed.

Example validate_pdf_examples :
  validate_pdf good_upload = Ok (true, [])
  /\ validate_pdf disguised_upload
     = Ok (false, lit "Invalid file type. Only PDF files are allowed").
Proof. split; vm_compute; reflexivity. Qed.

Lemma validate_pdf_accepts_exactly_witness :
  validate_pdf good_upload = Ok (true, [])
  /\ forall verdict msg,
       validate_pdf disguised_upload = Ok (verdict, msg) ->
       (verdict = true <-> msg = [])
       /\ msg <> lit "Invalid PDF file type".
Proof.
  split.
  - apply (proj2 (proj1 (validate_pdf_accepts_exactly good_upload))).
    split; [reflexivity|].
    exists (lit " Brief.v2.PDF "), (lit "brief.v2"), pdf_bytes, [], [].
    split; [reflexivity|]. split; [reflexivity|].
    split; [left; reflexivity|]. split; reflexivity.
  - exact (proj1 (proj2 (validate_pdf_accepts_exactly disguised_upload))).
Defined.

(** X19. [validate_file_size] never raises. It accepts exactly the files
    whose stream can be measured and holds at least one byte and at most
    [max_size] bytes, whatever the limit; the verdict is true exactly when
    the message is empty. *)
Theorem validate_file_size_accepts_exactly
        (megabytes : Z -> str) (file : FileStorage) (max_size : Z) :
  exists verdict msg,
    validate_file_size megabytes file max_size = Ok (verdict, msg)
    /\ (verdict = true <-> msg = [])
    /\ (verdict = true
        <-> exists content,
              stream file = Some content /\ 0 < len content <= max_size).
Proof.
  unfold validate_file_size.
  destruct (stream file) as [content|]; cbn [lift bind try_except].
  2:{ eexists _, _. split; [reflexivity|].
      split; split; try discriminate. intros [content [H _]]. discriminate H. }
  destruct (max_size <? len content) eqn:Emax; cbn [try_except].
  { eexists _, _. split; [reflexivity|].
    split; split; try discriminate. intros [c [[= <-] H]].
    apply Z.ltb_lt in Emax. lia. }
  apply Z.ltb_ge in Emax.
  destruct (len content =? 0) eqn:Ezero; cbn [try_except].
  { eexists _, _. split; [reflexivity|].
    split; split; try discriminate. intros [c [[= <-] H]].
    apply Z.eqb_eq in Ezero. lia. }
  apply Z.eqb_neq in Ezero.
  eexists _, _. split; [reflexivity|]. split; [tauto|].
  split; [|reflexivity]. intros _. exists content. split; [reflexivity|].
  unfold len in *. lia.
Qed.

Example validate_file_size_at_the_limit :
  len pdf_bytes = 4
  /\ validate_file_size whole_megabytes good_upload 4 = Ok (true, [])
  /\ exists msg,
       validate_file_size whole_megabytes good_upload 3 = Ok (false, msg).
Proof.
  split; [reflexivity|]. split; [reflexivity|].
  eexists. vm_compute. reflexivity.
Qed.

End ValidatorExtras.

(** ** The coercion of stance and category *)

Module CoercionExtras.

Import Py Res Schemas Helpers Coercion TextFacts.

Section Members.

Context {E : Type}.
Variables (members : list E) (value_of : E -> str) (fallback : E).

Lemma member_of_listed (e : E) (before after : list E) (value : str) :
  members = before ++ e :: after ->
  Forall (fun e' => value_of e' <> value) before ->
  value_of e = value ->
  member_of members value_of value = Ok e.
Proof.
  intros -> Hbefore He. unfold member_of.
  induction Hbefore as [|e' before He' _ IH]; cbn [app List.find].
  - subst value. now rewrite str_eqb_refl.
  - destruct (str_eqb (value_of e') value) eqn:Eq; [|exact IH].
    apply str_eqb_eq in Eq. contradiction.
Qed.

Lemma member_of_unlisted (value : str) :
  (forall e, In e members -> value_of e <> value) ->
  member_of members value_of value = Raise (ValueError "not a valid member").
Proof.
  intros Hno. unfold member_of.
  destruct (List.find (fun e => str_eqb (value_of e) value) members)
    as [e|] eqn:Efind; [|reflexivity].
  apply find_some in Efind. destruct Efind as [Hin Heq].
  apply str_eqb_eq in Heq. now apply Hno in Hin.
Qed.

End Members.

Lemma stance_listed (st : Stance) :
  exists before after,
    stances = before ++ st :: after
    /\ Forall (fun s => stance_value s <> stance_value st) before.
Proof.
  destruct st;
    [exists [], (tl stances)
    |exists (firstn 1 stances), (skipn 2 stances)
    |exists (firstn 2 stances), (skipn 3 stances)
    |exists (firstn 3 stances), (skipn 4 stances)
    |exists (firstn 4 stances), (skipn 5 stances)
    |exists (firstn 5 stances), (skipn 6 stances)
    |exists (firstn 6 stances), (skipn 7 stances)];
    (split; [reflexivity|]);
    repeat (apply Forall_cons; [discriminate|]); apply Forall_nil.
Qed.

Lemma category_listed (c : ArgumentCategory) :
  exists before after,
    categories = before ++ c :: after
    /\ Forall (fun k => category_value k <> category_value c) before.
Proof.
  destruct c;
    [exists [], (tl categories)
    |exists (firstn 1 categories), (skipn 2 categories)
    |exists (firstn 2 categories), (skipn 3 categories)
    |exists (firstn 3 categories), (skipn 4 categories)
    |exists (firstn 4 categories), (skipn 5 categories)
    |exists (firstn 5 categories), (skipn 6 categories)
    |exists (firstn 6 categories), (skipn 7 categories)];
    (split; [reflexivity|]);
    repeat (apply Forall_cons; [discriminate|]); apply Forall_nil.
Qed.

Lemma dict_get_absent (fields : list (str * Json)) (key : str)
      (default : Json) :
  (forall value, ~ In (key, value) fields) ->
  dict_get fields key default = default.
Proof.
  induction fields as [|[k v] rest IH]; intros Hno; [reflexivity|].
  cbn [dict_get]. destruct (str_eqb k key) eqn:Ek.
  - apply str_eqb_eq in Ek. subst k. exfalso. apply (Hno v). now left.
  - apply IH. intros value Hin. apply (Hno value). now right.
Qed.

(** X20. The stance and the category of a point are read without regard
    to case: a string that is, in lower case, the value of a member gives
    that member, any other string gives [UNKNOWN], respectively [OTHER],
    and so does a point without the key. [ValueError] never leaves the
    coercion; a value that is no string gives [AttributeError]. *)
Theorem enum_coercion_case_insensitive (point_data : list (str * Json)) :
  (forall text,
      dict_get point_data (lit "stance") (JStr (lit "unknown")) = JStr text ->
      (forall st, lower text = stance_value st ->
                  coerce_stance point_data = Ok st)
      /\ ((forall st, lower text <> stance_value st) ->
          coerce_stance point_data = Ok UNKNOWN))
  /\ (forall text,
         dict_get point_data (lit "category") (JStr (lit "other")) = JStr text ->
         (forall c, lower text = category_value c ->
                    coerce_category point_data = Ok c)
         /\ ((forall c, lower text <> category_value c) ->
             coerce_category point_data = Ok OTHER))
  /\ ((forall value, ~ In (lit "stance", value) point_data) ->
      coerce_stance point_data = Ok UNKNOWN)
  /\ ((forall value, ~ In (lit "category", value) point_data) ->
      coerce_category point_data = Ok OTHER)
  /\ ((exists st, coerce_stance point_data = Ok st)
      \/ coerce_stance point_data = Raise (External "AttributeError"))
  /\ ((exists c, coerce_category point_data = Ok c)
      \/ coerce_category point_data = Raise (External "AttributeError")).
Proof.
  assert (Hstance : forall text,
             dict_get point_data (lit "stance") (JStr (lit "unknown"))
             = JStr text ->
             (forall st, lower text = stance_value st ->
                         coerce_stance point_data = Ok st)
             /\ ((forall st, lower text <> stance_value st) ->
                 coerce_stance point_data = Ok UNKNOWN)).
  { intros text Hget. unfold coerce_stance, coerce. rewrite Hget. split.
    - intros st Hst.
      destruct (stance_listed st) as (before & after & Heq & Hbefore).
      rewrite (member_of_listed stances stance_value st before after);
        [reflexivity|exact Heq| |now symmetry].
      eapply Forall_impl; [|exact Hbefore]. intros s Hs. now rewrite Hst.
    - intros Hno. rewrite member_of_unlisted; [reflexivity|].
      intros e _ He. now apply (Hno e). }
  assert (Hcategory : forall text,
             dict_get point_data (lit "category") (JStr (lit "other"))
             = JStr text ->
             (forall c, lower text = category_value c ->
                        coerce_category point_data = Ok c)
             /\ ((forall c, lower text <> category_value c) ->
                 coerce_category point_data = Ok OTHER)).
  { intros text Hget. unfold coerce_category, coerce. rewrite Hget. split.
    - intros c Hc.
      destruct (category_listed c) as (before & after & Heq & Hbefore).
      rewrite (member_of_listed categories category_value c before after);
        [reflexivity|exact Heq| |now symmetry].
      eapply Forall_impl; [|exact Hbefore]. intros s Hs. now rewrite Hc.
    - intros Hno. rewrite member_of_unlisted; [reflexivity|].
      intros e _ He. now apply (Hno e). }
  split; [exact Hstance|]. split; [exact Hcategory|].
  split; [|split; [|split]].
  - intros Hno.
    apply (proj1 (Hstance (lit "unknown")
                          (dict_get_absent _ _ _ Hno)) UNKNOWN eq_refl).
  - intros Hno.
    apply (proj1 (Hcategory (lit "other")
                            (dict_get_absent _ _ _ Hno)) OTHER eq_refl).
  - unfold coerce_stance, coerce.
    destruct (dict_get point_data (lit "stance") (JStr (lit "unknown")));
      try (right; reflexivity).
    left. unfold member_of.
    destruct (List.find _ stances); cbn [except_ValueError]; eauto.
  - unfold coerce_category, coerce.
    destruct (dict_get point_data (lit "category") (JStr (lit "other")));
      try (right; reflexivity).
    left. unfold member_of.
    destruct (List.find _ categories); cbn [except_ValueError]; eauto.
Qed.

Lemma enum_coercion_case_insensitive_witness :
  dict_get [(lit "stance", JStr (lit "Plaintiff"))] (lit "stance")
           (JStr (lit "unknown")) = JStr (lit "Plaintiff")
  /\ lower (lit "Plaintiff") = stance_value PLAINTIFF
  /\ coerce_stance [(lit "stance", JStr (lit "Plaintiff"))] = Ok PLAINTIFF
  /\ coerce_category [(lit "stance", JStr (lit "Plaintiff"))] = Ok OTHER.
Proof.
  split; [reflexivity|]. split; [reflexivity|]. split.
  - exact (proj1 (proj1 (enum_coercion_case_insensitive
                           [(lit "stance", JStr (lit "Plaintiff"))])
                        (lit "Plaintiff") eq_refl)
                 PLAINTIFF eq_refl).
  - apply (proj1 (proj2 (proj2 (proj2 (enum_coercion_case_insensitive
                           [(lit "stance", JStr (lit "Plaintiff"))]))))).
    intros value [Heq|[]]. discriminate Heq.
Defined.

Example enum_coercion_examples :
  coerce_stance [(lit "stance", JStr (lit "Plaintiff"))] = Ok PLAINTIFF
  /\ coerce_stance [(lit "stance", JStr (lit "appellant"))] = Ok UNKNOWN
  /\ coerce_stance [(lit "summary", JStr (lit "text"))] = Ok UNKNOWN
  /\ coerce_stance [(lit "stance", JNull)]
     = Raise (External "AttributeError")
  /\ coerce_category [(lit "category", JStr (lit "CASE_LAW"))] = Ok CASE_LAW.
Proof. repeat split; vm_compute; reflexivity. Qed.

End CoercionExtras.

(** ** [analyze_chunks] *)

Module AnalyzerExtras.

Import Py Res PDFProcessor Embeddings Schemas Helpers Examples MoreExamples.
Import LLMAnalyzer ParserFacts.

Section Analyzer.

Variable json_loads : str -> option Json.
Variable re_findall : string -> str -> list str.

Lemma try_parsers_returns (text : str) :
  exists v,
    try_parsers [_try_direct_parse json_loads;
                 _try_code_block json_loads re_findall;
                 _try_bracket_extract json_loads;
                 _try_remove_prefix json_loads] text = Ok v.
Proof.
  destruct (direct_total json_loads text) as (d & Hd & _).
  destruct (code_block_loop_total json_loads re_findall patterns text)
    as (c & Hc & _).
  destruct (bracket_total json_loads text) as (b & Hb & _).
  destruct (prefix_loop_total json_loads prefixes_to_remove text)
    as (r & Hr & _).
  cbn [try_parsers]. rewrite Hd. cbn [bind].
  destruct (negb (is_none d)); [now exists d|].
  unfold _try_code_block. rewrite Hc. cbn [bind].
  destruct (negb (is_none c)); [now exists c|].
  rewrite Hb. cbn [bind].
  destruct (negb (is_none b)); [now exists b|].
  unfold _try_remove_prefix. rewrite Hr. cbn [bind].
  destruct (negb (is_none r)); [now exists r|now exists JNull].
Qed.

Lemma parse_json_response_returns (text : str) :
  exists v, parse_json_response json_loads re_findall text = Ok v.
Proof.
  unfold parse_json_response.
  destruct (negb (truthy text)); [now exists JNull|].
  apply try_parsers_returns.
Qed.

End Analyzer.

(** The two ways out of [analyze_chunks]. *)
Lemma analyze_chunks_cases
      json_loads re_findall llm prompt_head prompt_tail read_points
      (chunks_with_scores : list (Chunk * Q)) (max_chunks : Z) :
  exists out,
    analyze_chunks json_loads re_findall llm prompt_head prompt_tail
                   read_points chunks_with_scores max_chunks = Ok out
    /\ (out = fallback
        \/ exists invoke response_text parsed_data,
             llm = Some invoke
             /\ invoke (prompt_head
                        ++ _prepare_context
                             (slice chunks_with_scores 0 max_chunks)
                        ++ prompt_tail) = Some response_text
             /\ parse_json_response json_loads re_findall response_text
                = Ok parsed_data
             /\ json_truthy parsed_data = true
             /\ read_points parsed_data
                            (slice chunks_with_scores 0 max_chunks)
                = Some out).
Proof.
  unfold analyze_chunks, _create_extraction_prompt.
  destruct llm as [invoke|]; [|exists fallback; auto].
  destruct (invoke (prompt_head
                    ++ _prepare_context
                         (slice chunks_with_scores 0 max_chunks)
                    ++ prompt_tail)) as [response_text|] eqn:Einvoke;
    cbn [lift bind try_except]; [|exists fallback; auto].
  destruct (parse_json_response_returns json_loads re_findall response_text)
    as [parsed_data Hparse].
  rewrite Hparse. cbn [bind].
  destruct (json_truthy parsed_data) eqn:Etruthy; cbn [negb try_except];
    [|exists fallback; auto].
  destruct (read_points parsed_data (slice chunks_with_scores 0 max_chunks))
    as [out|] eqn:Eread; cbn [lift try_except]; [|exists fallback; auto].
  exists out. split; [reflexivity|]. right.
  now exists invoke, response_text, parsed_data.
Qed.

(** The header that [_prepare_context] puts before the text of the chunk
    numbered [i]. *)
Lemma context_parts_nth cws :
  forall i k chunk score,
    nth_error cws k = Some (chunk, score) ->
    nth_error (context_parts i cws) k
    = Some (lit "[Chunk " ++ str_of_int (i + Z.of_nat k) ++ lit ", Page "
                ++ str_of_int (page_number (metadata chunk)) ++ lit "]:"
                ++ [newline] ++ text chunk ++ [newline]).
Proof.
  induction cws as [|[c s] cws IH]; intros i [|k] chunk score Hk;
    try discriminate Hk.
  - injection Hk as -> _. cbn [context_parts nth_error].
    now rewrite Z.add_0_r.
  - cbn [context_parts nth_error]. cbn [nth_error] in Hk.
    rewrite (IH (i + 1) k chunk score Hk).
    now replace (i + Z.of_nat (S k)) with (i + 1 + Z.of_nat k) by lia.
Qed.

Lemma join_nth sep parts :
  forall k part,
    nth_error parts k = Some part ->
    exists before after, join sep parts = before ++ part ++ after.
Proof.
  induction parts as [|p parts IH]; intros [|k] part Hk;
    try discriminate Hk.
  - injection Hk as ->. exists []. destruct parts as [|q parts].
    + exists []. cbn [join]. now rewrite app_nil_r.
    + exists (sep ++ join sep (q :: parts)). reflexivity.
  - cbn [nth_error] in Hk. destruct (IH k part Hk) as (before & after & Heq).
    destruct parts as [|q parts]; [destruct k; discriminate Hk|].
    exists (p ++ sep ++ before), after.
    change (join sep (p :: q :: parts))
      with (p ++ sep ++ join sep (q :: parts)).
    rewrite Heq. now rewrite <- !app_assoc.
Qed.

(** X21. [analyze_chunks] never raises: it always returns an analysis.
    The analysis is the empty one, with no point and confidence 0, unless
    there is a client, its call on the prompt built from the first
    [max_chunks] retrieved chunks returns, the response parses to a truthy
    value and the points are read from it without an exception; then it is
    what was read. Two retrievals that agree on their first [max_chunks]
    chunks get the same analysis. *)
Theorem analyze_chunks_never_raises
        json_loads re_findall llm prompt_head prompt_tail read_points
        (chunks_with_scores : list (Chunk * Q)) (max_chunks : Z) :
  (exists out,
      analyze_chunks json_loads re_findall llm prompt_head prompt_tail
                     read_points chunks_with_scores max_chunks = Ok out
      /\ (out = fallback
          \/ exists invoke response_text parsed_data,
               llm = Some invoke
               /\ invoke (prompt_head
                          ++ _prepare_context
                               (slice chunks_with_scores 0 max_chunks)
                          ++ prompt_tail) = Some response_text
               /\ parse_json_response json_loads re_findall response_text
                  = Ok parsed_data
               /\ json_truthy parsed_data = true
               /\ read_points parsed_data
                              (slice chunks_with_scores 0 max_chunks)
                  = Some out))
  /\ (forall others,
         0 <= max_chunks ->
         firstn (Z.to_nat max_chunks) others
         = firstn (Z.to_nat max_chunks) chunks_with_scores ->
         analyze_chunks json_loads re_findall llm prompt_head prompt_tail
                        read_points others max_chunks
         = analyze_chunks json_loads re_findall llm prompt_head prompt_tail
                          read_points chunks_with_scores max_chunks).
Proof.
  split; [apply analyze_chunks_cases|].
  intros others Hmax Hsame. unfold analyze_chunks.
    now rewrite !slice_prefix, Hsame by exact Hmax.
Qed.

Lemma analyze_chunks_never_raises_witness :
  0 <= 1
  /\ firstn (Z.to_nat 1) [(chunk_a, 1%Q); (chunk_c, 1 # 3)]
     = firstn (Z.to_nat 1) [(chunk_a, 1%Q); (chunk_b, 1 # 2)]
  /\ analyze_chunks toy_loads no_match (Some answering) [] [] no_points
                    [(chunk_a, 1%Q); (chunk_c, 1 # 3)] 1
     = analyze_chunks toy_loads no_match (Some answering) [] [] no_points
                      [(chunk_a, 1%Q); (chunk_b, 1 # 2)] 1
  /\ analyze_chunks toy_loads no_match (Some answering) [] [] no_points
                    [(chunk_a, 1%Q); (chunk_b, 1 # 2)] 1
     = Ok fallback.
Proof.
  assert (Hmax : 0 <= 1) by lia.
  split; [exact Hmax|]. split; [reflexivity|]. split.
  - exact (proj2 (analyze_chunks_never_raises
                    toy_loads no_match (Some answering) [] [] no_points
                    [(chunk_a, 1%Q); (chunk_b, 1 # 2)] 1)
                 [(chunk_a, 1%Q); (chunk_c, 1 # 3)] Hmax eq_refl).
  - vm_compute. reflexivity.
Defined.

(** X26. The context of the prompt shows every chunk it is built from:
    the text of the chunk at position [k] stands in it word for word,
    between two newlines, right after the header that gives its number
    [k + 1] and its page. Without chunks the context is empty. *)
Theorem prepare_context_shows_chunks
        (chunks_with_scores : list (Chunk * Q)) :
  (forall k chunk score,
      nth_error chunks_with_scores k = Some (chunk, score) ->
      exists before after,
        _prepare_context chunks_with_scores
        = before
            ++ (lit "[Chunk " ++ str_of_int (Z.of_nat k + 1) ++ lit ", Page "
                    ++ str_of_int (page_number (metadata chunk)) ++ lit "]:"
                    ++ [newline] ++ text chunk ++ [newline])
            ++ after)
  /\ (chunks_with_scores = [] -> _prepare_context chunks_with_scores = []).
Proof.
  split; [|intros ->; reflexivity].
  intros k chunk score Hk. unfold _prepare_context.
  apply (join_nth [newline] _ k).
  rewrite (context_parts_nth _ 1 k chunk score Hk).
  now rewrite Z.add_comm.
Qed.

Lemma prepare_context_shows_chunks_witness :
  nth_error [(chunk_a, 1%Q); (chunk_c, 1 # 3)] 1 = Some (chunk_c, 1 # 3)
  /\ exists before after,
       _prepare_context [(chunk_a, 1%Q); (chunk_c, 1 # 3)]
       = before
           ++ (lit "[Chunk 2, Page 2]:" ++ [newline]
                   ++ lit "the statute bars recovery" ++ [newline])
           ++ after.
Proof.
  split; [reflexivity|].
  exact (proj1 (prepare_context_shows_chunks
                  [(chunk_a, 1%Q); (chunk_c, 1 # 3)])
               1%nat chunk_c (1 # 3) eq_refl).
Defined.

End AnalyzerExtras.

(** ** The run of the pipeline *)

Module PipelineExtras.

Import Py Res PDFProcessor Embeddings Schemas Helpers Examples MoreExamples.
Import LLMAnalyzer Pipeline ChunkerFacts PagesFacts PagesExtras RankerFacts.
Import StoreExtras.

Lemma pages_loop_blank chunk_size chunk_overlap fuel pages :
  Forall (fun page => forall t, page = Some t -> strip t = []) pages ->
  forall pn d tp acc,
    pages_loop chunk_size chunk_overlap fuel pages pn d tp acc = Ok acc.
Proof.
  induction 1 as [|page rest Hpage _ IH]; intros pn d tp acc; [reflexivity|].
  cbn [pages_loop]. destruct page as [t|]; [|apply IH].
  rewrite (Hpage t eq_refl). cbn [truthy]. rewrite andb_false_r. apply IH.
Qed.

Section Store.

Context `{EmbeddingModel} `{VectorStore.AnnEngine}.

Lemma initialize_index_anew (self s1 : VectorStore.Store) doc :
  VectorStore.initialize_index self doc true = Ok s1 ->
  VectorStore.chunks s1 = [] /\ VectorStore.doc_id s1 = Some doc.
Proof.
  unfold VectorStore.initialize_index. rewrite andb_false_r.
  destruct (VectorStore.IndexHNSWFlat (VectorStore.dimension self)
                                      (VectorStore.m self));
    cbn [lift bind try_except]; [|discriminate].
  intros [= <-]. auto.
Qed.

Lemma add_chunks_kept (s1 s2 : VectorStore.Store) cs :
  VectorStore.add_chunks s1 cs = Ok s2 ->
  VectorStore.chunks s2 = VectorStore.chunks s1 ++ cs
  /\ VectorStore.doc_id s2 = VectorStore.doc_id s1.
Proof.
  unfold VectorStore.add_chunks.
  destruct (VectorStore.index s1) as [idx|]; [|discriminate].
  destruct (encode (map text cs)) as [embeddings| |];
    cbn [bind try_except]; try discriminate.
  destruct (VectorStore.index_add idx embeddings);
    cbn [lift bind try_except]; [|discriminate].
  intros [= <-]. auto.
Qed.

End Store.

Section Run.

Context `{EmbeddingModel} `{VectorStore.AnnEngine}.

Variable settings : Settings.
Variable isfile : str -> bool.
Variable read_bytes : str -> option (list Byte.byte).
Variable sha256_hexdigest : list Byte.byte -> str.
Variable pdf_pages : str -> option (list (option str)).
Variable elapsed : Q.
Variable json_loads : str -> option Json.
Variable re_findall : string -> str -> list str.
Variable llm : option (str -> option str).
Variables (prompt_head prompt_tail : str).
Variable read_points : Json -> list (Chunk * Q) -> option LLMAnalysisOutput.
Variable token_set_ratio : str -> str -> Q.

Local Notation "'run'" :=
  (analyze_document settings isfile read_bytes sha256_hexdigest pdf_pages
                    elapsed json_loads re_findall llm prompt_head prompt_tail
                    read_points token_set_ratio) (only parsing).

(** X22. The failures of the first stages of a run, each under its own
    exception: a path that is no file gives [FileNotFoundError], a file of
    no bytes [ValueError] "Empty PDF file.", a document the reader cannot
    open the [RuntimeError] "Failed to process PDF" around the reader's
    exception, and a document none of whose pages has text [ValueError]
    "No text extracted from PDF.", whatever the chunking parameters. *)
Theorem analyze_document_failures fuel vector_store pdf_path filename :
  (isfile pdf_path = false ->
   run fuel vector_store pdf_path filename
   = Raise (FileNotFoundError "Uploaded PDF not found on server."))
  /\ (isfile pdf_path = true -> read_bytes pdf_path = Some [] ->
      run fuel vector_store pdf_path filename
      = Raise (ValueError "Empty PDF file."))
  /\ (forall content,
         isfile pdf_path = true -> read_bytes pdf_path = Some content ->
         content <> [] -> pdf_pages pdf_path = None ->
         run fuel vector_store pdf_path filename
         = Raise (Wrapped "Failed to process PDF" (External "pdfplumber")))
  /\ (forall content pages,
         isfile pdf_path = true -> read_bytes pdf_path = Some content ->
         content <> [] -> pdf_pages pdf_path = Some pages ->
         Forall (fun page => forall t, page = Some t -> strip t = []) pages ->
         run fuel vector_store pdf_path filename
         = Raise (ValueError "No text extracted from PDF.")).
Proof.
  unfold analyze_document. split; [|split; [|split]].
  - intros ->. reflexivity.
  - intros -> ->. reflexivity.
  - intros content -> -> Hcontent ->.
    destruct content; [contradiction|]. reflexivity.
  - intros content pages -> -> Hcontent -> Hblank.
    destruct content; [contradiction|].
    cbn [negb lift bind truthy]. unfold process_pdf. cbn [bind].
    rewrite pages_loop_blank by exact Hblank. reflexivity.
Qed.

(** X23. The result of a run that returns is consistent: the document id
    is the hash of the bytes of the file, which is not empty; the page
    count is that of the document and the chunk count that of its chunks,
    both at least 1; the metadata repeat the name, the two counts and the
    id; the key points carry the ranks 1, 2, ... in their order; and the
    vector store is left holding the chunks of this document, under its
    id. *)
Theorem analyze_document_result_consistent
        fuel vector_store pdf_path filename store result :
  run fuel vector_store pdf_path filename = Ok (store, result) ->
  exists content pages chunks,
    isfile pdf_path = true
    /\ read_bytes pdf_path = Some content /\ content <> []
    /\ pdf_pages pdf_path = Some pages
    /\ process_pdf (CHUNK_SIZE settings) (CHUNK_OVERLAP settings) fuel
                   (Ok pages) (sha256_hexdigest content)
       = Ok (chunks, len pages)
    /\ document_id result = sha256_hexdigest content
    /\ document_name result = filename
    /\ total_pages result = len pages /\ 1 <= total_pages result
    /\ total_chunks result = len chunks /\ 1 <= total_chunks result
    /\ metadata result
       = Some {| MetadataExtractor.document_name := filename;
                 MetadataExtractor.total_pages := total_pages result;
                 MetadataExtractor.total_chunks := total_chunks result;
                 MetadataExtractor.document_id := document_id result |}
    /\ map final_rank (key_points result)
       = count_from 1 (length (key_points result))
    /\ VectorStore.chunks store = chunks
    /\ VectorStore.doc_id store = Some (document_id result).
Proof.
  unfold analyze_document, calculate_content_hash.
  destruct (isfile pdf_path) eqn:Efile; cbn [negb try_except];
    [|discriminate].
  destruct (read_bytes pdf_path) as [content|] eqn:Eread;
    cbn [lift bind try_except]; [|discriminate].
  destruct content as [|b0 content'] eqn:Econtent;
    cbn [truthy negb try_except]; [discriminate|].
  rewrite <- Econtent. set (d := sha256_hexdigest content).
  destruct (pdf_pages pdf_path) as [pages|] eqn:Epages;
    [|cbn; discriminate].
  cbn [lift].
  destruct (process_pdf (CHUNK_SIZE settings) (CHUNK_OVERLAP settings) fuel
                        (Ok pages) d) as [[chunks tp]| |] eqn:Epdf;
    cbn [bind try_except fst snd]; try discriminate.
  destruct (process_pdf_paged _ _ _ _ _ _ _ Epdf) as [-> Hpaged].
  apply paged_placed in Hpaged.
  destruct chunks as [|first others] eqn:Echunks;
    cbn [truthy negb try_except]; [discriminate|].
  rewrite <- Echunks.
  destruct (VectorStore.initialize_index vector_store d true)
    as [s1| |] eqn:Einit; cbn [bind try_except]; try discriminate.
  destruct (VectorStore.add_chunks s1 chunks) as [s2| |] eqn:Eadd;
    cbn [bind try_except]; try discriminate.
  destruct (VectorStore.search s2 query (TOP_K_RETRIEVAL settings)
                               (FAISS_EF_SEARCH settings))
    as [[s3 retrieved]| |] eqn:Esearch;
    cbn [bind try_except fst snd]; try discriminate.
  destruct (analyze_chunks json_loads re_findall llm prompt_head prompt_tail
                           read_points retrieved 30)
    as [llm_output| |]; cbn [bind try_except]; try discriminate.
  destruct (PostProcessor.process_and_rank
              token_set_ratio (FINAL_OUTPUT_COUNT settings)
              (extracted_points llm_output) chunks)
    as [[points' final_points]| |] eqn:Erank;
    cbn [bind try_except fst snd]; try discriminate.
  intros [= <- <-]. cbn [document_id document_name total_pages total_chunks
                         key_points metadata].
  apply initialize_index_anew in Einit. destruct Einit as [Hc1 Hd1].
  apply add_chunks_kept in Eadd. destruct Eadd as [Hc2 Hd2].
  apply search_inv in Esearch. destruct Esearch as (Hc3 & Hd3 & _).
  assert (Hfirst : placed d (len pages) 1 pages first).
  { now inversion Hpaged. }
  destruct Hfirst as (Hrange & t & _ & Hof).
  destruct Hof as (_ & Hdoc & Htp & _).
  exists content, pages, chunks.
  split; [reflexivity|]. split; [reflexivity|].
  split; [rewrite Econtent; discriminate|]. split; [reflexivity|].
  split; [rewrite Echunks; exact Epdf|]. split; [reflexivity|].
  split; [reflexivity|].
  split; [reflexivity|]. split; [lia|]. split; [reflexivity|].
  split; [rewrite Echunks; unfold len; cbn [length]; lia|].
  split; [|split; [|split]].
  - rewrite Echunks. cbn [MetadataExtractor.extract_metadata].
    now rewrite Hdoc, Htp.
  - unfold PostProcessor.process_and_rank in Erank.
    destruct (PostProcessor.process_points token_set_ratio
                (extracted_points llm_output) chunks) as [r| |];
      cbn [bind] in Erank; try discriminate.
    injection Erank as _ <-.
    now rewrite assign_ranks_rank, assign_ranks_length.
  - now rewrite Hc3, Hc2, Hc1.
  - now rewrite Hd3, Hd2, Hd1.
Qed.


End Run.

Lemma analyze_document_failures_witness :
  analyze_document default_settings (fun _ => false)
                   (fun _ => Some pdf_bytes) toy_digest two_page_pdf 1%Q
                   toy_loads no_match None [] [] no_points exact_ratio
                   0 (VectorStore.new_store 32 64)
                   (lit "gone.pdf") (lit "gone.pdf")
  = Raise (FileNotFoundError "Uploaded PDF not found on server.")
  /\ analyze_document default_settings (fun _ => true)
                      (fun _ => Some pdf_bytes) toy_digest blank_pdf 1%Q
                      toy_loads no_match None [] [] no_points exact_ratio
                      0 (VectorStore.new_store 32 64)
                      (lit "scan.pdf") (lit "scan.pdf")
     = Raise (ValueError "No text extracted from PDF.").
Proof.
  split.
  - exact (proj1 (analyze_document_failures
                    default_settings (fun _ => false)
                    (fun _ => Some pdf_bytes) toy_digest two_page_pdf 1%Q
                    toy_loads no_match None [] [] no_points exact_ratio
                    0 (VectorStore.new_store 32 64)
                    (lit "gone.pdf") (lit "gone.pdf"))
                 eq_refl).
  - apply (proj2 (proj2 (proj2 (analyze_document_failures
                    default_settings (fun _ => true)
                    (fun _ => Some pdf_bytes) toy_digest blank_pdf 1%Q
                    toy_loads no_match None [] [] no_points exact_ratio
                    0 (VectorStore.new_store 32 64)
                    (lit "scan.pdf") (lit "scan.pdf"))))
                 pdf_bytes [None; Some (lit "  ")]);
      try reflexivity; [discriminate|].
    apply Forall_cons; [discriminate|].
    apply Forall_cons; [intros t [= <-]; reflexivity|apply Forall_nil].
Defined.

Lemma analyze_document_result_consistent_witness :
  exists store result,
    analyze_document default_settings (fun _ => true)
                     (fun _ => Some pdf_bytes) toy_digest two_page_pdf 1%Q
                     toy_loads no_match (Some answering) [] [] no_points
                     exact_ratio 3002 (VectorStore.new_store 32 64)
                     (lit "brief.pdf") (lit "brief.pdf")
    = Ok (store, result)
    /\ total_pages result = 2
    /\ total_chunks result = 4
    /\ metadata result
       = Some {| MetadataExtractor.document_name := lit "brief.pdf";
                 MetadataExtractor.total_pages := 2;
                 MetadataExtractor.total_chunks := 4;
                 MetadataExtractor.document_id := lit "4" |}
    /\ map final_rank (key_points result)
       = count_from 1 (length (key_points result))
    /\ length (VectorStore.chunks store) = 4%nat
    /\ VectorStore.doc_id store = Some (lit "4").
Proof.
  destruct (analyze_document default_settings (fun _ => true)
              (fun _ => Some pdf_bytes) toy_digest two_page_pdf 1%Q
              toy_loads no_match (Some answering) [] [] no_points
              exact_ratio 3002 (VectorStore.new_store 32 64)
              (lit "brief.pdf") (lit "brief.pdf"))
    as [[store result]|e|] eqn:Erun;
    [|vm_compute in Erun; discriminate Erun
     |vm_compute in Erun; discriminate Erun].
  exists store, result. split; [reflexivity|].
  destruct (analyze_document_result_consistent
              default_settings (fun _ => true) (fun _ => Some pdf_bytes)
              toy_digest two_page_pdf 1%Q toy_loads no_match
              (Some answering) [] [] no_points exact_ratio 3002
              (VectorStore.new_store 32 64) (lit "brief.pdf")
              (lit "brief.pdf") store result Erun)
    as (content & pages & chunks & _ & Hread & _ & Hpages & Hpdf & Hid & _
        & Htp & _ & Htc & _ & Hmeta & Hranks & Hstore & Hdoc).
  injection Hread as <-. injection Hpages as <-.
  vm_compute in Hpdf. injection Hpdf as <-.
  split; [exact Htp|]. split; [exact Htc|].
  rewrite Htp, Htc, Hid in Hmeta. rewrite Hid in Hdoc.
  split; [exact Hmeta|]. split; [exact Hranks|].
  split; [now rewrite Hstore|exact Hdoc].
Defined.


End PipelineExtras.

(** ** The route of the analysis *)

Module RouteExtras.

Import Py Res Embeddings Validators Routes TextFacts Examples MoreExamples.




Section Analyze.

Variable A : Type.
Variable megabytes : Z -> str.
Variable MAX_CONTENT_LENGTH : Z.
Variable secure_filename : str -> str.
Variable temp_path : str -> str.
Variable save : FileStorage -> str -> option unit.
Variable analyze_document : str -> str -> res A.
Variable str_of_exception : PyErr -> str.

Local Notation "'route'" :=
  (analyze A megabytes MAX_CONTENT_LENGTH secure_filename temp_path save
           analyze_document str_of_exception) (only parsing).


End Analyze.


Example analyze_route_examples :
  analyze Z whole_megabytes 16777216 (fun name => name) uploads_path saved
          counting_pipeline error_text (Some empty_upload)
  = Ok (Error (lit "Invalid PDF file format (missing PDF header)") 400)
  /\ analyze Z whole_megabytes 16777216 (fun name => name) uploads_path
             saved failing_pipeline error_text (Some good_upload)
     = Ok (Error (lit "No text extracted from PDF.") 500)
  /\ analyze Z whole_megabytes 16777216 (fun name => name) uploads_path
             saved counting_pipeline error_text None
     = Ok (Error (lit "No file provided") 400).
Proof. repeat split; vm_compute; reflexivity. Qed.

End RouteExtras.

(** ** The bounds of the configuration *)

Module ConfigExtras.

Import Py Res PDFProcessor Pipeline Config ChunkerFacts Examples MoreExamples.

(** X25. The bounds of the configuration do not keep the overlap below
    the chunk size. Settings inside the bounds have a chunk size of at
    least 500, a number of key points between 5 and 20, and an overlap that
    is either smaller than the chunk size or equal to it, both 500; with
    these two values [_split_text_with_page] does not return on a page of
    more than 500 characters, however long it runs. *)
Theorem bounds_admit_endless_chunking (settings : Settings) :
  in_bounds settings = true ->
  (0 <= CHUNK_OVERLAP settings < CHUNK_SIZE settings
   \/ (CHUNK_SIZE settings = 500 /\ CHUNK_OVERLAP settings = 500))
  /\ 5 <= FINAL_OUTPUT_COUNT settings <= 20
  /\ (CHUNK_OVERLAP settings = CHUNK_SIZE settings ->
      forall fuel text page_number doc_id total_pages,
        CHUNK_SIZE settings < len text ->
        _split_text_with_page (CHUNK_SIZE settings) (CHUNK_OVERLAP settings)
                              fuel text page_number doc_id total_pages
        = OutOfFuel).
Proof.
  unfold in_bounds. rewrite !andb_true_iff, !Z.leb_le.
  intros [[[[[[[Hs1 Hs2] Ho1] Ho2] _] _] Hk1] Hk2].
  split; [lia|]. split; [lia|].
  intros Heq fuel text pn d tp Hlen. unfold _split_text_with_page.
  apply split_loop_stuck; [exact Heq|lia|lia].
Qed.

Lemma bounds_admit_endless_chunking_witness :
  in_bounds tight_settings = true
  /\ len page_501 = 501
  /\ forall fuel,
       _split_text_with_page 500 500 fuel page_501 1 (lit "d0c") 1
       = OutOfFuel.
Proof.
  assert (Hb : in_bounds tight_settings = true) by reflexivity.
  split; [exact Hb|]. split; [reflexivity|]. intros fuel.
  apply (proj2 (proj2 (bounds_admit_endless_chunking tight_settings Hb))
               eq_refl fuel page_501 1 (lit "d0c") 1).
  vm_compute. reflexivity.
Defined.

End ConfigExtras.
